(** * Locale tree reconciliation: [TranslationUtils]

    A shallow embedding of
    [src/client/app/services/translation-utils.service.js] and the
    properties of its tree functions: [buildNewData], [statistics],
    [unusedTranslatedKeysCount], [processedDataToRaw] and
    [untranslatedKeysGenerator].

    The service works on plain JavaScript values, and tells a translation
    pair from a nested mapping by looking for an own property
    [_translated].  The embedding keeps that: the functions are defined
    on a type of JavaScript values, with the property reads, the
    [hasOwnProperty] calls, the [for ... in] loops and the exceptions the
    source has, and the tree shapes of the data model are predicates on
    those values.

    A property read follows the prototype chain, and [x.hasOwnProperty]
    is itself a property read followed by a call.  Both are kept: what
    the prototypes and the built-in objects behind them hold is given by
    an [engine], which every statement about [buildNewData] quantifies
    over, and an own property named [hasOwnProperty] hides the method. *)

From Stdlib Require Import String Ascii List Bool Arith Lia DecimalString.
Import ListNotations.
Local Open Scope string_scope.
Local Open Scope list_scope.

(** ** JavaScript values *)

(** The values of the data: [undefined], [null], numbers (in a locale
    file, or the [length] of a string or of a function), strings, and
    plain objects.  An
    object is the list of its own enumerable properties in the order
    [for ... in] visits them; every key occurs once in a list that stands
    for an object ([distinct], in the data model below).  Every object
    the service makes gets its keys in the order in which a loop over
    another object visits them, so it is visited in that order too. *)
#[local] Unset Elimination Schemes.
Inductive value : Type :=
| VUndefined
| VNull
| VNum (n : nat)
| VStr (s : string)
| VObj (props : list (string * value)).
#[local] Set Elimination Schemes.

Definition props : Type := list (string * value).

(** Exceptions: a [TypeError] for a property read or a method call on
    [null] or [undefined], for a call of what is not a function and for
    a built-in accessor that refuses the read; a [RangeError] for a
    recursion that never returns and exhausts the call stack. *)
Inductive error : Type := TypeError | RangeError.

Inductive result (A : Type) : Type :=
| Ok (a : A)
| Throw (e : error).
Arguments Ok {A} a.
Arguments Throw {A} e.

Notation "x <- c ;; k" :=
  (match c with Ok x => k | Throw e => Throw e end)
  (at level 61, c at next level, right associativity).
Notation "' pat <- c ;; k" :=
  (match c with Ok pat => k | Throw e => Throw e end)
  (at level 61, pat pattern, c at next level, right associativity).

(** ** Built-in objects *)

(** A property found on a prototype, or read from a built-in object,
    holds a primitive value or another built-in object (a function such
    as [Object], a prototype object): the built-in objects of the [host]
    are kept apart from the objects of the data, which they never
    hold. *)
Inductive builtin (host : Type) : Type :=
| BUndefined
| BNull
| BNum (n : nat)
| BStr (s : string)
| BHost (h : host).
Arguments BUndefined {host}.
Arguments BNull {host}.
Arguments BNum {host} n.
Arguments BStr {host} s.
Arguments BHost {host} h.

(** What the JavaScript engine brings: its built-in objects, what a read
    of [k] finds on the prototype chain of a plain object
    ([Object.prototype]), of a string and of a number when the value has
    no own property [k] ([None]: nothing, the read gives [undefined]),
    what the read [h[k]] of a built-in object gives ([None]: the accessor
    throws a [TypeError], as [caller] on [Function.prototype] does), and
    what the call [h.hasOwnProperty(k)] on a built-in object gives
    ([None]: it throws a [TypeError]). *)
Record engine : Type := mkEngine {
  host : Type;
  objectProto : string -> option (builtin host);
  stringProto : string -> option (builtin host);
  numberProto : string -> option (builtin host);
  hostGet : host -> string -> option (builtin host);
  hostHasOwn : host -> string -> option bool
}.

(** What [buildNewDataRecursive] holds as [data]: a value of the data,
    or a built-in object that a read through the prototype chain
    reached. *)
Inductive datum (host : Type) : Type :=
| Val (v : value)
| Host (h : host).
Arguments Val {host} v.
Arguments Host {host} h.

Definition ofBuiltin {host : Type} (b : builtin host) : datum host :=
  match b with
  | BUndefined => Val VUndefined
  | BNull => Val VNull
  | BNum n => Val (VNum n)
  | BStr s => Val (VStr s)
  | BHost h => Host h
  end.

(** ** Property access *)

Fixpoint lookup (ps : props) (k : string) : option value :=
  match ps with
  | [] => None
  | (k', v) :: rest => if String.eqb k' k then Some v else lookup rest k
  end.

Definition keys (ps : props) : list string := map fst ps.

(** [obj[k] = v]: the property is replaced where it is, or added last. *)
Fixpoint setProp (ps : props) (k : string) (v : value) : props :=
  match ps with
  | [] => [(k, v)]
  | (k', v') :: rest =>
      if String.eqb k' k then (k', v) :: rest else (k', v') :: setProp rest k v
  end.

(** The key of the [i]-th character of a string: its decimal numeral. *)
Definition indexKey (i : nat) : string :=
  NilEmpty.string_of_uint (Nat.to_uint i).

(** The own properties of a string primitive (through its wrapper object):
    [length] and one property per character. *)
Definition strOwn (s : string) (k : string) : option value :=
  if String.eqb k "length" then Some (VNum (String.length s))
  else match find (fun i => String.eqb (indexKey i) k) (seq 0 (String.length s)) with
       | Some i => Some (VStr (substring i 1 s))
       | None => None
       end.

(** The own property [k] of [v], when it has one. *)
Definition own (v : value) (k : string) : option value :=
  match v with
  | VObj ps => lookup ps k
  | VStr s => strOwn s k
  | _ => None
  end.

Definition absent {A : Type} (o : option A) : bool :=
  match o with
  | Some _ => false
  | None => true
  end.

(** The own property [k] of [v], [undefined] when it has none. *)
Definition field (v : value) (k : string) : value :=
  match own v k with
  | Some x => x
  | None => VUndefined
  end.

Definition nullish (v : value) : bool :=
  match v with
  | VUndefined | VNull => true
  | _ => false
  end.

(** What the prototype chain of [v] holds for [k]. *)
Definition inherited (E : engine) (v : value) (k : string)
  : option (builtin (host E)) :=
  match v with
  | VObj _ => objectProto E k
  | VStr _ => stringProto E k
  | VNum _ => numberProto E k
  | _ => None
  end.

(** [d[k]]: the own property, or else what the prototype chain holds, or
    else [undefined]. *)
Definition get (E : engine) (d : datum (host E)) (k : string)
  : result (datum (host E)) :=
  match d with
  | Val v =>
      if nullish v then Throw TypeError
      else match own v k with
           | Some x => Ok (Val x)
           | None =>
               match inherited E v k with
               | Some b => Ok (ofBuiltin b)
               | None => Ok (Val VUndefined)
               end
           end
  | Host h =>
      match hostGet E h k with
      | Some b => Ok (ofBuiltin b)
      | None => Throw TypeError
      end
  end.

(** [v[k]] where [v] owns [k]: the reads of [processedData[key]],
    [data[key]] and [latestData[key]] under a key of the loop over that
    very object or after [hasOwnProperty] has answered [true], and the
    reads of [_translated] after the same test.  It is also the read
    [v._translated] of line 86, where [v] may own no [_translated]: no
    prototype has a property of that name, and the read gives
    [undefined]. *)
Definition getOwn (v : value) (k : string) : result value :=
  if nullish v then Throw TypeError else Ok (field v k).

(** [d._translated] on line 86, where [d] is [data[key]].  No built-in
    object has a property [_translated]. *)
Definition getTranslated {host : Type} (d : datum host) : result value :=
  match d with
  | Val v => getOwn v "_translated"
  | Host _ => Ok VUndefined
  end.

(** An own property named [hasOwnProperty] hides the method of
    [Object.prototype].  The value of an own property is a value of the
    data, never a function. *)
Definition shadowed (v : value) : bool :=
  match v with
  | VObj ps => negb (absent (lookup ps "hasOwnProperty"))
  | _ => false
  end.

(** [v.hasOwnProperty(k)]: the read of the method throws on [null] and
    [undefined], the call throws when an own property hides the method,
    and the method of [Object.prototype], which strings and numbers
    inherit too, tells whether [v] owns [k]. *)
Definition hasOwnProperty (v : value) (k : string) : result bool :=
  if nullish v then Throw TypeError
  else if shadowed v then Throw TypeError
  else Ok (negb (absent (own v k))).

(** [d.hasOwnProperty(k)] on the data of [buildNewDataRecursive]. *)
Definition hasOwnPropertyOf (E : engine) (d : datum (host E)) (k : string)
  : result bool :=
  match d with
  | Val v => hasOwnProperty v k
  | Host h =>
      match hostHasOwn E h k with
      | Some b => Ok b
      | None => Throw TypeError
      end
  end.

(** [typeof v === 'object'], which holds of [null] too. *)
Definition typeofObject (v : value) : bool :=
  match v with
  | VNull | VObj _ => true
  | _ => false
  end.

Definition truthy (v : value) : bool :=
  match v with
  | VUndefined | VNull => false
  | VNum n => negb (Nat.eqb n 0)
  | VStr s => negb (String.eqb s "")
  | VObj _ => true
  end.

(** [v || {}] *)
Definition orEmpty (v : value) : value :=
  if truthy v then v else VObj [].

(** [d || {}] on the data of [buildNewDataRecursive]: a built-in object
    is an object, and truthy. *)
Definition orEmptyOf {host : Type} (d : datum host) : datum host :=
  match d with
  | Val v => Val (orEmpty v)
  | Host h => Host h
  end.

(** [v === ''] *)
Definition isEmptyString (v : value) : bool :=
  match v with
  | VStr s => String.eqb s ""
  | _ => false
  end.

(** [v === null] *)
Definition isNull (v : value) : bool :=
  match v with
  | VNull => true
  | _ => false
  end.

(** The pairs [(key, s[key])] a [for ... in] loop over the string [s]
    goes through. *)
Definition strEntries (s : string) : props :=
  map (fun i => (indexKey i, VStr (substring i 1 s))) (seq 0 (String.length s)).

(** The object literal [{ _original: o, _translated: t }]. *)
Definition leafPair (o t : value) : value :=
  VObj [("_original", o); ("_translated", t)].

(** ** [buildNewData] *)

(** Lines 79-89, the [else] branch of the loop body: the pair built for a
    key of [latestData] whose value [latest] is not an object, and the
    counter after it. *)
Definition buildLeaf (E : engine) (data : datum (host E)) (key : string)
  (latest : value) (count : nat) : result (value * nat) :=
  if isEmptyString latest then Ok (leafPair latest (VStr ""), count)
  else
    has <- hasOwnPropertyOf E data key ;;
    if has then
      d <- get E data key ;;
      t <- getTranslated d ;;
      Ok (leafPair latest t, count)
    else Ok (leafPair latest VNull, S count).

(** The closure [buildNewDataRecursive].  It fills the object [newData]
    in place and increments the counter of the enclosing call; here both
    are threaded through.  The object made by [newData[key] = {}] is the
    one the recursive call fills, so [key] is set to the filled object.
    A loop over an object goes through its properties; a loop over a
    string goes through its characters, which are never objects; a loop
    over [null], [undefined] or a number has no iteration. *)
Fixpoint buildNewDataRecursive (E : engine) (newData : props)
  (data : datum (host E)) (latestData : value) (count : nat)
  {struct latestData} : result (props * nat) :=
  match latestData with
  | VObj ps =>
      (fix loop (ps : props) (newData : props) (count : nat)
         : result (props * nat) :=
         match ps with
         | [] => Ok (newData, count)
         | (key, latest) :: rest =>
             if typeofObject latest then
               d <- get E data key ;;
               '(child, count') <-
                  buildNewDataRecursive E [] (orEmptyOf d) latest count ;;
               loop rest (setProp newData key (VObj child)) count'
             else
               '(leaf, count') <- buildLeaf E data key latest count ;;
               loop rest (setProp newData key leaf) count'
         end) ps newData count
  | VStr s =>
      (fix loop (ps : props) (newData : props) (count : nat)
         : result (props * nat) :=
         match ps with
         | [] => Ok (newData, count)
         | (key, latest) :: rest =>
             '(leaf, count') <- buildLeaf E data key latest count ;;
             loop rest (setProp newData key leaf) count'
         end) (strEntries s) newData count
  | _ => Ok (newData, count)
  end.

(** [buildNewData(data, latestData)]: the pair of [newData] and
    [newUntranslatedKeysCount]. *)
Definition buildNewData (E : engine) (data latestData : value)
  : result (value * nat) :=
  '(newData, newUntranslatedKeysCount) <-
     buildNewDataRecursive E [] (Val (orEmpty data)) latestData 0 ;;
  Ok (VObj newData, newUntranslatedKeysCount).

(** ** [statistics] *)

Record counts : Type := mkCounts { overallCount : nat; translatedCount : nat }.

(** Lines 173-178: what a pair whose [_translated] is [t] adds to the two
    counters. *)
Definition countLeaf (t : value) (st : counts) : counts :=
  if isEmptyString t then st
  else mkCounts (S (overallCount st))
                (if isNull t then translatedCount st else S (translatedCount st)).

(** The closure [statisticsRecursive], the two counters threaded through.
    On a string that is not empty the first iteration takes its first
    character, a string of one character with no own [_translated], and
    recurses on it, and so on without end: the call stack overflows. *)
Fixpoint statisticsRecursive (data : value) (st : counts) {struct data}
  : result counts :=
  match data with
  | VObj ps =>
      (fix loop (ps : props) (st : counts) : result counts :=
         match ps with
         | [] => Ok st
         | (_, child) :: rest =>
             has <- hasOwnProperty child "_translated" ;;
             if has then
               t <- getOwn child "_translated" ;;
               loop rest (countLeaf t st)
             else
               st' <- statisticsRecursive child st ;;
               loop rest st'
         end) ps st
  | VStr s => if String.eqb s "" then Ok st else Throw RangeError
  | _ => Ok st
  end.

Definition statistics (data : value) : result counts :=
  statisticsRecursive data (mkCounts 0 0).

(** ** [unusedTranslatedKeysCount] *)

(** How [unusedTranslatedKeysCountRecursive] ends when [data] is a string
    that is not empty.  Its first key is ["0"].  The call
    [latestData.hasOwnProperty("0")] throws on [null], on [undefined]
    and on an object that hides the method.  If [latestData] has the
    key, the call recurses on the first character and [latestData["0"]];
    otherwise [statistics] runs on an object holding that character and
    never returns.  Two strings recurse into each other for ever. *)
Fixpoint stringDataThrows (latestData : value) : error :=
  match latestData with
  | VUndefined | VNull => TypeError
  | VObj lps =>
      if shadowed latestData then TypeError
      else
        (fix find (lps : props) : error :=
           match lps with
           | [] => RangeError
           | (k, l) :: rest =>
               if String.eqb k "0" then stringDataThrows l else find rest
           end) lps
  | _ => RangeError
  end.

(** The closure [unusedTranslatedKeysCountRecursive], its counter threaded
    through.  The test [data.hasOwnProperty('_translated')] is on the
    object being looped over, and skips every key of a pair. *)
Fixpoint unusedTranslatedKeysCountRecursive (data latestData : value)
  (count : nat) {struct data} : result nat :=
  match data with
  | VObj ps =>
      (fix loop (rest : props) (count : nat) : result nat :=
         match rest with
         | [] => Ok count
         | (key, child) :: rest =>
             skip <- hasOwnProperty data "_translated" ;;
             if skip then loop rest count
             else
               has <- hasOwnProperty latestData key ;;
               if has then
                 l <- getOwn latestData key ;;
                 count' <- unusedTranslatedKeysCountRecursive child l count ;;
                 loop rest count'
               else
                 st <- statistics (VObj [(key, child)]) ;;
                 loop rest (count + translatedCount st)
         end) ps count
  | VStr s =>
      if String.eqb s "" then Ok count else Throw (stringDataThrows latestData)
  | _ => Ok count
  end.

Definition unusedTranslatedKeysCount (data latestData : value) : result nat :=
  if truthy data then unusedTranslatedKeysCountRecursive data latestData 0
  else Ok 0.

(** ** [processedDataToRaw] *)

(** On a string that is not empty the function recurses on the first
    character without end, as [statisticsRecursive] does. *)
Fixpoint processedDataToRaw (processedData : value) : result value :=
  match processedData with
  | VObj ps =>
      (fix loop (ps : props) (rawData : props) : result value :=
         match ps with
         | [] => Ok (VObj rawData)
         | (key, child) :: rest =>
             has <- hasOwnProperty child "_translated" ;;
             if has then
               t <- getOwn child "_translated" ;;
               loop rest (setProp rawData key t)
             else
               r <- processedDataToRaw child ;;
               loop rest (setProp rawData key r)
         end) ps []
  | VStr s => if String.eqb s "" then Ok (VObj []) else Throw RangeError
  | _ => Ok (VObj [])
  end.

(** ** [untranslatedKeysGenerator] *)

(** A yielded object [{ key, chain }]. *)
Record item : Type := mkItem { key : value; chain : list string }.

(** A full run of the generator: the items it yields, in order, and the
    exception that ends the run, if one does. *)
Definition run : Type := (list item * option error)%type.

Fixpoint untranslatedKeysGenerator (data : value) (_chain : list string)
  {struct data} : run :=
  match data with
  | VObj ps =>
      (fix loop (ps : props) : run :=
         match ps with
         | [] => ([], None)
         | (k, child) :: rest =>
             let chain := _chain ++ [k] in
             match hasOwnProperty child "_translated" with
             | Throw e => ([], Some e)
             | Ok true =>
                 match getOwn child "_translated" with
                 | Throw e => ([], Some e)
                 | Ok t =>
                     let '(later, e) := loop rest in
                     ((if isNull t then [mkItem child chain] else []) ++ later, e)
                 end
             | Ok false =>
                 match untranslatedKeysGenerator child chain with
                 | (inner, Some e) => (inner, Some e)
                 | (inner, None) =>
                     let '(later, e) := loop rest in (inner ++ later, e)
                 end
             end
         end) ps
  | VStr s => if String.eqb s "" then ([], None) else ([], Some RangeError)
  | _ => ([], None)
  end.

(** ** The data model *)

(** The two field names of a translation pair. *)
Definition reserved (k : string) : bool :=
  String.eqb k "_original" || String.eqb k "_translated".

Fixpoint distinct (l : list string) : bool :=
  match l with
  | [] => true
  | k :: rest => negb (existsb (String.eqb k) rest) && distinct rest
  end.

(** The translation of a pair: a string, or absent.  The service writes
    [null] for an absent translation (line 81), and leaves [undefined]
    when it copies the [_translated] of a mapping (line 86). *)
Definition isTranslation (t : value) : bool :=
  match t with
  | VStr _ | VNull | VUndefined => true
  | _ => false
  end.

(** A LeafPair: the original a string, the translation a string or
    absent.  The fields are in the order of the literal that creates
    every pair (line 79). *)
Definition isLeafPair (v : value) : bool :=
  match v with
  | VObj [(k1, VStr _); (k2, t)] =>
      String.eqb k1 "_original" && String.eqb k2 "_translated"
      && isTranslation t
  | _ => false
  end.

(** A ProcessedNode: a LeafPair, or a mapping of distinct keys, none of
    them a field name of a pair, to ProcessedNodes. *)
Fixpoint processedNode (v : value) : bool :=
  match v with
  | VObj ps =>
      isLeafPair v
      || (distinct (keys ps)
          && forallb (fun k => negb (reserved k)) (keys ps)
          && forallb (fun '(_, c) => processedNode c) ps)
  | _ => false
  end.

(** A processed tree: a ProcessedNode that is a mapping. *)
Definition processedTree (v : value) : bool :=
  processedNode v && negb (isLeafPair v).

(** What [buildNewData] is given as [data]: a processed tree, or nothing. *)
Definition priorData (v : value) : bool := processedTree v || nullish v.

(** A RawNode: a string, or a mapping of distinct keys to RawNodes. *)
Fixpoint rawNode (v : value) : bool :=
  match v with
  | VStr _ => true
  | VObj ps => distinct (keys ps) && forallb (fun '(_, c) => rawNode c) ps
  | _ => false
  end.

(** A raw tree: a RawNode that is a mapping. *)
Definition rawTree (v : value) : bool :=
  match v with
  | VObj _ => rawNode v
  | _ => false
  end.

(** No key of the tree is a field name of a pair. *)
Fixpoint plainKeys (v : value) : bool :=
  match v with
  | VObj ps =>
      forallb (fun k => negb (reserved k)) (keys ps)
      && forallb (fun '(_, c) => plainKeys c) ps
  | _ => true
  end.

(** No key of the tree is named [hasOwnProperty]: at every object of the
    tree the method is the one of [Object.prototype]. *)
Fixpoint noShadow (v : value) : bool :=
  match v with
  | VObj ps =>
      forallb (fun k => negb (String.eqb k "hasOwnProperty")) (keys ps)
      && forallb (fun '(_, c) => noShadow c) ps
  | _ => true
  end.

(** No object below the root has a key named [hasOwnProperty]: the
    functions that call the method on the children of the object they
    loop over, and never on their argument, ask no more. *)
Definition noShadowBelow (v : value) : bool :=
  match v with
  | VObj ps => forallb (fun '(_, c) => noShadow c) ps
  | _ => true
  end.

(** No key of the tree is the name of a property that plain objects
    inherit ([constructor], [toString], [__proto__] and the like): a read
    of a key that an object does not own gives [undefined]. *)
Fixpoint ordinaryKeys (E : engine) (v : value) : bool :=
  match v with
  | VObj ps =>
      forallb (fun k => absent (objectProto E k)) (keys ps)
      && forallb (fun '(_, c) => ordinaryKeys E c) ps
  | _ => true
  end.

(** The node a path of keys leads to, from the root. *)
Fixpoint atPath (v : value) (path : list string) : option value :=
  match path with
  | [] => Some v
  | k :: rest =>
      match v with
      | VObj ps =>
          match lookup ps k with
          | Some c => atPath c rest
          | None => None
          end
      | _ => None
      end
  end.

(** The leaves of a raw tree, each with its path, in the order of the
    keys. *)
Fixpoint leaves (v : value) : list (list string * string) :=
  match v with
  | VStr s => [([], s)]
  | VObj ps =>
      flat_map (fun '(k, c) => map (fun '(p, s) => (k :: p, s)) (leaves c)) ps
  | _ => []
  end.

(** The pairs of a processed tree, each with its path, in the order of
    the keys. *)
Fixpoint pairs (v : value) : list (list string * value) :=
  match v with
  | VObj ps =>
      if isLeafPair v then [([], v)]
      else flat_map (fun '(k, c) => map (fun '(p, l) => (k :: p, l)) (pairs c)) ps
  | _ => []
  end.

(** ** What [buildNewDataRecursive] computes

    The merged properties, the number of new keys and whether the call
    returns, written without the loop state; [buildNewDataRecursive_spec]
    below proves that they are what the closure computes on a raw tree. *)

Definition isOk {A : Type} (r : result A) : bool :=
  match r with
  | Ok _ => true
  | Throw _ => false
  end.

(** [data[key]._translated] *)
Definition translatedAt (E : engine) (d : datum (host E)) (k : string)
  : result value :=
  x <- get E d k ;; getTranslated x.

(** The data the recursive call of line 77 is given, when the read
    returns. *)
Definition step (E : engine) (d : datum (host E)) (k : string)
  : datum (host E) :=
  match get E d k with
  | Ok x => orEmptyOf x
  | Throw _ => Val (VObj [])
  end.

(** The [_translated] of the pair built for [key]. *)
Definition carried (E : engine) (d : datum (host E)) (k : string)
  (latest : value) : value :=
  if isEmptyString latest then VStr ""
  else match hasOwnPropertyOf E d k with
       | Ok true =>
           match translatedAt E d k with
           | Ok t => t
           | Throw _ => VUndefined
           end
       | _ => VNull
       end.

(** What the pair built for [key] adds to the counter. *)
Definition counted (E : engine) (d : datum (host E)) (k : string)
  (latest : value) : nat :=
  if isEmptyString latest then 0
  else match hasOwnPropertyOf E d k with
       | Ok false => 1
       | _ => 0
       end.

(** Whether the loop body returns for [key]: the call of
    [hasOwnProperty] and the two reads of line 86 may throw. *)
Definition leafReturns (E : engine) (d : datum (host E)) (k : string)
  (latest : value) : bool :=
  isEmptyString latest
  || match hasOwnPropertyOf E d k with
     | Ok true => isOk (translatedAt E d k)
     | Ok false => true
     | Throw _ => false
     end.

Fixpoint mergedProps (E : engine) (d : datum (host E)) (latest : value)
  : props :=
  match latest with
  | VObj ps =>
      map (fun '(k, v) =>
             (k, if typeofObject v
                 then VObj (mergedProps E (step E d k) v)
                 else leafPair v (carried E d k v))) ps
  | _ => []
  end.

Fixpoint newCount (E : engine) (d : datum (host E)) (latest : value) : nat :=
  match latest with
  | VObj ps =>
      list_sum (map (fun '(k, v) =>
                       if typeofObject v
                       then newCount E (step E d k) v
                       else counted E d k v) ps)
  | _ => 0
  end.

Fixpoint returns (E : engine) (d : datum (host E)) (latest : value) : bool :=
  match latest with
  | VObj ps =>
      forallb (fun '(k, v) =>
                 if typeofObject v
                 then isOk (get E d k) && returns E (step E d k) v
                 else leafReturns E d k v) ps
  | _ => true
  end.

(** The data the closure holds when it has gone down [path]. *)
Definition dataAt (E : engine) (d : datum (host E)) (path : list string)
  : datum (host E) :=
  fold_left (step E) path d.

(** ** Predicates and counts of the statements *)

(** One assignment [acc[k] = v]. *)
Definition assign (acc : props) (kv : string * value) : props :=
  setProp acc (fst kv) (snd kv).

(** What a call on a mapping returns, when every call on a mapping below
    it returns what [built] says. *)
Definition built (E : engine) (v : value) : Prop :=
  forall d c,
    buildNewDataRecursive E [] d v c =
    if returns E d v then Ok (mergedProps E d v, c + newCount E d v)
    else Throw TypeError.


(** A leaf of the fresh tree that [buildNewData] counts: its value is not
    the empty string and its path leads nowhere in the processed data. *)
Definition isNew (existing : value) (leaf : list string * string) : bool :=
  negb (String.eqb (snd leaf) "") && absent (atPath existing (fst leaf)).

(** A leaf the claim counts: its value is not the empty string, and its
    path is absent from the data or leads to a pair with no translation. *)
Definition claimedNew (existing : value) (leaf : list string * string) : bool :=
  negb (String.eqb (snd leaf) "")
  && match atPath existing (fst leaf) with
     | None => true
     | Some e => isNull (field e "_translated")
     end.

(** What the closure can hold as [data]: a node of the processed data;
    a string, a character or a length, which it reaches through a field
    name; a built-in object, a string or a number of the engine, which
    it reaches through the name of an inherited property. *)
Definition harmless {host : Type} (d : datum host) : bool :=
  match d with
  | Val (VObj ps) => processedNode (VObj ps)
  | Val (VStr _) | Val (VNum _) => true
  | Val _ => false
  | Host _ => true
  end.

(** A leaf of the fresh tree whose value is not the empty string. *)
Definition notEmpty (leaf : list string * string) : bool :=
  negb (String.eqb (snd leaf) "").

(** A mapping of the processed data, as opposed to a pair. *)
Definition isMapping (e : value) : bool :=
  match e with
  | VObj _ => negb (isLeafPair e)
  | _ => false
  end.

(** The data has no mapping at [p]: the path is absent from it, or leads
    to a pair, or the data itself is absent. *)
Definition noMappingAt (existing : value) (p : list string) : bool :=
  match atPath existing p with
  | Some e => negb (isMapping e)
  | None => true
  end.

(** A pair [statistics] counts, and one it counts as translated. *)
Definition countedPair (x : list string * value) : bool :=
  negb (isEmptyString (field (snd x) "_translated")).

Definition translatedPair (x : list string * value) : bool :=
  countedPair x && negb (isNull (field (snd x) "_translated")).

(** The same as the claim words them, by the original. *)
Definition claimedCounted (x : list string * value) : bool :=
  negb (isEmptyString (field (snd x) "_original")).

Definition claimedTranslated (x : list string * value) : bool :=
  claimedCounted x && negb (isNull (field (snd x) "_translated")).

(** The counters after the pairs of [l] are counted. *)
Definition tally (l : list (list string * value)) (st : counts) : counts :=
  mkCounts (overallCount st + length (filter countedPair l))
           (translatedCount st + length (filter translatedPair l)).

(** The pairs below the properties [ps] of a mapping. *)
Definition pairsOfProps (ps : props) : list (list string * value) :=
  flat_map (fun '(k, c) => map (fun '(p, l) => (k :: p, l)) (pairs c)) ps.

(** What the second argument has to be: an object whose properties, the
    fields of a pair apart, are such objects.  Processed trees are, and
    so are the trees [buildNewData] returns. *)
Fixpoint objectTree (l : value) : bool :=
  match l with
  | VObj ls => forallb (fun '(k, e) => reserved k || objectTree e) ls
  | _ => false
  end.

(** A pair of the data that is counted as unused: translated, and at a
    path absent from the latest tree. *)
Definition unusedPair (latest : value) (x : list string * value) : bool :=
  translatedPair x && absent (atPath latest (fst x)).

(** The loop of [unusedTranslatedKeysCountRecursive] over the properties
    [rest] of the object [all]. *)
Fixpoint unusedLoop (all rest : props) (latestData : value) (count : nat)
  : result nat :=
  match rest with
  | [] => Ok count
  | (key, child) :: rest =>
      skip <- hasOwnProperty (VObj all) "_translated" ;;
      if skip then unusedLoop all rest latestData count
      else
        has <- hasOwnProperty latestData key ;;
        if has then
          l <- getOwn latestData key ;;
          count' <- unusedTranslatedKeysCountRecursive child l count ;;
          unusedLoop all rest latestData count'
        else
          st <- statistics (VObj [(key, child)]) ;;
          unusedLoop all rest latestData (count + translatedCount st)
  end.

(** The properties of the raw object, written without the loop state. *)
Fixpoint rawProps (t : value) : props :=
  match t with
  | VObj ps =>
      map (fun '(k, c) =>
             (k, if isLeafPair c then field c "_translated"
                 else VObj (rawProps c))) ps
  | _ => []
  end.

(** The loop of [processedDataToRaw] over the properties [ps], with the
    object [rawData] filled so far. *)
Fixpoint toRawLoop (ps : props) (rawData : props) : result value :=
  match ps with
  | [] => Ok (VObj rawData)
  | (key, child) :: rest =>
      has <- hasOwnProperty child "_translated" ;;
      if has then
        t <- getOwn child "_translated" ;;
        toRawLoop rest (setProp rawData key t)
      else
        r <- processedDataToRaw child ;;
        toRawLoop rest (setProp rawData key r)
  end.

(** A pair with no translation. *)
Definition untranslatedPair (x : list string * value) : bool :=
  isNull (field (snd x) "_translated").

(** The item yielded for a pair at path [p], below the chain [c]. *)
Definition itemAt (c : list string) (x : list string * value) : item :=
  mkItem (snd x) (c ++ fst x).


(** ** An engine for the examples *)

(** The built-in objects that the reads of the examples reach from a
    plain object: [Object.prototype], [Object], [Function.prototype],
    [Function], and the methods, each with its [name] and its [length].
    Of the properties of these objects, and of what strings and numbers
    inherit, the engine has the ones named here, as every ECMAScript
    2015 engine has them; it takes any other to be absent. *)
Inductive builtinObject : Type :=
| ObjectPrototype
| ObjectConstructor
| FunctionPrototype
| FunctionConstructor
| Method (name : string) (length : nat).

Definition objectPrototypeMethods : list (string * nat) :=
  [("hasOwnProperty", 1); ("isPrototypeOf", 1); ("propertyIsEnumerable", 1);
   ("toLocaleString", 0); ("toString", 0); ("valueOf", 0);
   ("__defineGetter__", 2); ("__defineSetter__", 2);
   ("__lookupGetter__", 1); ("__lookupSetter__", 1)].

Definition functionPrototypeMethods : list (string * nat) :=
  [("apply", 2); ("bind", 1); ("call", 1); ("toString", 0)].

Definition methodOf (methods : list (string * nat)) (k : string)
  : option (builtin builtinObject) :=
  match find (fun m => String.eqb (fst m) k) methods with
  | Some (name, length) => Some (BHost (Method name length))
  | None => None
  end.

(** What [Object.prototype] holds for [k], read from an object whose
    prototype is [proto], which is what the accessor [__proto__]
    gives. *)
Definition fromObjectPrototype (proto : builtin builtinObject) (k : string)
  : option (builtin builtinObject) :=
  if String.eqb k "constructor" then Some (BHost ObjectConstructor)
  else if String.eqb k "__proto__" then Some proto
  else methodOf objectPrototypeMethods k.

(** The read of [k] from an object whose properties, own and inherited,
    are those of [Function.prototype] and [Object.prototype]: the
    accessors [caller] and [arguments] throw. *)
Definition fromFunctionPrototype (proto : builtin builtinObject) (k : string)
  : option (builtin builtinObject) :=
  if String.eqb k "caller" || String.eqb k "arguments" then None
  else if String.eqb k "constructor" then Some (BHost FunctionConstructor)
  else match methodOf functionPrototypeMethods k with
       | Some m => Some m
       | None =>
           match fromObjectPrototype proto k with
           | Some b => Some b
           | None => Some BUndefined
           end
       end.

(** The own properties [name], [length] and, for a constructor,
    [prototype] of a function, before what it inherits. *)
Definition ofFunction (name : string) (length : nat)
  (prototype : option builtinObject) (k : string)
  : option (builtin builtinObject) :=
  if String.eqb k "name" then Some (BStr name)
  else if String.eqb k "length" then Some (BNum length)
  else match prototype with
       | Some p =>
           if String.eqb k "prototype" then Some (BHost p)
           else fromFunctionPrototype (BHost FunctionPrototype) k
       | None => fromFunctionPrototype (BHost FunctionPrototype) k
       end.

Definition exampleGet (h : builtinObject) (k : string)
  : option (builtin builtinObject) :=
  match h with
  | ObjectPrototype =>
      match fromObjectPrototype BNull k with
      | Some b => Some b
      | None => Some BUndefined
      end
  | ObjectConstructor => ofFunction "Object" 1 (Some ObjectPrototype) k
  | FunctionConstructor => ofFunction "Function" 1 (Some FunctionPrototype) k
  | FunctionPrototype =>
      if String.eqb k "name" then Some (BStr "")
      else if String.eqb k "length" then Some (BNum 0)
      else fromFunctionPrototype (BHost ObjectPrototype) k
  | Method name length => ofFunction name length None k
  end.

Definition exampleHasOwn (h : builtinObject) (k : string) : option bool :=
  Some
    match h with
    | ObjectPrototype =>
        String.eqb k "constructor" || String.eqb k "__proto__"
        || negb (absent (methodOf objectPrototypeMethods k))
    | FunctionPrototype =>
        String.eqb k "name" || String.eqb k "length"
        || String.eqb k "caller" || String.eqb k "arguments"
        || String.eqb k "constructor"
        || negb (absent (methodOf functionPrototypeMethods k))
    | ObjectConstructor | FunctionConstructor =>
        String.eqb k "name" || String.eqb k "length" || String.eqb k "prototype"
    | Method _ _ => String.eqb k "name" || String.eqb k "length"
    end.

Definition exampleEngine : engine :=
  mkEngine builtinObject
    (fromObjectPrototype (BHost ObjectPrototype))
    (methodOf objectPrototypeMethods)
    (fun k =>
       if String.eqb k "toString" then Some (BHost (Method "toString" 1))
       else methodOf objectPrototypeMethods k)
    exampleGet exampleHasOwn.

(** ** [pullRemoteData] *)

(** The object the promise resolves to.  The third field is the result
    of [unusedTranslatedKeysCount], whose name the function has. *)
Record pulled : Type := mkPulled {
  newData : value;
  newUntranslatedKeysCount : nat;
  unusedTranslatedKeys : nat
}.

Section PullRemoteData.

(** The collaborators: [$http.get], which gives the body of the response
    or fails, and [yaml.safeLoad], which gives the value a document
    stands for or throws. *)
Variables httpError yamlError : Type.
Variable httpGet : string -> httpError + string.
Variable safeLoad : string -> yamlError + value.
Variable E : engine.

(** Why the promise is rejected: the message of line 43, the failure of
    the request, or an exception thrown in the callback of [then], by
    [yaml.safeLoad] or by the service. *)
Inductive rejection : Type :=
| Message (m : string)
| HttpFailed (e : httpError)
| LoadFailed (e : yamlError)
| Thrown (e : error).

Inductive promise : Type :=
| Resolved (r : pulled)
| Rejected (why : rejection).

(** [pullRemoteData(url, data = {})].  An absent [url] is [None]; the
    default of the parameter replaces [undefined] only. *)
Definition pullRemoteData (url : option string) (data : value) : promise :=
  let data := match data with VUndefined => VObj [] | _ => data end in
  match url with
  | None => Rejected (Message "You must provide a URL.")
  | Some u =>
      if String.eqb u "" then Rejected (Message "You must provide a URL.")
      else
        match httpGet u with
        | inl e => Rejected (HttpFailed e)
        | inr body =>
            match safeLoad body with
            | inl e => Rejected (LoadFailed e)
            | inr remoteData =>
                match buildNewData E data remoteData with
                | Throw e => Rejected (Thrown e)
                | Ok (newData, newUntranslatedKeysCount) =>
                    match unusedTranslatedKeysCount data newData with
                    | Throw e => Rejected (Thrown e)
                    | Ok unused =>
                        Resolved (mkPulled newData newUntranslatedKeysCount
                                           unused)
                    end
                end
            end
        end
  end.

End PullRemoteData.

Arguments Message {httpError yamlError} m.
Arguments HttpFailed {httpError yamlError} e.
Arguments LoadFailed {httpError yamlError} e.
Arguments Thrown {httpError yamlError} e.
Arguments Resolved {httpError yamlError} r.
Arguments Rejected {httpError yamlError} why.
Arguments pullRemoteData {httpError yamlError} httpGet safeLoad E url data.

(** ** The user model ([src/server/models/user.js]) *)

Module User.

(** The fields of a user document the password code reads and writes.
    The two virtual fields are [undefined] ([None]) until they are set;
    a password is a string, and its [length] the number of its
    characters. *)
Record user : Type := mkUser {
  _password : option string;
  _passwordConfirmation : option string;
  passwordDigest : string;
  isNew : bool
}.

(** The setter of the virtual [password] (lines 30-33), with
    [bcrypt.hashSync] for [hashSync]. *)
Definition setPassword (hashSync : string -> string) (u : user)
  (password : string) : user :=
  mkUser (Some password) (_passwordConfirmation u) (hashSync password)
         (isNew u).

(** The setter of the virtual [passwordConfirmation] (lines 39-41). *)
Definition setPasswordConfirmation (u : user) (passwordConfirmation : string)
  : user :=
  mkUser (_password u) (Some passwordConfirmation) (passwordDigest u)
         (isNew u).

(** [a !== b] on a virtual field. *)
Definition differs (a b : option string) : bool :=
  match a, b with
  | None, None => false
  | Some x, Some y => negb (String.eqb x y)
  | _, _ => true
  end.

(** The validator of [passwordDigest] (lines 43-54): the calls of
    [this.invalidate], in order, as pairs of a path and a message. *)
Definition validatePasswordDigest (u : user) : list (string * string) :=
  (match _password u with
   | Some p =>
       if negb (String.eqb p "") then
         if Nat.ltb (String.length p) 6
         then [("password", "Password must be at least 6 characters long.")]
         else []
       else if isNew u then [("password", "Password is required.")] else []
   | None =>
       if isNew u then [("password", "Password is required.")] else []
   end)
  ++ (if differs (_passwordConfirmation u) (_password u)
      then [("passwordConfirmation",
             "Password confirmation must match password.")]
      else []).

End User.


(** ** Trees of the further properties *)

(** What [yaml.safeLoad] can give for a locale file: strings, numbers,
    [null] for a key with no value, and mappings of distinct keys. *)
Fixpoint loadedNode (v : value) : bool :=
  match v with
  | VUndefined => false
  | VNull | VNum _ | VStr _ => true
  | VObj ps => distinct (keys ps) && forallb (fun '(_, c) => loadedNode c) ps
  end.

Definition loadedTree (v : value) : bool :=
  match v with
  | VObj _ => loadedNode v
  | _ => false
  end.

(** An object of distinct keys that has an own [_translated], or whose
    properties are all such objects: processed trees are, and so is every
    tree [buildNewData] returns for a raw tree. *)
Fixpoint pairTree (v : value) : bool :=
  match v with
  | VObj ps =>
      distinct (keys ps)
      && (negb (absent (lookup ps "_translated"))
          || forallb (fun '(_, c) => pairTree c) ps)
  | _ => false
  end.

(** The pair the merge makes of a leaf of the fresh tree: translated ""
    when the leaf is the empty string, and otherwise as the data is at
    the path of the leaf, or not at all. *)
Definition mergedPair (existing : value) (leaf : list string * string)
  : list string * value :=
  (fst leaf,
   leafPair (VStr (snd leaf))
            (if String.eqb (snd leaf) "" then VStr ""
             else match atPath existing (fst leaf) with
                  | Some e => field e "_translated"
                  | None => VNull
                  end)).

(** The translation of a pair as a string. *)
Definition translationOf (x : list string * value) : list string * string :=
  (fst x, match field (snd x) "_translated" with
          | VStr s => s
          | _ => ""
          end).

(** A pair whose translation is a string. *)
Definition translatedToString (x : list string * value) : bool :=
  match field (snd x) "_translated" with
  | VStr _ => true
  | _ => false
  end.

(** The data has no mapping where the fresh tree has a leaf. *)
Definition leavesFit (existing fresh : value) : bool :=
  forallb (fun leaf => noMappingAt existing (fst leaf)) (leaves fresh).

(** What the merge makes of a fresh tree of plain and ordinary keys,
    when the data has no key [hasOwnProperty]: a processed node, whose
    pairs are those of the leaves, in their order. *)
Definition mergesToPairs (E : engine) (v : value) : Prop :=
  forall d,
    processedNode d = true -> noShadow d = true ->
    processedNode (VObj (mergedProps E (Val d) v)) = true
    /\ pairs (VObj (mergedProps E (Val d) v)) = map (mergedPair d) (leaves v).

(** What [processedDataToRaw] makes of a processed node with no key
    [hasOwnProperty] below it, all of whose pairs have a string for
    translation: a raw tree of plain keys, whose leaves are the
    translations of the pairs, in their order. *)
Definition exportsToRaw (c : value) : Prop :=
  processedNode c = true -> noShadowBelow c = true -> isLeafPair c = false ->
  forallb translatedToString (pairs c) = true ->
  rawNode (VObj (rawProps c)) = true
  /\ plainKeys (VObj (rawProps c)) = true
  /\ leaves (VObj (rawProps c)) = map translationOf (pairs c).
(** * Properties *)

(** ** Values, keys and paths *)

(** Induction over values with the hypothesis for every property of an
    object. *)
Lemma value_ind' (P : value -> Prop)
  (Hundef : P VUndefined) (Hnull : P VNull)
  (Hnum : forall n, P (VNum n)) (Hstr : forall s, P (VStr s))
  (Hobj : forall ps, Forall (fun kv => P (snd kv)) ps -> P (VObj ps)) :
  forall v, P v.
Proof.
  fix IH 1. intros [| | n | s | ps].
  - exact Hundef.
  - exact Hnull.
  - apply Hnum.
  - apply Hstr.
  - apply Hobj. induction ps as [|[k c] ps IHps]; constructor.
    + apply IH.
    + exact IHps.
Qed.

Lemma existsb_eqb_In (k : string) (l : list string) :
  existsb (String.eqb k) l = true <-> In k l.
Proof.
  rewrite existsb_exists. split.
  - intros [x [Hin Heq]]. apply String.eqb_eq in Heq. now subst.
  - intros Hin. exists k. split; [exact Hin | apply String.eqb_refl].
Qed.

Lemma distinct_cons (k : string) (l : list string) :
  distinct (k :: l) = true <-> ~ In k l /\ distinct l = true.
Proof.
  simpl. rewrite andb_true_iff, negb_true_iff, <- existsb_eqb_In.
  destruct (existsb (String.eqb k) l); intuition congruence.
Qed.

Lemma lookup_None (ps : props) (k : string) :
  lookup ps k = None <-> ~ In k (keys ps).
Proof.
  induction ps as [|[k' v] ps IH]; simpl.
  - tauto.
  - destruct (String.eqb_spec k' k) as [->|Hne].
    + split; [discriminate | tauto].
    + rewrite IH. intuition congruence.
Qed.

Lemma lookup_In (ps : props) (k : string) (v : value) :
  lookup ps k = Some v -> In (k, v) ps.
Proof.
  induction ps as [|[k' v'] ps IH]; simpl; [discriminate|].
  destruct (String.eqb_spec k' k) as [->|Hne].
  - intros [= ->]. now left.
  - intros H. right. now apply IH.
Qed.

Lemma In_lookup (ps : props) (k : string) (v : value) :
  distinct (keys ps) = true -> In (k, v) ps -> lookup ps k = Some v.
Proof.
  induction ps as [|[k' v'] ps IH]; simpl keys; [intros _ []|].
  intros Hd. apply distinct_cons in Hd as [Hnin Hd]. simpl.
  intros [[= -> ->]|Hin].
  - now rewrite String.eqb_refl.
  - destruct (String.eqb_spec k' k) as [->|Hne].
    + exfalso. apply Hnin. change k with (fst (k, v)). now apply in_map.
    + now apply IH.
Qed.

Lemma setProp_new (ps : props) (k : string) (v : value) :
  ~ In k (keys ps) -> setProp ps k v = ps ++ [(k, v)].
Proof.
  induction ps as [|[k' v'] ps IH]; simpl; [reflexivity|].
  intros Hnin. destruct (String.eqb_spec k' k) as [->|Hne].
  - exfalso. apply Hnin. now left.
  - rewrite IH; [reflexivity | tauto].
Qed.

(** Assigning properties of distinct keys, none of them set before, adds
    them in the order of the assignments. *)
Lemma assign_distinct (l nd : props) :
  distinct (keys l) = true ->
  (forall k, In k (keys l) -> ~ In k (keys nd)) ->
  fold_left (fun acc kv => setProp acc (fst kv) (snd kv)) l nd = nd ++ l.
Proof.
  revert nd. induction l as [|[k v] l IH]; intros nd Hd Hfresh; simpl.
  - now rewrite app_nil_r.
  - apply distinct_cons in Hd as [Hnin Hd].
    rewrite setProp_new by (apply Hfresh; now left).
    rewrite IH; [now rewrite <- app_assoc | exact Hd |].
    intros k' Hk'. unfold keys. rewrite map_app, in_app_iff. simpl.
    intros [Hin|[<-|[]]].
    + apply (Hfresh k'); [now right | exact Hin].
    + now apply Hnin.
Qed.

(** ** [buildNewDataRecursive] computes [mergedProps] and [newCount] *)

Lemma getOwn_field (d : value) (k : string) :
  nullish d = false -> getOwn d k = Ok (field d k).
Proof. intros H. unfold getOwn. now rewrite H. Qed.

Lemma hasOwnProperty_own (d : value) (k : string) :
  nullish d = false -> shadowed d = false ->
  hasOwnProperty d k = Ok (negb (absent (own d k))).
Proof. intros H Hs. unfold hasOwnProperty. now rewrite H, Hs. Qed.

Lemma nullish_orEmpty (v : value) : nullish (orEmpty v) = false.
Proof. unfold orEmpty. now destruct v as [| | n | s | ps]; simpl; try destruct (negb _). Qed.

Lemma buildLeaf_spec (E : engine) (d : datum (host E)) (k : string)
  (v : value) (c : nat) :
  buildLeaf E d k v c =
  if leafReturns E d k v
  then Ok (leafPair v (carried E d k v), c + counted E d k v)
  else Throw TypeError.
Proof.
  unfold buildLeaf, leafReturns, carried, counted.
  destruct (isEmptyString v); simpl.
  - now rewrite Nat.add_0_r.
  - assert (Hhas : forall e, hasOwnPropertyOf E d k = Throw e -> e = TypeError).
    { intros e. unfold hasOwnPropertyOf, hasOwnProperty.
      destruct d as [w|h].
      - destruct (nullish w); [congruence|].
        destruct (shadowed w); congruence.
      - destruct (hostHasOwn E h k); congruence. }
    destruct (hasOwnPropertyOf E d k) as [[|]|e]; simpl.
    + unfold translatedAt.
      assert (Hget : forall e, get E d k = Throw e -> e = TypeError).
      { intros e. unfold get. destruct d as [w|h].
        - destruct (nullish w); [congruence|].
          destruct (own w k); [discriminate|].
          destruct (inherited E w k); discriminate.
        - destruct (hostGet E h k); congruence. }
      destruct (get E d k) as [x|e]; simpl.
      * unfold getTranslated, getOwn. destruct x as [w|h].
        -- destruct (nullish w); simpl; [reflexivity|].
           now rewrite Nat.add_0_r.
        -- now rewrite Nat.add_0_r.
      * now rewrite (Hget e eq_refl).
    + now rewrite Nat.add_1_r.
    + now rewrite (Hhas e eq_refl).
Qed.

Lemma get_throws (E : engine) (d : datum (host E)) (k : string) (e : error) :
  get E d k = Throw e -> e = TypeError.
Proof.
  unfold get. destruct d as [w|h].
  - destruct (nullish w); [congruence|].
    destruct (own w k); [discriminate|].
    destruct (inherited E w k); discriminate.
  - destruct (hostGet E h k); congruence.
Qed.

Lemma buildNewDataRecursive_cons E nd d k v rest c :
  buildNewDataRecursive E nd d (VObj ((k, v) :: rest)) c =
  if typeofObject v then
    dd <- get E d k ;;
    '(child, c') <- buildNewDataRecursive E [] (orEmptyOf dd) v c ;;
    buildNewDataRecursive E (setProp nd k (VObj child)) d (VObj rest) c'
  else
    '(leaf, c') <- buildLeaf E d k v c ;;
    buildNewDataRecursive E (setProp nd k leaf) d (VObj rest) c'.
Proof. reflexivity. Qed.

Lemma keys_mergedProps E (d : datum (host E)) (ps : props) :
  keys (mergedProps E d (VObj ps)) = keys ps.
Proof.
  unfold keys. simpl. rewrite map_map. apply map_ext. now intros [k v].
Qed.

Lemma buildNewDataRecursive_loop (E : engine) (ps : props) :
  Forall (fun kv => typeofObject (snd kv) = true -> built E (snd kv)) ps ->
  forall nd d c,
    buildNewDataRecursive E nd d (VObj ps) c =
    if returns E d (VObj ps)
    then Ok (fold_left assign (mergedProps E d (VObj ps)) nd,
             c + newCount E d (VObj ps))
    else Throw TypeError.
Proof.
  induction 1 as [|[k v] rest Hv _ IH]; intros nd d c.
  - simpl. now rewrite Nat.add_0_r.
  - rewrite buildNewDataRecursive_cons.
    change (returns E d (VObj ((k, v) :: rest)))
      with ((if typeofObject v
             then isOk (get E d k) && returns E (step E d k) v
             else leafReturns E d k v) && returns E d (VObj rest)).
    change (mergedProps E d (VObj ((k, v) :: rest)))
      with ((k, if typeofObject v
                then VObj (mergedProps E (step E d k) v)
                else leafPair v (carried E d k v))
              :: mergedProps E d (VObj rest)).
    change (newCount E d (VObj ((k, v) :: rest)))
      with ((if typeofObject v then newCount E (step E d k) v
             else counted E d k v) + newCount E d (VObj rest)).
    simpl in Hv. destruct (typeofObject v).
    + unfold step. destruct (get E d k) as [x|e] eqn:Hget; cbn [isOk andb].
      * rewrite (Hv eq_refl).
        destruct (returns E (orEmptyOf x) v); [|reflexivity].
        rewrite IH. rewrite Nat.add_assoc.
        destruct (returns E d (VObj rest)); reflexivity.
      * now rewrite (get_throws _ _ _ _ Hget).
    + rewrite buildLeaf_spec.
      destruct (leafReturns E d k v); [|reflexivity].
      rewrite IH. rewrite Nat.add_assoc.
      destruct (returns E d (VObj rest)); reflexivity.
Qed.

Lemma rawNode_children (ps : props) :
  rawNode (VObj ps) = true ->
  distinct (keys ps) = true /\ Forall (fun kv => rawNode (snd kv) = true) ps.
Proof.
  simpl. rewrite andb_true_iff, forallb_forall, Forall_forall.
  intros [Hd Hall]. split; [exact Hd|].
  intros [k v] Hin. exact (Hall _ Hin).
Qed.

(** On a raw tree the closure, started on an empty object, returns
    [mergedProps] and adds [newCount] to the counter, or throws a
    [TypeError] when [returns] is false. *)
Lemma buildNewDataRecursive_spec (E : engine) (v : value) :
  rawNode v = true -> typeofObject v = true -> built E v.
Proof.
  induction v as [| | n | s | ps IH] using value_ind'; try discriminate.
  intros Hraw _ d c.
  apply rawNode_children in Hraw as [Hdist Hkids].
  rewrite buildNewDataRecursive_loop.
  - destruct (returns E d (VObj ps)); [|reflexivity].
    rewrite assign_distinct; [reflexivity | | intros k _ []].
    now rewrite keys_mergedProps.
  - rewrite Forall_forall in *. intros kv Hin Hobj.
    apply (IH kv Hin); [apply (Hkids kv Hin) | exact Hobj].
Qed.

Lemma buildNewData_spec (E : engine) (existing fresh : value) :
  rawTree fresh = true ->
  buildNewData E existing fresh =
  if returns E (Val (orEmpty existing)) fresh
  then Ok (VObj (mergedProps E (Val (orEmpty existing)) fresh),
           newCount E (Val (orEmpty existing)) fresh)
  else Throw TypeError.
Proof.
  intros Hraw. unfold buildNewData.
  destruct fresh as [| | n | s | ps]; try discriminate.
  rewrite (buildNewDataRecursive_spec E (VObj ps) Hraw eq_refl).
  now destruct (returns _ _ _).
Qed.

(** ** Paths into the merged tree *)

Lemma atPath_app (v : value) (p q : list string) :
  atPath v (p ++ q) =
  match atPath v p with
  | Some w => atPath w q
  | None => None
  end.
Proof.
  revert v. induction p as [|k p IH]; intros v; simpl; [reflexivity|].
  destruct v as [| | n | s | ps]; try reflexivity.
  destruct (lookup ps k); [apply IH | reflexivity].
Qed.

Lemma atPath_last (v : value) (p : list string) (k : string) (w : value) :
  atPath v (p ++ [k]) = Some w ->
  exists ps, atPath v p = Some (VObj ps) /\ lookup ps k = Some w.
Proof.
  rewrite atPath_app. destruct (atPath v p) as [[| | n | s | ps]|]; try discriminate.
  simpl. destruct (lookup ps k) eqn:Hl; [|discriminate].
  intros [= ->]. now exists ps.
Qed.

Lemma lookup_mergedProps E (d : datum (host E)) (ps : props) (k : string) :
  lookup (mergedProps E d (VObj ps)) k =
  match lookup ps k with
  | Some v =>
      Some (if typeofObject v
            then VObj (mergedProps E (step E d k) v)
            else leafPair v (carried E d k v))
  | None => None
  end.
Proof.
  induction ps as [|[k' v] ps IH]; [reflexivity|].
  change (mergedProps E d (VObj ((k', v) :: ps)))
    with ((k', if typeofObject v
               then VObj (mergedProps E (step E d k') v)
               else leafPair v (carried E d k' v))
            :: mergedProps E d (VObj ps)).
  simpl lookup. destruct (String.eqb_spec k' k) as [->|Hne]; [reflexivity|].
  exact IH.
Qed.

Lemma dataAt_cons E (d : datum (host E)) (k : string) (p : list string) :
  dataAt E d (k :: p) = dataAt E (step E d k) p.
Proof. reflexivity. Qed.


(** Where the fresh tree has a mapping, the merged tree has the mapping
    built from it and from the data the closure holds there. *)
Lemma atPath_merged_branch E (p : list string) :
  forall (d : datum (host E)) ps ps',
    atPath (VObj ps) p = Some (VObj ps') ->
    atPath (VObj (mergedProps E d (VObj ps))) p =
    Some (VObj (mergedProps E (dataAt E d p) (VObj ps'))).
Proof.
  induction p as [|k p IH]; intros d ps ps'.
  - intros [= ->]. reflexivity.
  - cbn [atPath]. rewrite lookup_mergedProps.
    destruct (lookup ps k) as [c|]; [|discriminate].
    destruct c as [| | n | s | psc]; try (destruct p; discriminate).
    intros Hp. exact (IH (step E d k) psc ps' Hp).
Qed.

(** Where the fresh tree has a value that is not an object, the merged
    tree has the pair built by the loop body. *)
Lemma atPath_merged_leaf E (p : list string) (k : string)
  (d : datum (host E)) ps v :
  atPath (VObj ps) (p ++ [k]) = Some v ->
  typeofObject v = false ->
  atPath (VObj (mergedProps E d (VObj ps))) (p ++ [k]) =
  Some (leafPair v (carried E (dataAt E d p) k v)).
Proof.
  intros Hp Hv. apply atPath_last in Hp as [ps' [Hp Hk]].
  rewrite atPath_app, (atPath_merged_branch E p d ps ps' Hp).
  cbn [atPath]. rewrite lookup_mergedProps, Hk, Hv. reflexivity.
Qed.

(** ** Processed data along a path *)

Lemma processedNode_obj (d : value) :
  processedNode d = true -> exists ps, d = VObj ps.
Proof. destruct d; try discriminate. now eexists. Qed.

Lemma isLeafPair_inv (v : value) :
  isLeafPair v = true ->
  exists o t, v = leafPair (VStr o) t /\ isTranslation t = true.
Proof.
  destruct v as [| | n | s | ps]; try discriminate.
  destruct ps as [|[k1 [| | | o |]] [|[k2 t] [|]]]; try discriminate.
  simpl. rewrite !andb_true_iff. intros [[H1 H2] Ht].
  apply String.eqb_eq in H1, H2. subst. now exists o, t.
Qed.

Lemma isTranslation_inv (t : value) :
  isTranslation t = true ->
  t = VNull \/ t = VUndefined \/ exists s, t = VStr s.
Proof.
  destruct t as [| | n | s | ps]; try discriminate; intros _.
  - now right; left.
  - now left.
  - right; right. now exists s.
Qed.

Lemma isTranslation_primitive (t : value) :
  isTranslation t = true -> forall es, t <> VObj es.
Proof. now destruct t. Qed.

(** A property of a processed node: a field of a pair, or a child of a
    mapping under a key that is no field name. *)
Lemma processedNode_child (ps : props) (k : string) (e : value) :
  processedNode (VObj ps) = true ->
  lookup ps k = Some e ->
  (isLeafPair (VObj ps) = true /\ reserved k = true
   /\ forall es, e <> VObj es)
  \/ (isLeafPair (VObj ps) = false /\ reserved k = false
      /\ processedNode e = true).
Proof.
  intros Hp Hl. destruct (isLeafPair (VObj ps)) eqn:Hleaf.
  - left. split; [reflexivity|].
    apply isLeafPair_inv in Hleaf as [o [t [[= ->] Ht]]].
    cbn [lookup] in Hl.
    destruct (String.eqb_spec "_original" k) as [<-|_].
    { injection Hl as <-. split; [reflexivity | discriminate]. }
    destruct (String.eqb_spec "_translated" k) as [<-|_]; [|discriminate].
    injection Hl as <-. split; [reflexivity|].
    now apply isTranslation_primitive.
  - right. split; [reflexivity|].
    cbn [processedNode] in Hp. rewrite Hleaf in Hp. simpl in Hp.
    rewrite !andb_true_iff, !forallb_forall in Hp.
    destruct Hp as [[_ Hres] Hkids].
    apply lookup_In in Hl. split.
    + apply negb_true_iff. apply Hres.
      change k with (fst (k, e)). now apply in_map.
    + exact (Hkids _ Hl).
Qed.

(** A read of a key the value owns gives the own property. *)
Lemma get_own E (v : value) (k : string) (e : value) :
  own v k = Some e -> get E (Val v) k = Ok (Val e).
Proof.
  intros Ho. unfold get. rewrite Ho.
  now destruct v as [| | n | s | ps].
Qed.

Lemma step_own E (v : value) (k : string) (e : value) :
  own v k = Some e -> step E (Val v) k = Val (orEmpty e).
Proof. intros Ho. unfold step. now rewrite (get_own E v k e Ho). Qed.

(** A read of a key that an object does not own, and that is no name of
    an inherited property, gives [undefined]. *)
Lemma get_missing E (ps : props) (k : string) :
  lookup ps k = None -> objectProto E k = None ->
  get E (Val (VObj ps)) k = Ok (Val VUndefined).
Proof. intros Ho Hp. unfold get. cbn. now rewrite Ho, Hp. Qed.

Lemma step_missing E (ps : props) (k : string) :
  lookup ps k = None -> objectProto E k = None ->
  step E (Val (VObj ps)) k = Val (VObj []).
Proof. intros Ho Hp. unfold step. now rewrite get_missing. Qed.

Lemma dataAt_empty E (p : list string) :
  Forall (fun k => objectProto E k = None) p ->
  dataAt E (Val (VObj [])) p = Val (VObj []).
Proof.
  induction 1 as [|k p Hk _ IH]; [reflexivity|].
  rewrite dataAt_cons, step_missing; [exact IH | reflexivity | exact Hk].
Qed.

(** Down to a mapping or a pair of the processed data, the closure holds
    the node the path leads to. *)
Lemma dataAt_present E (p : list string) :
  forall d e,
    processedNode d = true ->
    atPath d p = Some (VObj e) ->
    dataAt E (Val d) p = Val (VObj e) /\ processedNode (VObj e) = true.
Proof.
  induction p as [|k p IH]; intros d e Hd Hp.
  - injection Hp as ->. now split.
  - destruct (processedNode_obj d Hd) as [dps ->]. cbn [atPath] in Hp.
    destruct (lookup dps k) as [c|] eqn:Hl; [|discriminate].
    destruct (processedNode_child dps k c Hd Hl) as [[_ [_ Hc]]|[_ [_ Hc]]].
    + exfalso. destruct c as [| | n | s | cs]; try (destruct p; discriminate).
      now apply (Hc cs).
    + rewrite dataAt_cons, (step_own E (VObj dps) k c Hl).
      destruct (processedNode_obj c Hc) as [cs ->]. apply IH; assumption.
Qed.

(** Along keys that are no field names and no names of inherited
    properties, the closure holds the node the path leads to, or an
    empty object where the path leads nowhere. *)
Lemma dataAt_plain E (p : list string) :
  forall d,
    processedNode d = true ->
    Forall (fun k => reserved k = false) p ->
    Forall (fun k => objectProto E k = None) p ->
    dataAt E (Val d) p
    = Val (match atPath d p with Some e => e | None => VObj [] end)
    /\ processedNode (match atPath d p with Some e => e | None => VObj [] end)
       = true.
Proof.
  induction p as [|k p IH]; intros d Hd Hkeys Hord.
  - now split.
  - inversion Hkeys as [|k' p' Hk Hrest]; subst.
    inversion Hord as [|k' p' Hko Horest]; subst.
    destruct (processedNode_obj d Hd) as [dps ->].
    rewrite dataAt_cons. cbn [atPath].
    destruct (lookup dps k) as [c|] eqn:Hl.
    + rewrite (step_own E (VObj dps) k c Hl).
      destruct (processedNode_child dps k c Hd Hl) as [[_ [Hr _]]|[_ [_ Hc]]];
        [congruence|].
      destruct (processedNode_obj c Hc) as [cs ->]. apply IH; assumption.
    + rewrite step_missing by assumption. rewrite dataAt_empty by assumption.
      now split.
Qed.

Lemma plainKeys_path (p : list string) :
  forall v w,
    plainKeys v = true -> atPath v p = Some w ->
    Forall (fun k => reserved k = false) p /\ plainKeys w = true.
Proof.
  induction p as [|k p IH]; intros v w Hv Hp.
  - injection Hp as ->. now split.
  - destruct v as [| | n | s | ps]; try discriminate. cbn [atPath] in Hp.
    destruct (lookup ps k) as [c|] eqn:Hl; [|discriminate].
    apply lookup_In in Hl. simpl in Hv.
    rewrite andb_true_iff, !forallb_forall in Hv. destruct Hv as [Hres Hkids].
    destruct (IH c w (Hkids _ Hl) Hp) as [Hkeys Hw]. split; [|exact Hw].
    constructor; [|exact Hkeys]. apply negb_true_iff, Hres.
    change k with (fst (k, c)). now apply in_map.
Qed.

Lemma absent_None {A : Type} (o : option A) : absent o = true -> o = None.
Proof. now destruct o. Qed.

Lemma ordinaryKeys_path E (p : list string) :
  forall v w,
    ordinaryKeys E v = true -> atPath v p = Some w ->
    Forall (fun k => objectProto E k = None) p /\ ordinaryKeys E w = true.
Proof.
  induction p as [|k p IH]; intros v w Hv Hp.
  - injection Hp as ->. now split.
  - destruct v as [| | n | s | ps]; try discriminate. cbn [atPath] in Hp.
    destruct (lookup ps k) as [c|] eqn:Hl; [|discriminate].
    apply lookup_In in Hl. simpl in Hv.
    rewrite andb_true_iff, !forallb_forall in Hv. destruct Hv as [Hres Hkids].
    destruct (IH c w (Hkids _ Hl) Hp) as [Hkeys Hw]. split; [|exact Hw].
    constructor; [|exact Hkeys]. apply absent_None, Hres.
    change k with (fst (k, c)). now apply in_map.
Qed.

Lemma noShadow_shadowed (ps : props) :
  noShadow (VObj ps) = true -> shadowed (VObj ps) = false.
Proof.
  simpl. rewrite andb_true_iff, forallb_forall. intros [Hk _].
  destruct (lookup ps "hasOwnProperty") as [e|] eqn:Hl; [|reflexivity].
  apply lookup_In in Hl.
  assert (Hin : In "hasOwnProperty" (keys ps)).
  { change "hasOwnProperty" with (fst ("hasOwnProperty", e)).
    now apply in_map. }
  specialize (Hk _ Hin). discriminate.
Qed.

Lemma noShadow_child (ps : props) (k : string) (c : value) :
  noShadow (VObj ps) = true -> lookup ps k = Some c -> noShadow c = true.
Proof.
  simpl. rewrite andb_true_iff, !forallb_forall. intros [_ Hkids] Hl.
  exact (Hkids _ (lookup_In _ _ _ Hl)).
Qed.

Lemma noShadow_path (p : list string) :
  forall v w, noShadow v = true -> atPath v p = Some w -> noShadow w = true.
Proof.
  induction p as [|k p IH]; intros v w Hv Hp.
  - now injection Hp as ->.
  - destruct v as [| | n | s | ps]; try discriminate. cbn [atPath] in Hp.
    destruct (lookup ps k) as [c|] eqn:Hl; [|discriminate].
    exact (IH c w (noShadow_child ps k c Hv Hl) Hp).
Qed.

Lemma rawNode_path (p : list string) :
  forall v w, rawNode v = true -> atPath v p = Some w -> rawNode w = true.
Proof.
  induction p as [|k p IH]; intros v w Hv Hp.
  - now injection Hp as ->.
  - destruct v as [| | n | s | ps]; try discriminate. cbn [atPath] in Hp.
    destruct (lookup ps k) as [c|] eqn:Hl; [|discriminate].
    apply lookup_In in Hl. apply rawNode_children in Hv as [_ Hkids].
    rewrite Forall_forall in Hkids. exact (IH c w (Hkids _ Hl) Hp).
Qed.

(** The call [d.hasOwnProperty(k)] on an object of the data that does
    not hide the method. *)
Lemma hasOwnPropertyOf_obj E (ps : props) (k : string) :
  shadowed (VObj ps) = false ->
  hasOwnPropertyOf E (Val (VObj ps)) k = Ok (negb (absent (lookup ps k))).
Proof. intros Hs. cbn [hasOwnPropertyOf]. now rewrite hasOwnProperty_own. Qed.

Lemma translatedAt_own E (v : value) (k : string) (e : value) :
  own v k = Some e -> translatedAt E (Val v) k = getOwn e "_translated".
Proof. intros Ho. unfold translatedAt. now rewrite (get_own E v k e Ho). Qed.

(** What the loop body does with a key the data, an object, owns. *)
Lemma carried_own E (ps : props) (k : string) (e v : value) :
  shadowed (VObj ps) = false -> lookup ps k = Some e ->
  isEmptyString v = false ->
  carried E (Val (VObj ps)) k v = field e "_translated"
  /\ counted E (Val (VObj ps)) k v = 0
  /\ leafReturns E (Val (VObj ps)) k v = negb (nullish e).
Proof.
  intros Hs Hl Hv. unfold carried, counted, leafReturns.
  rewrite Hv, hasOwnPropertyOf_obj, Hl by exact Hs. cbn [absent negb orb].
  rewrite (translatedAt_own E (VObj ps) k e Hl). unfold getOwn.
  destruct (nullish e) eqn:Hn; [|now repeat split].
  destruct e; try discriminate; now repeat split.
Qed.

(** What the loop body does with a key the data, an object, lacks. *)
Lemma carried_missing E (ps : props) (k : string) (v : value) :
  shadowed (VObj ps) = false -> lookup ps k = None ->
  isEmptyString v = false ->
  carried E (Val (VObj ps)) k v = VNull
  /\ counted E (Val (VObj ps)) k v = 1
  /\ leafReturns E (Val (VObj ps)) k v = true.
Proof.
  intros Hs Hl Hv. unfold carried, counted, leafReturns.
  rewrite Hv, hasOwnPropertyOf_obj, Hl by exact Hs. now repeat split.
Qed.

(** The translation carried to a key the processed data has. *)
Lemma carried_present E (p : list string) (k : string) (d e v : value) :
  processedNode d = true -> noShadow d = true ->
  atPath d (p ++ [k]) = Some e ->
  isEmptyString v = false ->
  carried E (dataAt E (Val d) p) k v = field e "_translated"
  /\ counted E (dataAt E (Val d) p) k v = 0.
Proof.
  intros Hd Hns Hp Hv. apply atPath_last in Hp as [ps [Hp Hk]].
  pose proof (noShadow_shadowed ps (noShadow_path p d _ Hns Hp)) as Hs.
  destruct (dataAt_present E p d ps Hd Hp) as [-> _].
  destruct (carried_own E ps k e v Hs Hk Hv) as [Hc [Hn _]]. now split.
Qed.

(** No translation is carried to a key the processed data lacks. *)
Lemma carried_absent E (p : list string) (k : string) (d v : value) :
  processedNode d = true -> noShadow d = true ->
  Forall (fun k => reserved k = false) p ->
  Forall (fun k => objectProto E k = None) p ->
  atPath d (p ++ [k]) = None ->
  isEmptyString v = false ->
  carried E (dataAt E (Val d) p) k v = VNull
  /\ counted E (dataAt E (Val d) p) k v = 1.
Proof.
  intros Hd Hns Hkeys Hord Hp Hv. rewrite atPath_app in Hp.
  destruct (dataAt_plain E p d Hd Hkeys Hord) as [Heq Hproc].
  rewrite Heq. destruct (atPath d p) as [e|] eqn:He.
  - destruct (processedNode_obj e Hproc) as [es ->].
    cbn [atPath] in Hp.
    assert (Hl : lookup es k = None) by now destruct (lookup es k).
    pose proof (noShadow_shadowed es (noShadow_path p d _ Hns He)) as Hs.
    destruct (carried_missing E es k v Hs Hl Hv) as [Hc [Hn _]]. now split.
  - destruct (carried_missing E [] k v eq_refl eq_refl Hv) as [Hc [Hn _]].
    now split.
Qed.

Lemma processedNode_step E (d : value) (k : string) :
  processedNode d = true -> reserved k = false -> objectProto E k = None ->
  step E (Val d) k
  = Val (match atPath d [k] with Some e => e | None => VObj [] end)
  /\ processedNode (match atPath d [k] with Some e => e | None => VObj [] end)
     = true.
Proof.
  intros Hd Hk Ho. apply (dataAt_plain E [k] d Hd); now constructor.
Qed.

Lemma noShadow_step (d : value) (k : string) :
  noShadow d = true ->
  noShadow (match atPath d [k] with Some e => e | None => VObj [] end) = true.
Proof.
  intros Hd. destruct (atPath d [k]) as [e|] eqn:He; [|reflexivity].
  exact (noShadow_path [k] d e Hd He).
Qed.

Lemma atPath_step (d : value) (k : string) (p : list string) :
  p <> [] ->
  atPath (match atPath d [k] with Some e => e | None => VObj [] end) p
  = atPath d (k :: p).
Proof.
  intros Hp. destruct d as [| | n | s | dps]; cbn [atPath];
    try (destruct p; [contradiction | reflexivity]).
  destruct (lookup dps k) as [c|]; [reflexivity|].
  destruct p; [contradiction | reflexivity].
Qed.

(** With no field name and no name of an inherited property among the
    keys of the fresh tree, the merge of processed data that does not
    hide [hasOwnProperty] returns. *)
Lemma returns_plain E (fresh : value) :
  rawNode fresh = true -> plainKeys fresh = true ->
  ordinaryKeys E fresh = true ->
  forall d, processedNode d = true -> noShadow d = true ->
    returns E (Val d) fresh = true.
Proof.
  induction fresh as [| | n | s | ps IH] using value_ind'; try reflexivity.
  intros Hraw Hplain Hord d Hd Hns.
  apply rawNode_children in Hraw as [_ Hkids].
  simpl in Hplain. rewrite andb_true_iff, !forallb_forall in Hplain.
  destruct Hplain as [Hres Hpl].
  simpl in Hord. rewrite andb_true_iff, !forallb_forall in Hord.
  destruct Hord as [Hok Hol].
  rewrite Forall_forall in IH, Hkids.
  cbn [returns]. apply forallb_forall. intros [k v] Hin.
  assert (Hk : reserved k = false).
  { apply negb_true_iff, Hres. change k with (fst (k, v)). now apply in_map. }
  assert (Hko : objectProto E k = None).
  { apply absent_None, Hok. change k with (fst (k, v)). now apply in_map. }
  destruct (processedNode_obj d Hd) as [dps Heq]. subst d.
  pose proof (noShadow_shadowed dps Hns) as Hs.
  destruct (typeofObject v) eqn:Hobj.
  - destruct (processedNode_step E (VObj dps) k Hd Hk Hko) as [Hstep Hproc].
    rewrite Hstep. apply andb_true_iff. split.
    + unfold get. cbn [nullish own].
      destruct (lookup dps k); [reflexivity|]. cbn [inherited].
      now rewrite Hko.
    + apply (IH _ Hin (Hkids _ Hin) (Hpl _ Hin) (Hol _ Hin)); [exact Hproc|].
      now apply noShadow_step.
  - destruct (isEmptyString v) eqn:Hv.
    { unfold leafReturns. now rewrite Hv. }
    destruct (lookup dps k) as [c|] eqn:Hl.
    + destruct (carried_own E dps k c v Hs Hl Hv) as [_ [_ ->]].
      destruct (processedNode_child dps k c Hd Hl) as [[_ [Hr _]]|[_ [_ Hc]]];
        [congruence|].
      now destruct (processedNode_obj c Hc) as [cs ->].
    + now destruct (carried_missing E dps k v Hs Hl Hv) as [_ [_ ->]].
Qed.

(** ** The leaves of a raw tree *)

Lemma leaves_cons (k : string) (v : value) (ps : props) :
  leaves (VObj ((k, v) :: ps)) =
  map (fun '(p, s) => (k :: p, s)) (leaves v) ++ leaves (VObj ps).
Proof. reflexivity. Qed.

Lemma leaves_obj_path (ps : props) (p : list string) (s : string) :
  In (p, s) (leaves (VObj ps)) -> p <> [].
Proof.
  cbn [leaves]. rewrite in_flat_map. intros [[k c] [_ Hin]].
  apply in_map_iff in Hin as [[p' s'] [[= <- _] _]]. discriminate.
Qed.

(** [leaves] lists the paths that lead to a string. *)
Lemma leaves_atPath (v : value) :
  rawNode v = true ->
  forall p s, In (p, s) (leaves v) <-> atPath v p = Some (VStr s).
Proof.
  induction v as [| | n | s0 | ps IH] using value_ind'; try discriminate.
  - intros _ p s. simpl. split.
    + intros [[= <- <-]|[]]. reflexivity.
    + destruct p; [|discriminate]. intros [= ->]. now left.
  - intros Hraw p s. apply rawNode_children in Hraw as [Hdist Hkids].
    rewrite Forall_forall in IH, Hkids. cbn [leaves]. rewrite in_flat_map.
    split.
    + intros [[k c] [Hin Hm]].
      apply in_map_iff in Hm as [[p' s'] [[= <- <-] Hl]].
      cbn [atPath]. rewrite (In_lookup ps k c Hdist Hin).
      now apply (IH _ Hin (Hkids _ Hin)).
    + destruct p as [|k p]; [discriminate|]. cbn [atPath].
      destruct (lookup ps k) as [c|] eqn:Hl; [|discriminate].
      apply lookup_In in Hl. intros Hp. exists (k, c). split; [exact Hl|].
      apply in_map_iff. exists (p, s). split; [reflexivity|].
      now apply (IH _ Hl (Hkids _ Hl)).
Qed.

(** ** The count of new keys *)

Lemma length_filter_map {A B : Type} (f : B -> bool) (h : A -> B) (l : list A) :
  length (filter f (map h l)) = length (filter (fun x => f (h x)) l).
Proof.
  induction l as [|x l IH]; simpl; [reflexivity|].
  destruct (f (h x)); simpl; now rewrite IH.
Qed.

Lemma newCount_leaves E (fresh : value) :
  rawNode fresh = true -> plainKeys fresh = true ->
  ordinaryKeys E fresh = true ->
  forall d, processedNode d = true -> noShadow d = true ->
    newCount E (Val d) fresh = length (filter (isNew d) (leaves fresh)).
Proof.
  induction fresh as [| | n | s | ps IH] using value_ind'; try discriminate.
  - intros _ _ _ d _ _. simpl. unfold isNew. simpl.
    now destruct (String.eqb s "").
  - intros Hraw Hplain Hord d Hd Hns.
    apply rawNode_children in Hraw as [_ Hkids].
    simpl in Hplain. apply andb_true_iff in Hplain as [Hres Hpl].
    simpl in Hord. apply andb_true_iff in Hord as [Hok Hol].
    induction ps as [|[k v] ps IHps]; [reflexivity|].
    inversion IH as [|x l IHv IHrest]; subst.
    inversion Hkids as [|x l Hv Hrest]; subst.
    simpl in Hres, Hpl, Hok, Hol, IHv, Hv.
    apply andb_true_iff in Hres as [Hk Hres], Hpl as [Hplv Hpl].
    apply andb_true_iff in Hok as [Hko Hok], Hol as [Holv Hol].
    apply negb_true_iff in Hk. apply absent_None in Hko.
    rewrite leaves_cons, filter_app, length_app.
    change (newCount E (Val d) (VObj ((k, v) :: ps)))
      with ((if typeofObject v then newCount E (step E (Val d) k) v
             else counted E (Val d) k v) + newCount E (Val d) (VObj ps)).
    rewrite (IHps IHrest Hrest Hres Hpl Hok Hol). f_equal.
    destruct (processedNode_obj d Hd) as [dps Heq]. subst d.
    pose proof (noShadow_shadowed dps Hns) as Hs.
    destruct v as [| | n | s | vs]; try discriminate.
    + cbn [typeofObject leaves map filter]. unfold isNew. cbn [fst snd atPath].
      destruct (String.eqb s "") eqn:Hs0.
      * unfold counted. cbn [isEmptyString]. now rewrite Hs0.
      * destruct (lookup dps k) as [c|] eqn:Hl.
        -- now destruct (carried_own E dps k c (VStr s) Hs Hl Hs0) as [_ [-> _]].
        -- now destruct (carried_missing E dps k (VStr s) Hs Hl Hs0)
             as [_ [-> _]].
    + cbn [typeofObject].
      destruct (processedNode_step E (VObj dps) k Hd Hk Hko) as [-> Hproc].
      rewrite (IHv Hv Hplv Holv _ Hproc (noShadow_step _ k Hns)).
      rewrite length_filter_map. f_equal. apply filter_ext_in.
      intros [p s] Hin. unfold isNew. cbn [fst snd]. f_equal. f_equal.
      apply atPath_step. exact (leaves_obj_path vs p s Hin).
Qed.

(** ** The data given to [buildNewData] *)

Lemma priorData_orEmpty (existing : value) :
  priorData existing = true ->
  processedNode (orEmpty existing) = true
  /\ forall p, p <> [] -> atPath (orEmpty existing) p = atPath existing p.
Proof.
  unfold priorData, processedTree. rewrite orb_true_iff, andb_true_iff.
  intros [[Hp _]|Hn].
  - destruct (processedNode_obj existing Hp) as [ps ->]. now split.
  - destruct existing; try discriminate; (split; [reflexivity|]);
      intros [|k p] Hp; try contradiction; reflexivity.
Qed.

Lemma noShadow_orEmpty (existing : value) :
  noShadow existing = true -> noShadow (orEmpty existing) = true.
Proof.
  unfold orEmpty. destruct (truthy existing); [trivial | reflexivity].
Qed.

Lemma rawTree_obj (fresh : value) :
  rawTree fresh = true -> rawNode fresh = true /\ exists ps, fresh = VObj ps.
Proof. destruct fresh; try discriminate. intros H. split; [exact H | now eexists]. Qed.

Lemma buildNewData_returns E (existing fresh : value) :
  priorData existing = true -> noShadow existing = true ->
  rawTree fresh = true -> plainKeys fresh = true ->
  ordinaryKeys E fresh = true ->
  buildNewData E existing fresh =
  Ok (VObj (mergedProps E (Val (orEmpty existing)) fresh),
      newCount E (Val (orEmpty existing)) fresh).
Proof.
  intros He Hns Hf Hplain Hord. rewrite buildNewData_spec by exact Hf.
  destruct (priorData_orEmpty existing He) as [Hp _].
  destruct (rawTree_obj fresh Hf) as [Hraw _].
  now rewrite (returns_plain E fresh Hraw Hplain Hord _ Hp
                 (noShadow_orEmpty _ Hns)).
Qed.

Lemma buildNewData_Ok E (existing fresh merged : value) (n : nat) :
  rawTree fresh = true ->
  buildNewData E existing fresh = Ok (merged, n) ->
  merged = VObj (mergedProps E (Val (orEmpty existing)) fresh)
  /\ n = newCount E (Val (orEmpty existing)) fresh
  /\ returns E (Val (orEmpty existing)) fresh = true.
Proof.
  intros Hf. rewrite buildNewData_spec by exact Hf.
  destruct (returns _ _ _); [|discriminate]. now intros [= <- <-].
Qed.

Lemma path_last (p : list string) :
  p <> [] -> exists q k, p = q ++ [k].
Proof.
  intros Hp. destruct (exists_last Hp) as [q [k ->]]. now exists q, k.
Qed.


(** ** What the closure holds, whatever the keys of the fresh tree *)

Lemma indexKey_not_field (i : nat) :
  String.eqb (indexKey i) "_translated" = false.
Proof. unfold indexKey. now destruct (Nat.to_uint i). Qed.

Lemma strOwn_translated (s : string) : strOwn s "_translated" = None.
Proof.
  unfold strOwn. change (String.eqb "_translated" "length") with false.
  cbv iota. generalize (seq 0 (String.length s)). intros l.
  induction l as [|i l IH]; simpl find; [reflexivity|].
  now rewrite indexKey_not_field.
Qed.

Lemma field_primitive (e : value) :
  (forall es, e <> VObj es) -> field e "_translated" = VUndefined.
Proof.
  intros He. destruct e as [| | n | s | es]; try reflexivity.
  - unfold field. cbn [own]. now rewrite strOwn_translated.
  - now destruct (He es).
Qed.

Lemma strOwn_primitive (s k : string) (e : value) :
  strOwn s k = Some e -> (exists n, e = VNum n) \/ (exists c, e = VStr c).
Proof.
  unfold strOwn. destruct (String.eqb k "length").
  - intros [= <-]. left. now eexists.
  - destruct (find _ _); [|discriminate]. intros [= <-]. right. now eexists.
Qed.

Lemma processedNode_mapping_field (es : props) :
  processedNode (VObj es) = true -> isLeafPair (VObj es) = false ->
  field (VObj es) "_translated" = VUndefined.
Proof.
  intros Hp Hleaf. cbn [processedNode] in Hp. rewrite Hleaf in Hp. simpl in Hp.
  rewrite !andb_true_iff, forallb_forall in Hp. destruct Hp as [[_ Hres] _].
  unfold field. cbn [own].
  destruct (lookup es "_translated") as [e|] eqn:Hl; [|reflexivity].
  apply lookup_In in Hl. apply (in_map fst) in Hl. apply Hres in Hl.
  discriminate.
Qed.

(** The [_translated] of a pair, and of anything else the processed data
    holds. *)
Lemma processedNode_field (es : props) :
  processedNode (VObj es) = true ->
  isTranslation (field (VObj es) "_translated") = true.
Proof.
  intros Hp. destruct (isLeafPair (VObj es)) eqn:Hleaf.
  - now apply isLeafPair_inv in Hleaf as [o [t [[= ->] Ht]]].
  - now rewrite processedNode_mapping_field.
Qed.

(** What line 86 stores when [data[key]] is no object of the data. *)
Lemma translated_of_primitive (e : value) :
  (forall es, e <> VObj es) ->
  match getOwn e "_translated" with Ok t => t | Throw _ => VUndefined end
  = VUndefined.
Proof.
  intros He. unfold getOwn. destruct (nullish e); [reflexivity|].
  now apply field_primitive.
Qed.

Lemma translated_of_builtin {host : Type} (b : builtin host) :
  match getTranslated (ofBuiltin b) with Ok t => t | Throw _ => VUndefined end
  = VUndefined.
Proof.
  destruct b as [| | n | s | h]; try reflexivity.
  cbn [ofBuiltin getTranslated]. now apply translated_of_primitive.
Qed.






(** ** Carrying translations forward *)






(** Through the name of an inherited property the closure reaches the
    built-in objects.  With no data, under [constructor] it holds the
    function [Object], which owns [name]: the leaf is not counted and
    its translation is the [_translated] of a string, [undefined]. *)
Lemma merge_reads_inherited_property :
  buildNewData exampleEngine (VObj [])
    (VObj [("constructor", VObj [("name", VStr "x")])])
  = Ok (VObj [("constructor",
               VObj [("name", leafPair (VStr "x") VUndefined)])], 0).
Proof. reflexivity. Qed.

(** From [Object] the closure goes through [constructor] to [Function]
    and through [prototype] to [Function.prototype], where the read of
    [caller] throws. *)
Lemma merge_throws_on_inherited_accessor :
  buildNewData exampleEngine (VObj [])
    (VObj [("constructor",
            VObj [("constructor",
                   VObj [("prototype", VObj [("caller", VStr "x")])])])])
  = Throw TypeError.
Proof. reflexivity. Qed.

(** An own property named [hasOwnProperty] hides the method, and the
    call of line 85 throws, whatever the engine. *)
Lemma merge_throws_on_hidden_method (E : engine) :
  buildNewData E
    (VObj [("hasOwnProperty", leafPair (VStr "a") (VStr "b"))])
    (VObj [("hasOwnProperty", VStr "a")])
  = Throw TypeError.
Proof. reflexivity. Qed.

(** ** The count of new keys and the documentation *)

(** C3, as stated, fails.  The data holds at [a] a pair with no
    translation, the claim counts the fresh leaf [a], and
    [newUntranslatedKeysCount] is 0.  With no data and a fresh leaf
    under [constructor] and [name], whose path is absent from the data,
    the closure holds the function [Object], which owns [name], and the
    leaf is not counted.  With data that holds a pair under the key
    [hasOwnProperty] the merge throws, and returns no count. *)
Lemma new_count_skips_untranslated_pairs :
  let existing := VObj [("a", leafPair (VStr "Hi") VNull)] in
  let fresh := VObj [("a", VStr "Hi")] in
  let inherited := VObj [("constructor", VObj [("name", VStr "x")])] in
  let hiding := VObj [("hasOwnProperty", leafPair (VStr "a") (VStr "b"))] in
  processedTree existing = true /\ rawTree fresh = true
  /\ length (filter (claimedNew existing) (leaves fresh)) = 1
  /\ (forall E,
        buildNewData E existing fresh
        = Ok (VObj [("a", leafPair (VStr "Hi") VNull)], 0))
  /\ rawTree inherited = true /\ plainKeys inherited = true
  /\ length (filter (claimedNew (VObj [])) (leaves inherited)) = 1
  /\ buildNewData exampleEngine (VObj []) inherited
     = Ok (VObj [("constructor",
                  VObj [("name", leafPair (VStr "x") VUndefined)])], 0)
  /\ processedTree hiding = true
  /\ (forall E, buildNewData E hiding fresh = Throw TypeError).
Proof. repeat split. Qed.

(** C3, amended: when the data has no key [hasOwnProperty] and no key of
    the fresh tree is a field name of a pair or the name of an inherited
    property, [newUntranslatedKeysCount] is the number of leaves of the
    fresh tree whose value is not the empty string and whose path is
    absent from the data, as the documentation of [buildNewData] has
    it. *)
Theorem new_count (E : engine) (existing fresh : value) :
  priorData existing = true ->
  noShadow existing = true ->
  rawTree fresh = true ->
  plainKeys fresh = true ->
  ordinaryKeys E fresh = true ->
  exists merged,
    buildNewData E existing fresh
    = Ok (merged, length (filter (isNew existing) (leaves fresh))).
Proof.
  intros He Hns Hf Hplain Hord.
  rewrite (buildNewData_returns E _ _ He Hns Hf Hplain Hord).
  destruct (rawTree_obj fresh Hf) as [Hraw [ps ->]].
  destruct (priorData_orEmpty existing He) as [Hd Hpath].
  eexists. f_equal. f_equal.
  rewrite (newCount_leaves E _ Hraw Hplain Hord _ Hd (noShadow_orEmpty _ Hns)).
  f_equal.
  apply filter_ext_in. intros [p s] Hin. unfold isNew. cbn [fst snd].
  rewrite Hpath; [reflexivity|]. exact (leaves_obj_path ps p s Hin).
Qed.

Lemma new_count_witness :
  exists merged,
    buildNewData exampleEngine
                 (VObj [("a", leafPair (VStr "Hi") (VStr "Salut"))])
                 (VObj [("a", VStr "Hi"); ("b", VStr ""); ("c", VStr "New")])
    = Ok (merged, 1).
Proof.
  exact (new_count exampleEngine
                   (VObj [("a", leafPair (VStr "Hi") (VStr "Salut"))])
                   (VObj [("a", VStr "Hi"); ("b", VStr ""); ("c", VStr "New")])
                   eq_refl eq_refl eq_refl eq_refl eq_refl).
Defined.

(** ** The original of a merged pair *)

Lemma harmless_orEmpty_primitive {host : Type} (e : value) :
  (forall es, e <> VObj es) -> harmless (@Val host (orEmpty e)) = true.
Proof.
  intros He. destruct e as [| | n | s | es]; try reflexivity.
  - unfold orEmpty. simpl. now destruct (negb (Nat.eqb n 0)).
  - unfold orEmpty. simpl. now destruct (negb (String.eqb s "")).
  - now destruct (He es).
Qed.

Lemma harmless_ofBuiltin {host : Type} (b : builtin host) :
  harmless (orEmptyOf (ofBuiltin b)) = true.
Proof.
  destruct b as [| | n | s | h]; try reflexivity;
    cbn [ofBuiltin orEmptyOf]; now apply harmless_orEmpty_primitive.
Qed.

Lemma harmless_step E (d : datum (host E)) (k : string) :
  harmless d = true -> harmless (step E d k) = true.
Proof.
  intros Hd. unfold step, get. destruct d as [[| | n | s | dps]|h];
    try discriminate; cbn [nullish own inherited].
  - destruct (numberProto E k); [apply harmless_ofBuiltin | reflexivity].
  - destruct (strOwn s k) as [e|] eqn:He.
    + apply harmless_orEmpty_primitive.
      now destruct (strOwn_primitive s k e He) as [[m ->]|[c ->]].
    + destruct (stringProto E k); [apply harmless_ofBuiltin | reflexivity].
  - destruct (lookup dps k) as [e|] eqn:Hl.
    + destruct (processedNode_child dps k e Hd Hl) as [[_ [_ He]]|[_ [_ He]]].
      * now apply harmless_orEmpty_primitive.
      * now destruct (processedNode_obj e He) as [es ->].
    + destruct (objectProto E k); [apply harmless_ofBuiltin | reflexivity].
  - destruct (hostGet E h k); [apply harmless_ofBuiltin | reflexivity].
Qed.

(** The translation carried into a merged pair is never an object. *)
Lemma carried_primitive E (d : datum (host E)) (k : string) (v : value) :
  harmless d = true -> forall es, carried E d k v <> VObj es.
Proof.
  intros Hd es. unfold carried. destruct (isEmptyString v); [discriminate|].
  destruct d as [[| | n | s | dps]|h]; try discriminate Hd;
    cbn [hasOwnPropertyOf]; unfold hasOwnProperty; cbn [nullish own].
  - discriminate.
  - cbn [shadowed]. destruct (strOwn s k) as [e|] eqn:He; [|discriminate].
    cbn [absent negb]. rewrite (translatedAt_own E (VStr s) k e He).
    rewrite translated_of_primitive; [discriminate|].
    now destruct (strOwn_primitive s k e He) as [[m ->]|[c ->]].
  - destruct (shadowed (VObj dps)); [discriminate|].
    destruct (lookup dps k) as [e|] eqn:Hl; [|discriminate].
    cbn [absent negb]. rewrite (translatedAt_own E (VObj dps) k e Hl).
    destruct (processedNode_child dps k e Hd Hl) as [[_ [_ He]]|[_ [_ He]]].
    + rewrite translated_of_primitive by exact He. discriminate.
    + destruct (processedNode_obj e He) as [es' ->]. unfold getOwn.
      cbn [nullish]. apply isTranslation_primitive.
      now apply processedNode_field.
  - destruct (hostHasOwn E h k) as [[|]|]; try discriminate.
    unfold translatedAt, get. destruct (hostGet E h k); [|discriminate].
    rewrite translated_of_builtin. discriminate.
Qed.

(** A pair of the merged tree stands where the fresh tree has a string,
    and its original is that string. *)
Lemma merged_pair_from_leaf E (p : list string) (o : string) (t : value) :
  forall (d : datum (host E)) ps,
    harmless d = true ->
    rawNode (VObj ps) = true ->
    atPath (VObj (mergedProps E d (VObj ps))) p = Some (leafPair (VStr o) t) ->
    atPath (VObj ps) p = Some (VStr o).
Proof.
  induction p as [|k p IH]; intros d ps Hd Hraw.
  - intros [= Heq]. exfalso. destruct ps as [|[k v] ps]; [discriminate|].
    cbn [mergedProps map] in Heq. injection Heq as _ Hv _.
    destruct (typeofObject v); discriminate.
  - cbn [atPath]. rewrite lookup_mergedProps.
    destruct (lookup ps k) as [v|] eqn:Hl; [|discriminate].
    apply rawNode_children in Hraw as [_ Hkids]. rewrite Forall_forall in Hkids.
    pose proof (Hkids _ (lookup_In _ _ _ Hl)) as Hv. cbn [snd] in Hv.
    destruct v as [| | n | s | vs]; try discriminate.
    + cbn [typeofObject].
      pose proof (carried_primitive E d k (VStr s) Hd) as Hc.
      destruct p as [|k' p].
      * intros [= <- _]. reflexivity.
      * unfold leafPair at 1. cbn [atPath lookup].
        destruct (String.eqb "_original" k'); [destruct p; discriminate|].
        destruct (String.eqb "_translated" k'); [|discriminate].
        destruct (carried E d k (VStr s)) as [| | n | c | es];
          try (destruct p; discriminate).
        now destruct (Hc es).
    + cbn [typeofObject]. apply IH; [now apply harmless_step | exact Hv].
Qed.

Lemma priorData_harmless {host : Type} (existing : value) :
  priorData existing = true -> harmless (@Val host (orEmpty existing)) = true.
Proof.
  intros He. destruct (priorData_orEmpty existing He) as [Hp _].
  destruct (processedNode_obj _ Hp) as [ps Heq]. rewrite Heq in *. exact Hp.
Qed.

(** C10: in every merge of processed data with a fresh raw tree, where
    the fresh tree has a string the merged tree has a pair whose original
    is that string, and every pair of the merged tree stands where the
    fresh tree has a string, which is its original: no original comes
    from the data. *)
Theorem original_from_fresh (E : engine) (existing fresh merged : value)
  (n : nat) :
  priorData existing = true ->
  rawTree fresh = true ->
  buildNewData E existing fresh = Ok (merged, n) ->
  (forall p s,
      atPath fresh p = Some (VStr s) ->
      exists t, atPath merged p = Some (leafPair (VStr s) t))
  /\ (forall p o t,
        atPath merged p = Some (leafPair (VStr o) t) ->
        atPath fresh p = Some (VStr o)).
Proof.
  intros He Hf Hok.
  destruct (buildNewData_Ok _ _ _ _ _ Hf Hok) as [-> _].
  destruct (rawTree_obj fresh Hf) as [Hraw [ps ->]]. split.
  - intros p s Hp.
    assert (Hne : p <> []) by (intros ->; discriminate).
    destruct (path_last p Hne) as [q [k ->]].
    rewrite (atPath_merged_leaf E q k _ ps (VStr s) Hp eq_refl). now eexists.
  - intros p o t. apply merged_pair_from_leaf; [|exact Hraw].
    now apply priorData_harmless.
Qed.

Lemma original_from_fresh_witness :
  exists t,
    atPath (VObj [("a", leafPair (VStr "Hello") (VStr "Salut"))]) ["a"]
    = Some (leafPair (VStr "Hello") t).
Proof.
  exact (proj1 (original_from_fresh exampleEngine
    (VObj [("a", leafPair (VStr "Hi") (VStr "Salut"))])
    (VObj [("a", VStr "Hello")])
    (VObj [("a", leafPair (VStr "Hello") (VStr "Salut"))]) 0
    eq_refl eq_refl eq_refl) ["a"] "Hello" eq_refl).
Defined.

(** ** Empty strings *)

Lemma counted_le E (d : datum (host E)) (k : string) (v : value) :
  counted E d k v <= 1.
Proof.
  unfold counted. destruct (isEmptyString v); [auto|].
  destruct (hasOwnPropertyOf E d k) as [[|]|]; auto.
Qed.

Lemma newCount_bound E (fresh : value) :
  rawNode fresh = true ->
  forall d, newCount E d fresh <= length (filter notEmpty (leaves fresh)).
Proof.
  induction fresh as [| | n | s | ps IH] using value_ind'; try discriminate.
  - intros _ d. apply Nat.le_0_l.
  - intros Hraw d. apply rawNode_children in Hraw as [_ Hkids].
    induction ps as [|[k v] ps IHps]; [apply Nat.le_refl|].
    inversion IH as [|x l IHv IHrest]; subst.
    inversion Hkids as [|x l Hv Hrest]; subst.
    cbn [snd] in IHv, Hv.
    rewrite leaves_cons, filter_app, length_app.
    change (newCount E d (VObj ((k, v) :: ps)))
      with ((if typeofObject v then newCount E (step E d k) v
             else counted E d k v) + newCount E d (VObj ps)).
    apply Nat.add_le_mono; [|exact (IHps IHrest Hrest)].
    rewrite length_filter_map.
    rewrite (filter_ext _ notEmpty) by now intros [p s].
    destruct v as [| | n | s | vs]; try discriminate.
    + cbn [typeofObject leaves filter]. unfold notEmpty at 1. cbn [snd].
      destruct (String.eqb s "") eqn:Hs; cbn [negb length].
      * unfold counted. cbn [isEmptyString]. now rewrite Hs.
      * apply counted_le.
    + exact (IHv Hv _).
Qed.

(** C5: in every merge, whatever the data holds, where the fresh tree has
    the empty string the merged pair is translated "", and
    [newUntranslatedKeysCount] counts no such leaf: the loop body leaves
    the counter as it is for the empty string, and the count is at most
    the number of leaves that are not empty. *)
Theorem empty_string_translated (E : engine) (existing fresh merged : value)
  (n : nat) :
  rawTree fresh = true ->
  buildNewData E existing fresh = Ok (merged, n) ->
  (forall p,
      atPath fresh p = Some (VStr "") ->
      atPath merged p = Some (leafPair (VStr "") (VStr "")))
  /\ (forall data k count,
        buildLeaf E data k (VStr "") count
        = Ok (leafPair (VStr "") (VStr ""), count))
  /\ n <= length (filter notEmpty (leaves fresh)).
Proof.
  intros Hf Hok.
  destruct (buildNewData_Ok _ _ _ _ _ Hf Hok) as [-> [-> _]].
  destruct (rawTree_obj fresh Hf) as [Hraw [ps ->]]. repeat split.
  - intros p Hp.
    assert (Hne : p <> []) by (intros ->; discriminate).
    destruct (path_last p Hne) as [q [k ->]].
    now rewrite (atPath_merged_leaf E q k _ ps (VStr "") Hp eq_refl).
  - now apply newCount_bound.
Qed.

Lemma empty_string_translated_witness :
  atPath (VObj [("a", leafPair (VStr "") (VStr ""));
                ("c", leafPair (VStr "New") VNull)]) ["a"]
  = Some (leafPair (VStr "") (VStr "")).
Proof.
  exact (proj1 (empty_string_translated exampleEngine
    (VObj [("a", leafPair (VStr "Hi") (VStr "Salut"))])
    (VObj [("a", VStr ""); ("c", VStr "New")])
    (VObj [("a", leafPair (VStr "") (VStr ""));
           ("c", leafPair (VStr "New") VNull)]) 1
    eq_refl eq_refl) ["a"] eq_refl).
Defined.

(** ** Merging again *)

Lemma list_sum_zero {A : Type} (f : A -> nat) (l : list A) :
  (forall x, In x l -> f x = 0) -> list_sum (map f l) = 0.
Proof.
  induction l as [|x l IH]; intros H; simpl; [reflexivity|].
  rewrite (H x) by now left. apply IH. intros y Hy. apply H. now right.
Qed.

Lemma noShadow_keys (ps : props) :
  noShadow (VObj ps) = true -> ~ In "hasOwnProperty" (keys ps).
Proof.
  simpl. rewrite andb_true_iff, forallb_forall. intros [Hk _] Hin.
  specialize (Hk _ Hin). discriminate.
Qed.

Lemma noShadow_kids (ps : props) :
  noShadow (VObj ps) = true -> Forall (fun kv => noShadow (snd kv) = true) ps.
Proof.
  simpl. rewrite andb_true_iff, !forallb_forall, Forall_forall.
  intros [_ Hkids] [k c] Hin. exact (Hkids _ Hin).
Qed.

Lemma noShadowBelow_kids (ps : props) :
  noShadowBelow (VObj ps) = true ->
  Forall (fun kv => noShadow (snd kv) = true) ps.
Proof.
  cbn [noShadowBelow]. rewrite forallb_forall, Forall_forall.
  intros Hkids [k c] Hin. exact (Hkids _ Hin).
Qed.

Lemma noShadow_below (v : value) :
  noShadow v = true -> noShadowBelow v = true.
Proof.
  destruct v as [| | n | s | ps]; try reflexivity.
  cbn [noShadow noShadowBelow]. rewrite andb_true_iff. now intros [_ H].
Qed.

(** Merging the merged properties with the same raw tree, no key of which
    is [hasOwnProperty], returns them, and counts nothing. *)
Lemma remerge E (fresh : value) :
  rawNode fresh = true -> noShadow fresh = true ->
  forall d,
    returns E (Val (VObj (mergedProps E d fresh))) fresh = true
    /\ mergedProps E (Val (VObj (mergedProps E d fresh))) fresh
       = mergedProps E d fresh
    /\ newCount E (Val (VObj (mergedProps E d fresh))) fresh = 0.
Proof.
  induction fresh as [| | n | s | ps IH] using value_ind'; try discriminate.
  - now intros _ _ d.
  - intros Hraw Hns d. apply rawNode_children in Hraw as [Hdist Hkids].
    pose proof (noShadow_keys ps Hns) as Hnk.
    pose proof (noShadow_kids ps Hns) as Hnkids.
    rewrite Forall_forall in IH, Hkids, Hnkids.
    remember (mergedProps E d (VObj ps)) as m eqn:Hm.
    assert (Hsh : shadowed (VObj m) = false).
    { cbn [shadowed]. subst m. rewrite lookup_mergedProps.
      apply lookup_None in Hnk. now rewrite Hnk. }
    assert (Hown : forall k v, In (k, v) ps ->
              lookup m k =
              Some (if typeofObject v
                    then VObj (mergedProps E (step E d k) v)
                    else leafPair v (carried E d k v))).
    { intros k v Hin. subst m.
      now rewrite lookup_mergedProps, (In_lookup ps k v Hdist Hin). }
    assert (Hentry : forall k v, In (k, v) ps ->
              (if typeofObject v
               then isOk (get E (Val (VObj m)) k)
                    && returns E (step E (Val (VObj m)) k) v
               else leafReturns E (Val (VObj m)) k v) = true
              /\ (if typeofObject v
                  then VObj (mergedProps E (step E (Val (VObj m)) k) v)
                  else leafPair v (carried E (Val (VObj m)) k v))
                 = (if typeofObject v
                    then VObj (mergedProps E (step E d k) v)
                    else leafPair v (carried E d k v))
              /\ (if typeofObject v
                  then newCount E (step E (Val (VObj m)) k) v
                  else counted E (Val (VObj m)) k v) = 0).
    { intros k v Hin. pose proof (Hkids _ Hin) as Hv. cbn [snd] in Hv.
      pose proof (Hnkids _ Hin) as Hnv. cbn [snd] in Hnv.
      pose proof (Hown k v Hin) as Ho.
      destruct v as [| | n | s | vs]; try discriminate; cbn [typeofObject] in *.
      - destruct (isEmptyString (VStr s)) eqn:Hs.
        + unfold leafReturns, carried, counted. rewrite Hs. now repeat split.
        + destruct (carried_own E m k _ (VStr s) Hsh Ho Hs) as [-> [-> ->]].
          now repeat split.
      - rewrite (step_own E (VObj m) k _ Ho), (get_own E (VObj m) k _ Ho).
        change (orEmpty (VObj ?x)) with (VObj x).
        destruct (IH _ Hin Hv Hnv (step E d k)) as [H1 [H2 H3]].
        cbn [snd] in H1, H2, H3. cbn [isOk andb]. now rewrite H1, H2, H3. }
    repeat split.
    + cbn [returns]. apply forallb_forall. intros [k v] Hin.
      apply (Hentry k v Hin).
    + rewrite Hm at 2. cbn [mergedProps]. apply map_ext_in.
      intros [k v] Hin. f_equal. apply (Hentry k v Hin).
    + cbn [newCount]. apply list_sum_zero. intros [k v] Hin.
      apply (Hentry k v Hin).
Qed.

(** C7, as stated, fails: the fresh tree has the key [hasOwnProperty],
    the first merge returns a tree in which the pair built for that key
    hides the method, and the second merge throws on line 85. *)
Lemma merge_again_throws_on_hidden_method :
  let fresh := VObj [("hasOwnProperty", VStr "a")] in
  let merged := VObj [("hasOwnProperty", leafPair (VStr "a") VNull)] in
  priorData (VObj []) = true /\ rawTree fresh = true
  /\ forall E,
       buildNewData E (VObj []) fresh = Ok (merged, 1)
       /\ buildNewData E merged fresh = Throw TypeError.
Proof. repeat split. Qed.

(** C7, amended: merging is idempotent for the same fresh tree, when no
    key of it is named [hasOwnProperty]: when a merge with such a fresh
    raw tree returns a merged tree, merging that tree with the same
    fresh tree returns that tree again, so every translation stays, and
    nothing is counted as new. *)
Theorem merge_idempotent (E : engine) (existing fresh merged : value)
  (n : nat) :
  rawTree fresh = true ->
  noShadow fresh = true ->
  buildNewData E existing fresh = Ok (merged, n) ->
  buildNewData E merged fresh = Ok (merged, 0).
Proof.
  intros Hf Hns Hok.
  destruct (buildNewData_Ok _ _ _ _ _ Hf Hok) as [-> _].
  destruct (rawTree_obj fresh Hf) as [Hraw _].
  rewrite buildNewData_spec by exact Hf.
  change (orEmpty (VObj ?x)) with (VObj x).
  destruct (remerge E fresh Hraw Hns (Val (orEmpty existing))) as [-> [-> ->]].
  reflexivity.
Qed.

Lemma merge_idempotent_witness :
  buildNewData exampleEngine
               (VObj [("a", leafPair (VStr "Hi") (VStr "Salut"));
                      ("b", VObj [("c", leafPair (VStr "New") VNull)])])
               (VObj [("a", VStr "Hi"); ("b", VObj [("c", VStr "New")])])
  = Ok (VObj [("a", leafPair (VStr "Hi") (VStr "Salut"));
              ("b", VObj [("c", leafPair (VStr "New") VNull)])], 0).
Proof.
  exact (merge_idempotent exampleEngine
    (VObj [("a", leafPair (VStr "Old") (VStr "Salut")); ("z", VObj [])])
    (VObj [("a", VStr "Hi"); ("b", VObj [("c", VStr "New")])])
    (VObj [("a", leafPair (VStr "Hi") (VStr "Salut"));
           ("b", VObj [("c", leafPair (VStr "New") VNull)])]) 1
    eq_refl eq_refl eq_refl).
Defined.

(** ** Key sets *)

Lemma mergedProps_nothing E (dps ps : props) :
  shadowed (VObj dps) = false ->
  (forall k, In k (keys ps) -> lookup dps k = None) ->
  mergedProps E (Val (VObj dps)) (VObj ps)
  = mergedProps E (Val (VObj [])) (VObj ps).
Proof.
  intros Hsh Hown. cbn [mergedProps]. apply map_ext_in. intros [k v] Hin.
  assert (Hk : lookup dps k = None)
    by (apply Hown; now apply (in_map fst) in Hin).
  f_equal. destruct (typeofObject v).
  - unfold step, get. cbn [nullish own inherited lookup]. now rewrite Hk.
  - unfold carried. cbn [hasOwnPropertyOf].
    rewrite !hasOwnProperty_own by (reflexivity || exact Hsh).
    cbn [own lookup]. now rewrite Hk.
Qed.

Lemma dataAt_noMapping E (existing : value) (p : list string) (k : string) :
  priorData existing = true ->
  noShadow existing = true ->
  Forall (fun k => reserved k = false) p ->
  Forall (fun k => objectProto E k = None) p ->
  reserved k = false ->
  noMappingAt existing p = true ->
  exists dps,
    dataAt E (Val (orEmpty existing)) p = Val (VObj dps)
    /\ shadowed (VObj dps) = false /\ lookup dps k = None.
Proof.
  intros He Hns Hkeys Hord Hk Hno.
  destruct (priorData_orEmpty existing He) as [Hd Hpath].
  destruct (dataAt_plain E p _ Hd Hkeys Hord) as [Heq Hproc].
  rewrite Heq. unfold noMappingAt in Hno.
  destruct p as [|k0 p].
  - cbn [atPath] in *.
    unfold priorData, processedTree in He.
    destruct existing as [| | n | s | es]; try discriminate;
      try (now exists []).
    cbn [isMapping nullish] in *. exfalso.
    destruct (isLeafPair (VObj es)); [|discriminate].
    cbn [negb] in He. rewrite andb_false_r in He. discriminate.
  - rewrite Hpath in * by discriminate.
    destruct (atPath existing (k0 :: p)) as [e|] eqn:Hat; [|now exists []].
    destruct (processedNode_obj e Hproc) as [es Hes]. subst e. exists es.
    split; [reflexivity|]. split.
    + apply noShadow_shadowed. exact (noShadow_path _ _ _ Hns Hat).
    + destruct (lookup es k) as [c|] eqn:Hl; [|reflexivity].
      destruct (processedNode_child es k c Hproc Hl) as [[_ [Hr _]]|[Hleaf _]];
        [congruence|].
      cbn [isMapping] in Hno. rewrite Hleaf in Hno. discriminate.
Qed.

(** C2, as stated, fails.  The data holds a pair at [a], the fresh tree a
    mapping with the key [_translated], and the merge throws, while with
    no data it returns.  The data holds a pair under the key
    [hasOwnProperty], and the call of line 85 throws.  The fresh tree
    has mappings under [constructor] and [prototype], the closure reads
    these inherited properties on line 77, reaches [Function.prototype],
    and the read of [caller] throws. *)
Lemma merge_throws_on_field_name :
  let existing := VObj [("a", leafPair (VStr "x") VNull)] in
  let fresh := VObj [("a", VObj [("_translated", VStr "y")])] in
  let hiding := VObj [("hasOwnProperty", leafPair (VStr "a") (VStr "b"))] in
  let plain := VObj [("b", VStr "x")] in
  let inherited :=
    VObj [("constructor",
           VObj [("constructor",
                  VObj [("prototype", VObj [("caller", VStr "x")])])])] in
  processedTree existing = true /\ rawTree fresh = true
  /\ (forall E, buildNewData E existing fresh = Throw TypeError)
  /\ buildNewData exampleEngine (VObj []) fresh
     = Ok (VObj [("a", VObj [("_translated", leafPair (VStr "y") VNull)])], 1)
  /\ processedTree hiding = true /\ rawTree plain = true
  /\ plainKeys plain = true
  /\ (forall E, buildNewData E hiding plain = Throw TypeError)
  /\ rawTree inherited = true /\ plainKeys inherited = true
  /\ buildNewData exampleEngine (VObj []) inherited = Throw TypeError.
Proof. repeat split. Qed.

(** C2, amended: when the data has no key [hasOwnProperty] and no key of
    the fresh tree is a field name of a pair ([_original],
    [_translated]) or the name of an inherited property, the merge
    returns, and wherever the fresh tree has a mapping the merged tree
    has a mapping of the same keys, in the same order: a key of the data
    that the fresh tree lacks is dropped, and where the data has no
    mapping (the path is absent, or leads to a pair) the merged mapping
    is the one built from an empty mapping. *)
Theorem key_sets (E : engine) (existing fresh : value) :
  priorData existing = true ->
  noShadow existing = true ->
  rawTree fresh = true ->
  plainKeys fresh = true ->
  ordinaryKeys E fresh = true ->
  exists merged n,
    buildNewData E existing fresh = Ok (merged, n)
    /\ forall p ps,
         atPath fresh p = Some (VObj ps) ->
         exists ms,
           atPath merged p = Some (VObj ms)
           /\ keys ms = keys ps
           /\ (forall k, ~ In k (keys ps) -> atPath merged (p ++ [k]) = None)
           /\ (noMappingAt existing p = true ->
               exists n0,
                 buildNewData E (VObj []) (VObj ps) = Ok (VObj ms, n0)).
Proof.
  intros He Hns Hf Hplain Hord.
  rewrite (buildNewData_returns E _ _ He Hns Hf Hplain Hord).
  do 2 eexists. split; [reflexivity|]. intros p ps Hp.
  destruct (rawTree_obj fresh Hf) as [Hraw [fs ->]].
  pose proof (atPath_merged_branch E p (Val (orEmpty existing)) fs ps Hp) as Hm.
  exists (mergedProps E (dataAt E (Val (orEmpty existing)) p) (VObj ps)).
  split; [exact Hm|]. split; [apply keys_mergedProps|]. split.
  - intros k Hk. rewrite atPath_app, Hm. cbn [atPath].
    rewrite lookup_mergedProps.
    apply lookup_None in Hk. now rewrite Hk.
  - intros Hno. destruct (plainKeys_path _ _ _ Hplain Hp) as [Hkeys Hps].
    destruct (ordinaryKeys_path E _ _ _ Hord Hp) as [Hokeys Hops].
    pose proof (rawNode_path _ _ _ Hraw Hp) as Hrps.
    rewrite (buildNewData_returns E (VObj []) (VObj ps)
               eq_refl eq_refl Hrps Hps Hops).
    eexists. f_equal. f_equal. f_equal.
    change (orEmpty (VObj [])) with (VObj []).
    destruct ps as [|[k0 v0] ps0]; [reflexivity|].
    destruct (dataAt_noMapping E existing p k0 He Hns Hkeys Hokeys) as
      [dps [Hdat [Hsh _]]]; [|exact Hno|].
    { cbn [plainKeys] in Hps. apply andb_true_iff in Hps as [Hres _].
      rewrite forallb_forall in Hres. apply negb_true_iff, Hres. now left. }
    rewrite Hdat. symmetry. apply mergedProps_nothing; [exact Hsh|].
    intros k Hk.
    destruct (dataAt_noMapping E existing p k He Hns Hkeys Hokeys) as
      [dps' [Hdat' [_ Hl]]]; [|exact Hno|].
    { cbn [plainKeys] in Hps. apply andb_true_iff in Hps as [Hres _].
      rewrite forallb_forall in Hres. now apply negb_true_iff, Hres. }
    rewrite Hdat in Hdat'. now injection Hdat' as ->.
Qed.

Lemma key_sets_witness :
  exists merged n,
    buildNewData exampleEngine
                 (VObj [("a", leafPair (VStr "Hi") (VStr "Salut"));
                        ("old", leafPair (VStr "Gone") (VStr "Parti"))])
                 (VObj [("a", VObj [("b", VStr "New")])])
    = Ok (merged, n)
    /\ forall p ps,
         atPath (VObj [("a", VObj [("b", VStr "New")])]) p = Some (VObj ps) ->
         exists ms,
           atPath merged p = Some (VObj ms)
           /\ keys ms = keys ps
           /\ (forall k, ~ In k (keys ps) -> atPath merged (p ++ [k]) = None)
           /\ (noMappingAt
                 (VObj [("a", leafPair (VStr "Hi") (VStr "Salut"));
                        ("old", leafPair (VStr "Gone") (VStr "Parti"))]) p
               = true ->
               exists n0,
                 buildNewData exampleEngine (VObj []) (VObj ps)
                 = Ok (VObj ms, n0)).
Proof.
  exact (key_sets exampleEngine
    (VObj [("a", leafPair (VStr "Hi") (VStr "Salut"));
           ("old", leafPair (VStr "Gone") (VStr "Parti"))])
    (VObj [("a", VObj [("b", VStr "New")])])
    eq_refl eq_refl eq_refl eq_refl eq_refl).
Defined.

(** ** Processed trees *)

Lemma processedNode_kids (ps : props) :
  processedNode (VObj ps) = true -> isLeafPair (VObj ps) = false ->
  distinct (keys ps) = true
  /\ Forall (fun kv => reserved (fst kv) = false
                       /\ processedNode (snd kv) = true) ps.
Proof.
  intros Hp Hleaf. cbn [processedNode] in Hp. rewrite Hleaf in Hp. simpl in Hp.
  rewrite !andb_true_iff, !forallb_forall in Hp.
  destruct Hp as [[Hd Hres] Hkids]. split; [exact Hd|].
  apply Forall_forall. intros [k c] Hin. split.
  - apply negb_true_iff, Hres. now apply (in_map fst) in Hin.
  - exact (Hkids _ Hin).
Qed.

Lemma pairs_mapping (ps : props) :
  isLeafPair (VObj ps) = false -> pairs (VObj ps) = pairsOfProps ps.
Proof. intros H. cbn [pairs]. now rewrite H. Qed.

Lemma pairs_pair (c : value) : isLeafPair c = true -> pairs c = [([], c)].
Proof.
  intros H. destruct c as [| | n | s | ps]; try discriminate.
  cbn [pairs]. now rewrite H.
Qed.

Lemma processedNode_translated (c : value) :
  processedNode c = true ->
  negb (absent (own c "_translated")) = isLeafPair c
  /\ getOwn c "_translated" = Ok (field c "_translated").
Proof.
  intros Hc. destruct (processedNode_obj c Hc) as [ps ->].
  split; [|reflexivity]. cbn [own].
  destruct (isLeafPair (VObj ps)) eqn:Hleaf.
  - now apply isLeafPair_inv in Hleaf as [o [t [[= ->] _]]].
  - destruct (processedNode_kids ps Hc Hleaf) as [_ Hkids].
    rewrite Forall_forall in Hkids.
    destruct (lookup ps "_translated") as [e|] eqn:Hl; [|reflexivity].
    apply lookup_In in Hl. now destruct (Hkids _ Hl) as [Hr _].
Qed.

(** On a processed node that does not hide the method, the test of the
    service tells a pair from a mapping. *)
Lemma hasOwnProperty_processed (c : value) :
  processedNode c = true -> shadowed c = false ->
  hasOwnProperty c "_translated" = Ok (isLeafPair c)
  /\ getOwn c "_translated" = Ok (field c "_translated").
Proof.
  intros Hc Hs. destruct (processedNode_translated c Hc) as [Hown Hget].
  split; [|exact Hget].
  destruct (processedNode_obj c Hc) as [ps ->].
  now rewrite hasOwnProperty_own, Hown.
Qed.

Lemma noShadow_processed (c : value) :
  processedNode c = true -> noShadow c = true -> shadowed c = false.
Proof.
  intros Hc Hn. destruct (processedNode_obj c Hc) as [ps ->].
  now apply noShadow_shadowed.
Qed.

(** ** [statistics] counts the pairs *)

Lemma statisticsRecursive_cons k c rest st :
  statisticsRecursive (VObj ((k, c) :: rest)) st =
  has <- hasOwnProperty c "_translated" ;;
  if has then
    t <- getOwn c "_translated" ;;
    statisticsRecursive (VObj rest) (countLeaf t st)
  else
    st' <- statisticsRecursive c st ;;
    statisticsRecursive (VObj rest) st'.
Proof. reflexivity. Qed.

Lemma tally_app l1 l2 st : tally (l1 ++ l2) st = tally l2 (tally l1 st).
Proof.
  unfold tally. cbn [overallCount translatedCount].
  rewrite !filter_app, !length_app, !Nat.add_assoc. reflexivity.
Qed.

Lemma tally_map (k : string) l st :
  tally (map (fun '(p, x) => (k :: p, x)) l) st = tally l st.
Proof.
  unfold tally. rewrite !length_filter_map.
  rewrite (filter_ext _ countedPair) by now intros [p x].
  rewrite (filter_ext (fun x => translatedPair _) translatedPair)
    by now intros [p x].
  reflexivity.
Qed.

Lemma tally_pair (k : string) (c : value) (st : counts) :
  tally [(k :: [], c)] st = countLeaf (field c "_translated") st.
Proof.
  unfold tally, countLeaf, translatedPair, countedPair. cbn [filter snd].
  destruct st as [o t]. cbn [overallCount translatedCount].
  destruct (isEmptyString _); cbn [negb andb length].
  - now rewrite !Nat.add_0_r.
  - destruct (isNull _); cbn [negb length];
      now rewrite ?Nat.add_0_r, ?Nat.add_1_r.
Qed.

Lemma statisticsRecursive_props (ps : props) :
  Forall (fun kv => reserved (fst kv) = false
                    /\ processedNode (snd kv) = true) ps ->
  Forall (fun kv => noShadow (snd kv) = true) ps ->
  Forall (fun kv => processedNode (snd kv) = true ->
                    noShadowBelow (snd kv) = true ->
                    isLeafPair (snd kv) = false ->
                    forall st, statisticsRecursive (snd kv) st
                               = Ok (tally (pairs (snd kv)) st)) ps ->
  forall st, statisticsRecursive (VObj ps) st = Ok (tally (pairsOfProps ps) st).
Proof.
  induction 1 as [|[k c] rest [_ Hc] _ IH]; intros Hns HIH st.
  - destruct st. unfold tally. simpl. now rewrite !Nat.add_0_r.
  - inversion HIH as [|x l IHc IHrest]; subst.
    inversion Hns as [|x l Hnc Hnrest]; subst. cbn [snd] in *.
    rewrite statisticsRecursive_cons.
    destruct (hasOwnProperty_processed c Hc (noShadow_processed c Hc Hnc))
      as [-> ->].
    change (pairsOfProps ((k, c) :: rest))
      with (map (fun '(p, l) => (k :: p, l)) (pairs c) ++ pairsOfProps rest).
    rewrite tally_app. destruct (isLeafPair c) eqn:Hleaf.
    + rewrite (pairs_pair c Hleaf). cbn [map]. rewrite tally_pair.
      now apply IH.
    + rewrite (IHc Hc (noShadow_below c Hnc) eq_refl), tally_map.
      now apply IH.
Qed.

Lemma statisticsRecursive_spec (t : value) :
  processedNode t = true -> noShadowBelow t = true -> isLeafPair t = false ->
  forall st, statisticsRecursive t st = Ok (tally (pairs t) st).
Proof.
  induction t as [| | n | s | ps IH] using value_ind'; try discriminate.
  intros Hp Hns Hleaf st. rewrite (pairs_mapping ps Hleaf).
  destruct (processedNode_kids ps Hp Hleaf) as [_ Hkids].
  apply statisticsRecursive_props;
    [exact Hkids | now apply noShadowBelow_kids |].
  exact IH.
Qed.

Lemma processedTree_inv (t : value) :
  processedTree t = true ->
  exists ps, t = VObj ps /\ processedNode t = true /\ isLeafPair t = false.
Proof.
  unfold processedTree. rewrite andb_true_iff, negb_true_iff. intros [Hp Hl].
  destruct (processedNode_obj t Hp) as [ps ->]. now exists ps.
Qed.

Lemma statistics_spec (t : value) :
  processedNode t = true -> noShadowBelow t = true -> isLeafPair t = false ->
  statistics t = Ok (mkCounts (length (filter countedPair (pairs t)))
                              (length (filter translatedPair (pairs t)))).
Proof.
  intros Hp Hns Hleaf. unfold statistics.
  now rewrite (statisticsRecursive_spec t Hp Hns Hleaf).
Qed.

(** C4: [statistics] tests the translation of a pair where the claim,
    the comment on the test (line 172) and [buildNewData] (line 83) speak
    of the original.  A pair whose original is "Hi" and whose translation
    is the empty string is counted by the claim, in both counts, and by
    [statistics] in neither; a pair whose original is empty and whose
    translation is "x" is left out by the claim and counted by
    [statistics] in both. *)
Lemma statistics_tests_the_translation :
  let cleared := VObj [("a", leafPair (VStr "Hi") (VStr ""))] in
  let filled := VObj [("b", leafPair (VStr "") (VStr "x"))] in
  processedTree cleared = true
  /\ length (filter claimedCounted (pairs cleared)) = 1
  /\ length (filter claimedTranslated (pairs cleared)) = 1
  /\ statistics cleared = Ok (mkCounts 0 0)
  /\ processedTree filled = true
  /\ length (filter claimedCounted (pairs filled)) = 0
  /\ length (filter claimedTranslated (pairs filled)) = 0
  /\ statistics filled = Ok (mkCounts 1 1).
Proof. repeat split. Qed.

(** What [statistics] returns for every processed tree with no key
    [hasOwnProperty] below the root: it leaves out of both counts every
    pair whose translation is the empty string, which is the translation
    [buildNewData] gives to an empty original; every other pair adds to
    [overallCount], and to [translatedCount] when its translation is not
    [null].  On a tree whose pairs have an empty translation exactly
    when their original is empty, these are the counts of C4. *)
Lemma statistics_counts (tree : value) :
  processedTree tree = true ->
  noShadowBelow tree = true ->
  statistics tree
  = Ok (mkCounts (length (filter countedPair (pairs tree)))
                 (length (filter translatedPair (pairs tree))))
  /\ ((forall x, In x (pairs tree) ->
         isEmptyString (field (snd x) "_translated")
         = isEmptyString (field (snd x) "_original")) ->
      statistics tree
      = Ok (mkCounts (length (filter claimedCounted (pairs tree)))
                     (length (filter claimedTranslated (pairs tree))))).
Proof.
  intros Ht Hns. destruct (processedTree_inv tree Ht) as [ps [-> [Hp Hleaf]]].
  rewrite (statistics_spec _ Hp Hns Hleaf). split; [reflexivity|].
  intros Hinv. f_equal. f_equal; f_equal; apply filter_ext_in; intros x Hx;
    unfold translatedPair, claimedTranslated, countedPair, claimedCounted;
    now rewrite (Hinv x Hx).
Qed.

Lemma statistics_counts_example :
  statistics (VObj [("x", leafPair (VStr "Old") (VStr "Vieux"));
                    ("y", VObj [("z", leafPair (VStr "New") VNull);
                                ("e", leafPair (VStr "") (VStr ""))])])
  = Ok (mkCounts 2 1).
Proof.
  exact (proj1 (statistics_counts
    (VObj [("x", leafPair (VStr "Old") (VStr "Vieux"));
           ("y", VObj [("z", leafPair (VStr "New") VNull);
                       ("e", leafPair (VStr "") (VStr ""))])])
    eq_refl eq_refl)).
Defined.

(** [pairs] lists the paths that lead to a pair. *)
Lemma pairs_atPath (t : value) :
  processedNode t = true ->
  forall p l, In (p, l) (pairs t) <-> atPath t p = Some l /\ isLeafPair l = true.
Proof.
  induction t as [| | n | s | ps IH] using value_ind'; try discriminate.
  intros Hp p l. destruct (isLeafPair (VObj ps)) eqn:Hleaf.
  - rewrite (pairs_pair _ Hleaf). split.
    + intros [[= <- <-]|[]]. now split.
    + intros [Hat Hl]. destruct p as [|k p]; [injection Hat as <-; now left|].
      exfalso. apply isLeafPair_inv in Hleaf as [o [t [[= ->] Ht]]].
      cbn [atPath lookup] in Hat.
      destruct (String.eqb "_original" k).
      * destruct p; [injection Hat as <-|]; discriminate.
      * destruct (String.eqb "_translated" k); [|discriminate].
        destruct (isTranslation_inv t Ht) as [->|[->|[s ->]]];
          (destruct p; [injection Hat as <-|]); discriminate.
  - rewrite (pairs_mapping ps Hleaf).
    destruct (processedNode_kids ps Hp Hleaf) as [Hdist Hkids].
    rewrite Forall_forall in IH, Hkids. unfold pairsOfProps.
    rewrite in_flat_map. split.
    + intros [[k c] [Hin Hm]].
      apply in_map_iff in Hm as [[p' l'] [[= <- <-] Hl]].
      cbn [atPath]. rewrite (In_lookup ps k c Hdist Hin).
      now apply (IH _ Hin (proj2 (Hkids _ Hin))).
    + intros [Hat Hl]. destruct p as [|k p].
      { injection Hat as <-. congruence. }
      cbn [atPath] in Hat.
      destruct (lookup ps k) as [c|] eqn:Hk; [|discriminate].
      apply lookup_In in Hk. exists (k, c). split; [exact Hk|].
      apply in_map_iff. exists (p, l). split; [reflexivity|].
      now apply (IH _ Hk (proj2 (Hkids _ Hk))).
Qed.

(** ** [unusedTranslatedKeysCount] *)

Lemma unusedTranslatedKeysCountRecursive_loop (ps : props) l c :
  unusedTranslatedKeysCountRecursive (VObj ps) l c = unusedLoop ps ps l c.
Proof.
  cbn [unusedTranslatedKeysCountRecursive].
  generalize ps at 1 3 as all. intros all. revert c.
  induction ps as [|[k child] rest IH]; intros c; [reflexivity|].
  cbn [unusedLoop].
  destruct (hasOwnProperty (VObj all) "_translated") as [[|]|];
    [apply IH | | reflexivity].
  destruct (hasOwnProperty l k) as [[|]|]; [| |reflexivity].
  - destruct (getOwn l k) as [e|]; [|reflexivity].
    destruct (unusedTranslatedKeysCountRecursive child e c); [apply IH|reflexivity].
  - destruct (statistics (VObj [(k, child)])); [apply IH|reflexivity].
Qed.

Lemma unusedLoop_pair (all rest : props) l c :
  hasOwnProperty (VObj all) "_translated" = Ok true ->
  unusedLoop all rest l c = Ok c.
Proof.
  intros H. induction rest as [|[k child] rest IH]; [reflexivity|].
  cbn [unusedLoop]. now rewrite H.
Qed.

Lemma objectTree_child (ls : props) (k : string) (e : value) :
  objectTree (VObj ls) = true -> reserved k = false ->
  lookup ls k = Some e -> objectTree e = true.
Proof.
  intros Hl Hk He. cbn [objectTree] in Hl. rewrite forallb_forall in Hl.
  apply lookup_In, Hl in He. now rewrite Hk in He.
Qed.

Lemma statistics_single (k : string) (c : value) :
  reserved k = false -> processedNode c = true -> noShadow c = true ->
  statistics (VObj [(k, c)])
  = Ok (mkCounts (length (filter countedPair (pairs c)))
                 (length (filter translatedPair (pairs c)))).
Proof.
  intros Hk Hc Hns. unfold statistics.
  rewrite statisticsRecursive_props.
  - change (pairsOfProps [(k, c)])
      with (map (fun '(p, l) => (k :: p, l)) (pairs c) ++ []).
    now rewrite app_nil_r, tally_map.
  - now repeat constructor.
  - now repeat constructor.
  - constructor; [|constructor]. intros _ Hn Hleaf.
    now apply statisticsRecursive_spec.
Qed.

Lemma unusedLoop_mapping (all rest : props) :
  hasOwnProperty (VObj all) "_translated" = Ok false ->
  Forall (fun kv => reserved (fst kv) = false
                    /\ processedNode (snd kv) = true) rest ->
  Forall (fun kv => noShadow (snd kv) = true) rest ->
  Forall (fun kv => forall l c, objectTree l = true -> noShadow l = true ->
            unusedTranslatedKeysCountRecursive (snd kv) l c
            = Ok (c + length (filter (unusedPair l) (pairs (snd kv))))) rest ->
  forall l c, objectTree l = true -> noShadow l = true ->
    unusedLoop all rest l c
    = Ok (c + length (filter (unusedPair l) (pairsOfProps rest))).
Proof.
  intros Hall. induction 1 as [|[k ch] rest [Hk Hch] _ IH];
    intros Hns HIH l c Hl Hnl.
  - simpl. now rewrite Nat.add_0_r.
  - inversion HIH as [|x r IHch IHrest]; subst.
    inversion Hns as [|x r Hnch Hnrest]; subst. cbn [fst snd] in *.
    cbn [unusedLoop]. rewrite Hall.
    change (pairsOfProps ((k, ch) :: rest))
      with (map (fun '(p, x) => (k :: p, x)) (pairs ch) ++ pairsOfProps rest).
    rewrite filter_app, length_app, length_filter_map, Nat.add_assoc.
    destruct l as [| | n | s | ls]; try discriminate.
    rewrite hasOwnProperty_own by (reflexivity || now apply noShadow_shadowed).
    unfold getOwn, field. cbn [nullish own].
    destruct (lookup ls k) as [e|] eqn:He; cbn [absent negb].
    + rewrite (IHch e c (objectTree_child ls k e Hl Hk He)
                 (noShadow_child ls k e Hnl He)).
      rewrite (IH Hnrest IHrest _ _ Hl Hnl). f_equal. f_equal. f_equal. f_equal.
      apply filter_ext. intros [p x]. unfold unusedPair. cbn [fst atPath].
      now rewrite He.
    + rewrite (statistics_single k ch Hk Hch Hnch). cbn [translatedCount].
      rewrite (IH Hnrest IHrest _ _ Hl Hnl). f_equal. f_equal. f_equal. f_equal.
      apply filter_ext. intros [p x]. unfold unusedPair. cbn [fst atPath].
      rewrite He. now rewrite andb_true_r.
Qed.

Lemma unusedTranslatedKeysCountRecursive_spec (d : value) :
  processedNode d = true -> noShadow d = true ->
  forall l c, objectTree l = true -> noShadow l = true ->
    unusedTranslatedKeysCountRecursive d l c
    = Ok (c + length (filter (unusedPair l) (pairs d))).
Proof.
  induction d as [| | n | s | ps IH] using value_ind'; try discriminate.
  intros Hp Hns l c Hl Hnl. rewrite unusedTranslatedKeysCountRecursive_loop.
  destruct (hasOwnProperty_processed _ Hp (noShadow_shadowed ps Hns))
    as [Hh _].
  destruct (isLeafPair (VObj ps)) eqn:Hleaf.
  - rewrite (pairs_pair _ Hleaf). unfold unusedPair. cbn [filter fst atPath absent].
    rewrite andb_false_r. cbn [length]. rewrite Nat.add_0_r.
    now apply unusedLoop_pair.
  - rewrite (pairs_mapping ps Hleaf).
    destruct (processedNode_kids ps Hp Hleaf) as [_ Hkids].
    apply unusedLoop_mapping; try assumption.
    + now apply noShadow_kids.
    + pose proof (noShadow_kids ps Hns) as Hnk.
      rewrite Forall_forall in *. intros kv Hin.
      apply (IH kv Hin); [apply (Hkids kv Hin) | apply (Hnk kv Hin)].
Qed.

Lemma processedNode_objectTree (t : value) :
  processedNode t = true -> objectTree t = true.
Proof.
  induction t as [| | n | s | ps IH] using value_ind'; try discriminate.
  intros Hp. destruct (isLeafPair (VObj ps)) eqn:Hleaf.
  - now apply isLeafPair_inv in Hleaf as [o [t [[= ->] _]]].
  - destruct (processedNode_kids ps Hp Hleaf) as [_ Hkids].
    rewrite Forall_forall in IH, Hkids. cbn [objectTree].
    apply forallb_forall. intros [k c] Hin.
    destruct (Hkids _ Hin) as [_ Hc]. pose proof (IH _ Hin Hc) as Ho.
    cbn [snd] in Ho. rewrite Ho. apply orb_true_r.
Qed.

Lemma mergedProps_objectTree E (fresh : value) :
  rawNode fresh = true ->
  forall d, objectTree (VObj (mergedProps E d fresh)) = true.
Proof.
  induction fresh as [| | n | s | ps IH] using value_ind'; try discriminate.
  - reflexivity.
  - intros Hraw d. apply rawNode_children in Hraw as [_ Hkids].
    rewrite Forall_forall in IH, Hkids. cbn [objectTree mergedProps].
    apply forallb_forall. intros [k e] Hin.
    apply in_map_iff in Hin as [[k' v] [[= <- <-] Hin]].
    pose proof (Hkids _ Hin) as Hv. cbn [snd] in Hv.
    destruct v as [| | n | s | vs]; try discriminate.
    + cbn [typeofObject]. apply orb_true_r.
    + cbn [typeofObject]. pose proof (IH _ Hin Hv) as Ho. cbn [snd] in Ho.
      rewrite Ho. apply orb_true_r.
Qed.

Lemma buildNewData_objectTree E (existing fresh merged : value) (n : nat) :
  rawTree fresh = true ->
  buildNewData E existing fresh = Ok (merged, n) ->
  objectTree merged = true.
Proof.
  intros Hf Hok. destruct (buildNewData_Ok _ _ _ _ _ Hf Hok) as [-> _].
  destruct (rawTree_obj fresh Hf) as [Hraw _].
  now apply mergedProps_objectTree.
Qed.

(** No key of the merged tree is [hasOwnProperty] when no key of the
    fresh tree is. *)
Lemma noShadow_primitive (t : value) :
  (forall es, t <> VObj es) -> noShadow t = true.
Proof. intros Ht. destruct t as [| | n | s | es]; try reflexivity. now destruct (Ht es). Qed.

Lemma mergedProps_noShadow E (fresh : value) :
  rawNode fresh = true -> noShadow fresh = true ->
  forall d, harmless d = true ->
    noShadow (VObj (mergedProps E d fresh)) = true.
Proof.
  induction fresh as [| | n | s | ps IH] using value_ind'; try discriminate.
  - reflexivity.
  - intros Hraw Hns d Hd. apply rawNode_children in Hraw as [_ Hkids].
    pose proof (noShadow_kids ps Hns) as Hnk.
    rewrite Forall_forall in IH, Hkids, Hnk.
    cbn [noShadow]. apply andb_true_iff. split.
    + rewrite keys_mergedProps. cbn [noShadow] in Hns.
      now apply andb_true_iff in Hns as [Hk _].
    + apply forallb_forall. intros [k e] Hin. cbn [mergedProps] in Hin.
      apply in_map_iff in Hin as [[k' v] [[= <- <-] Hin]].
      pose proof (Hkids _ Hin) as Hv. cbn [snd] in Hv.
      destruct v as [| | n | s | vs]; try discriminate.
      * cbn [typeofObject]. unfold leafPair. cbn.
        rewrite (noShadow_primitive _ (carried_primitive E d k' (VStr s) Hd)).
        reflexivity.
      * cbn [typeofObject].
        exact (IH _ Hin Hv (Hnk _ Hin) _ (harmless_step E d k' Hd)).
Qed.

Lemma buildNewData_noShadow E (existing fresh merged : value) (n : nat) :
  priorData existing = true ->
  rawTree fresh = true -> noShadow fresh = true ->
  buildNewData E existing fresh = Ok (merged, n) ->
  noShadow merged = true.
Proof.
  intros He Hf Hns Hok. destruct (buildNewData_Ok _ _ _ _ _ Hf Hok) as [-> _].
  destruct (rawTree_obj fresh Hf) as [Hraw _].
  apply mergedProps_noShadow; [exact Hraw | exact Hns |].
  now apply priorData_harmless.
Qed.

(** C6, as stated, fails.  The data holds under the key [hasOwnProperty]
    a translated pair whose path is absent from the merged tree, the
    claim counts it, and the call [data.hasOwnProperty('_translated')]
    of line 111 throws.  The merged tree holds a pair under that key,
    the data a translated pair at [a], absent from the merged tree, and
    the call [latestData.hasOwnProperty(key)] of line 113 throws. *)
Lemma unused_throws_on_hidden_method :
  let existing := VObj [("hasOwnProperty", leafPair (VStr "a") (VStr "b"))] in
  let merged := VObj [] in
  let data := VObj [("a", leafPair (VStr "a") (VStr "b"))] in
  let hiding := VObj [("hasOwnProperty", leafPair (VStr "x") VNull)] in
  processedTree existing = true /\ objectTree merged = true
  /\ length (filter (unusedPair merged) (pairs existing)) = 1
  /\ unusedTranslatedKeysCount existing merged = Throw TypeError
  /\ processedTree data = true /\ objectTree hiding = true
  /\ length (filter (unusedPair hiding) (pairs data)) = 1
  /\ unusedTranslatedKeysCount data hiding = Throw TypeError.
Proof. repeat split. Qed.

(** C6, amended: [unusedTranslatedKeysCount(existing, merged)], for
    processed data and a merged tree that have no key [hasOwnProperty],
    is the number of pairs of the data that [statistics] counts as
    translated and whose path is absent from the merged tree; when the
    path of no pair of the data is in the merged tree, it is the
    [translatedCount] that [statistics] gives for the whole data; when
    the data is absent, it is 0. *)
Theorem unused_translated_keys (existing merged : value) :
  priorData existing = true ->
  noShadow existing = true ->
  objectTree merged = true ->
  noShadow merged = true ->
  unusedTranslatedKeysCount existing merged
  = Ok (length (filter (unusedPair merged) (pairs existing)))
  /\ ((forall p x, In (p, x) (pairs existing) -> atPath merged p = None) ->
      exists st, statistics existing = Ok st
                 /\ unusedTranslatedKeysCount existing merged
                    = Ok (translatedCount st))
  /\ (nullish existing = true ->
      unusedTranslatedKeysCount existing merged = Ok 0).
Proof.
  intros He Hns Hm Hnm. unfold priorData in He.
  apply orb_true_iff in He as [Ht|Hn].
  - destruct (processedTree_inv existing Ht) as [ps [-> [Hp Hleaf]]].
    unfold unusedTranslatedKeysCount. cbn [truthy].
    rewrite (unusedTranslatedKeysCountRecursive_spec _ Hp Hns merged 0 Hm Hnm).
    cbn [Nat.add]. repeat split; [|discriminate].
    intros Habs. rewrite (statistics_spec _ Hp (noShadow_below _ Hns) Hleaf).
    eexists.
    split; [reflexivity|]. cbn [translatedCount]. f_equal. f_equal.
    apply filter_ext_in. intros [p x] Hin. unfold unusedPair. cbn [fst].
    now rewrite (Habs p x Hin), andb_true_r.
  - destruct existing; try discriminate; repeat split; intros _;
      now exists (mkCounts 0 0).
Qed.

Lemma unused_translated_keys_witness :
  unusedTranslatedKeysCount
    (VObj [("x", leafPair (VStr "Old") (VStr "Vieux"));
           ("y", leafPair (VStr "Gone") (VStr "Parti"));
           ("z", VObj [("u", leafPair (VStr "A") (VStr "B"));
                       ("v", leafPair (VStr "C") VNull)])])
    (VObj [("x", leafPair (VStr "Old") (VStr "Vieux"))])
  = Ok 2.
Proof.
  exact (proj1 (unused_translated_keys
    (VObj [("x", leafPair (VStr "Old") (VStr "Vieux"));
           ("y", leafPair (VStr "Gone") (VStr "Parti"));
           ("z", VObj [("u", leafPair (VStr "A") (VStr "B"));
                       ("v", leafPair (VStr "C") VNull)])])
    (VObj [("x", leafPair (VStr "Old") (VStr "Vieux"))])
    eq_refl eq_refl eq_refl eq_refl)).
Defined.

(** ** [processedDataToRaw] *)

Lemma processedDataToRaw_loop (ps : props) :
  processedDataToRaw (VObj ps) = toRawLoop ps [].
Proof.
  cbn [processedDataToRaw]. generalize (@nil (string * value)) as acc.
  induction ps as [|[k child] rest IH]; intros acc; [reflexivity|].
  cbn [toRawLoop]. destruct (hasOwnProperty child "_translated") as [[|]|];
    [| |reflexivity].
  - destruct (getOwn child "_translated"); [apply IH|reflexivity].
  - destruct (processedDataToRaw child); [apply IH|reflexivity].
Qed.

Lemma toRawLoop_spec (ps : props) :
  Forall (fun kv => reserved (fst kv) = false
                    /\ processedNode (snd kv) = true) ps ->
  Forall (fun kv => noShadow (snd kv) = true) ps ->
  Forall (fun kv => processedNode (snd kv) = true ->
                    noShadowBelow (snd kv) = true ->
                    isLeafPair (snd kv) = false ->
                    processedDataToRaw (snd kv)
                    = Ok (VObj (rawProps (snd kv)))) ps ->
  forall acc,
    toRawLoop ps acc = Ok (VObj (fold_left assign (rawProps (VObj ps)) acc)).
Proof.
  induction 1 as [|[k c] rest [_ Hc] _ IH]; intros Hns HIH acc; [reflexivity|].
  inversion HIH as [|x l IHc IHrest]; subst.
  inversion Hns as [|x l Hnc Hnrest]; subst. cbn [snd] in *.
  cbn [toRawLoop].
  destruct (hasOwnProperty_processed c Hc (noShadow_processed c Hc Hnc))
    as [-> ->].
  change (rawProps (VObj ((k, c) :: rest)))
    with ((k, if isLeafPair c then field c "_translated"
              else VObj (rawProps c)) :: rawProps (VObj rest)).
  cbn [fold_left]. unfold assign at 2. cbn [fst snd].
  destruct (isLeafPair c) eqn:Hleaf.
  - now apply IH.
  - rewrite (IHc Hc (noShadow_below c Hnc) eq_refl). now apply IH.
Qed.

Lemma keys_rawProps (ps : props) : keys (rawProps (VObj ps)) = keys ps.
Proof.
  unfold keys. cbn [rawProps]. rewrite map_map. apply map_ext. now intros [k c].
Qed.

Lemma processedDataToRaw_spec (t : value) :
  processedNode t = true -> noShadowBelow t = true -> isLeafPair t = false ->
  processedDataToRaw t = Ok (VObj (rawProps t)).
Proof.
  induction t as [| | n | s | ps IH] using value_ind'; try discriminate.
  intros Hp Hns Hleaf.
  destruct (processedNode_kids ps Hp Hleaf) as [Hdist Hkids].
  rewrite processedDataToRaw_loop,
    (toRawLoop_spec ps Hkids (noShadowBelow_kids ps Hns) IH).
  rewrite assign_distinct; [reflexivity | | intros k _ []].
  now rewrite keys_rawProps.
Qed.

Lemma lookup_rawProps (ps : props) (k : string) :
  lookup (rawProps (VObj ps)) k =
  match lookup ps k with
  | Some c => Some (if isLeafPair c then field c "_translated"
                    else VObj (rawProps c))
  | None => None
  end.
Proof.
  induction ps as [|[k' c] ps IH]; [reflexivity|].
  change (rawProps (VObj ((k', c) :: ps)))
    with ((k', if isLeafPair c then field c "_translated"
               else VObj (rawProps c)) :: rawProps (VObj ps)).
  cbn [lookup]. destruct (String.eqb k' k); [reflexivity | exact IH].
Qed.

Lemma nothing_below_pair (e : value) (k : string) (p : list string) (cs : props) :
  isLeafPair e = true -> atPath e (k :: p) <> Some (VObj cs).
Proof.
  intros Hleaf. apply isLeafPair_inv in Hleaf as [o [t [-> Ht]]].
  cbn [atPath leafPair lookup].
  destruct (String.eqb "_original" k); [destruct p; discriminate|].
  destruct (String.eqb "_translated" k); [|discriminate].
  destruct (isTranslation_inv t Ht) as [->|[->|[s ->]]];
    destruct p; discriminate.
Qed.

(** Where the processed tree has a pair the raw object has its
    translation, and where it has a mapping the raw object has the
    mapping made from it. *)
Lemma atPath_rawProps (p : list string) :
  forall ps cs,
    processedNode (VObj ps) = true -> isLeafPair (VObj ps) = false ->
    atPath (VObj ps) p = Some (VObj cs) ->
    processedNode (VObj cs) = true
    /\ atPath (VObj (rawProps (VObj ps))) p
       = Some (if isLeafPair (VObj cs) then field (VObj cs) "_translated"
               else VObj (rawProps (VObj cs))).
Proof.
  induction p as [|k p IH]; intros ps cs Hp Hleaf Hat.
  - injection Hat as <-. rewrite Hleaf. now split.
  - cbn [atPath] in *. rewrite lookup_rawProps.
    destruct (lookup ps k) as [e|] eqn:Hl; [|discriminate].
    destruct (processedNode_kids ps Hp Hleaf) as [_ Hkids].
    rewrite Forall_forall in Hkids.
    destruct (Hkids _ (lookup_In _ _ _ Hl)) as [_ He]. cbn [snd] in He.
    destruct (isLeafPair e) eqn:Hle.
    + destruct p as [|k' p].
      * injection Hat as ->. rewrite Hle. now split.
      * now destruct (nothing_below_pair e k' p cs Hle).
    + destruct (processedNode_obj e He) as [es ->]. now apply IH.
Qed.

(** C8, as stated, fails: on a ProcessedNode that is a pair, the function
    takes the original for a child, recurses on that string for ever,
    and the call stack overflows; with an empty original and no
    translation it calls a method of [null]; and where a mapping below
    the root has the key [hasOwnProperty] the call of line 138 throws. *)
Lemma processedDataToRaw_throws_on_pair :
  processedNode (leafPair (VStr "Hi") (VStr "Salut")) = true
  /\ processedDataToRaw (leafPair (VStr "Hi") (VStr "Salut")) = Throw RangeError
  /\ processedNode (leafPair (VStr "") VNull) = true
  /\ processedDataToRaw (leafPair (VStr "") VNull) = Throw TypeError
  /\ processedTree
       (VObj [("a", VObj [("hasOwnProperty",
                           leafPair (VStr "x") (VStr "y"))])]) = true
  /\ processedDataToRaw
       (VObj [("a", VObj [("hasOwnProperty",
                           leafPair (VStr "x") (VStr "y"))])])
     = Throw TypeError.
Proof. repeat split. Qed.

(** C8, amended: [processedDataToRaw] returns on every processed tree,
    that is, on every well-formed ProcessedNode that is a mapping, when
    no mapping below the root has a key named [hasOwnProperty]: the raw
    object has, where the tree has a pair, the translation of the pair
    ([null] or [undefined] when it is absent), and where the tree has a
    mapping, a mapping of the same keys in the same order. *)
Theorem processedDataToRaw_total (tree : value) :
  processedTree tree = true ->
  noShadowBelow tree = true ->
  exists raw,
    processedDataToRaw tree = Ok raw
    /\ (forall p o t,
          atPath tree p = Some (leafPair (VStr o) t) ->
          atPath raw p = Some t)
    /\ (forall p ps,
          atPath tree p = Some (VObj ps) -> isLeafPair (VObj ps) = false ->
          exists rs, atPath raw p = Some (VObj rs) /\ keys rs = keys ps).
Proof.
  intros Ht Hns. destruct (processedTree_inv tree Ht) as [ts [-> [Hp Hleaf]]].
  exists (VObj (rawProps (VObj ts))).
  split; [now apply processedDataToRaw_spec|]. split.
  - intros p o t Hat.
    destruct (atPath_rawProps p ts _ Hp Hleaf Hat) as [Hproc ->].
    unfold leafPair in *.
    destruct (isLeafPair (VObj [("_original", VStr o); ("_translated", t)]))
      eqn:Hl; [reflexivity|].
    exfalso. destruct (processedNode_kids _ Hproc Hl) as [_ Hkids].
    inversion Hkids as [|x l [Hr _] _]; subst. discriminate.
  - intros p ps Hat Hl.
    destruct (atPath_rawProps p ts ps Hp Hleaf Hat) as [_ ->].
    rewrite Hl. eexists. split; [reflexivity | apply keys_rawProps].
Qed.

Lemma processedDataToRaw_total_witness :
  exists raw,
    processedDataToRaw
      (VObj [("en", VObj [("hi", leafPair (VStr "Hi") (VStr "Salut"));
                          ("new", leafPair (VStr "New") VNull)])])
    = Ok raw
    /\ atPath raw ["en"; "hi"] = Some (VStr "Salut")
    /\ atPath raw ["en"; "new"] = Some VNull.
Proof.
  destruct (processedDataToRaw_total
    (VObj [("en", VObj [("hi", leafPair (VStr "Hi") (VStr "Salut"));
                        ("new", leafPair (VStr "New") VNull)])])
    eq_refl eq_refl) as [raw [Hraw [Hpair _]]].
  exists raw. split; [exact Hraw|]. split.
  - exact (Hpair ["en"; "hi"] "Hi" (VStr "Salut") eq_refl).
  - exact (Hpair ["en"; "new"] "New" VNull eq_refl).
Defined.

(** ** [untranslatedKeysGenerator] *)

Lemma untranslatedKeysGenerator_cons k c rest _chain :
  untranslatedKeysGenerator (VObj ((k, c) :: rest)) _chain =
  match hasOwnProperty c "_translated" with
  | Throw e => ([], Some e)
  | Ok true =>
      match getOwn c "_translated" with
      | Throw e => ([], Some e)
      | Ok t =>
          let '(later, e) := untranslatedKeysGenerator (VObj rest) _chain in
          ((if isNull t then [mkItem c (_chain ++ [k])] else []) ++ later, e)
      end
  | Ok false =>
      match untranslatedKeysGenerator c (_chain ++ [k]) with
      | (inner, Some e) => (inner, Some e)
      | (inner, None) =>
          let '(later, e) := untranslatedKeysGenerator (VObj rest) _chain in
          (inner ++ later, e)
      end
  end.
Proof. reflexivity. Qed.

Lemma filter_untranslated_under (k : string) (l : list (list string * value)) :
  filter untranslatedPair (map (fun '(p, x) => (k :: p, x)) l)
  = map (fun '(p, x) => (k :: p, x)) (filter untranslatedPair l).
Proof.
  induction l as [|[p x] l IH]; [reflexivity|]. cbn [map filter].
  change (untranslatedPair (k :: p, x)) with (untranslatedPair (p, x)).
  destruct (untranslatedPair (p, x)); cbn [map]; now rewrite IH.
Qed.

Lemma untranslatedKeysGenerator_props (ps : props) :
  Forall (fun kv => reserved (fst kv) = false
                    /\ processedNode (snd kv) = true) ps ->
  Forall (fun kv => noShadow (snd kv) = true) ps ->
  Forall (fun kv => processedNode (snd kv) = true ->
                    noShadowBelow (snd kv) = true ->
                    isLeafPair (snd kv) = false ->
                    forall c, untranslatedKeysGenerator (snd kv) c
                              = (map (itemAt c)
                                   (filter untranslatedPair (pairs (snd kv))),
                                 None)) ps ->
  forall c, untranslatedKeysGenerator (VObj ps) c
            = (map (itemAt c) (filter untranslatedPair (pairsOfProps ps)), None).
Proof.
  induction 1 as [|[k ch] rest [_ Hch] _ IH]; intros Hns HIH c; [reflexivity|].
  inversion HIH as [|x l IHch IHrest]; subst.
  inversion Hns as [|x l Hnch Hnrest]; subst. cbn [snd] in *.
  rewrite untranslatedKeysGenerator_cons.
  destruct (hasOwnProperty_processed ch Hch (noShadow_processed ch Hch Hnch))
    as [-> ->].
  rewrite (IH Hnrest IHrest c).
  change (pairsOfProps ((k, ch) :: rest))
    with (map (fun '(p, l) => (k :: p, l)) (pairs ch) ++ pairsOfProps rest).
  rewrite filter_app, map_app. destruct (isLeafPair ch) eqn:Hleaf.
  - rewrite (pairs_pair ch Hleaf). cbn [map filter].
    unfold untranslatedPair at 2. cbn [snd].
    now destruct (isNull (field ch "_translated")).
  - rewrite (IHch Hch (noShadow_below ch Hnch) eq_refl). f_equal. f_equal.
    rewrite filter_untranslated_under, map_map.
    apply map_ext. intros [p l]. unfold itemAt. cbn [fst snd].
    now rewrite <- app_assoc.
Qed.

Lemma untranslatedKeysGenerator_spec (t : value) :
  processedNode t = true -> noShadowBelow t = true -> isLeafPair t = false ->
  forall c, untranslatedKeysGenerator t c
            = (map (itemAt c) (filter untranslatedPair (pairs t)), None).
Proof.
  induction t as [| | n | s | ps IH] using value_ind'; try discriminate.
  intros Hp Hns Hleaf c. rewrite (pairs_mapping ps Hleaf).
  destruct (processedNode_kids ps Hp Hleaf) as [_ Hkids].
  apply untranslatedKeysGenerator_props;
    [exact Hkids | now apply noShadowBelow_kids | exact IH].
Qed.

(** ** Every pair is listed once *)

Lemma NoDup_map_cons (k : string) (l : list (list string)) :
  NoDup l -> NoDup (map (cons k) l).
Proof.
  induction 1 as [|p l Hnin _ IH]; simpl; constructor; [|exact IH].
  rewrite in_map_iff. intros [q [[= ->] Hq]]. contradiction.
Qed.

Lemma NoDup_map_filter {A B : Type} (f : A -> B) (g : A -> bool) (l : list A) :
  NoDup (map f l) -> NoDup (map f (filter g l)).
Proof.
  induction l as [|x l IH]; simpl; [trivial|].
  intros H. apply NoDup_cons_iff in H as [Hnin Hnd].
  destruct (g x); simpl; [|now apply IH].
  constructor; [|now apply IH].
  rewrite in_map_iff in *. intros [y [Hy Hin]]. apply Hnin.
  exists y. split; [exact Hy|]. now apply filter_In in Hin.
Qed.

Lemma paths_under (k : string) (l : list (list string * value)) :
  map fst (map (fun '(p, x) => (k :: p, x)) l) = map (cons k) (map fst l).
Proof. rewrite !map_map. apply map_ext. now intros [p x]. Qed.

Lemma pairsOfProps_head (ps : props) (a : list string) :
  In a (map fst (pairsOfProps ps)) ->
  exists k p, a = k :: p /\ In k (keys ps).
Proof.
  rewrite in_map_iff. intros [[q x] [<- Hin]]. unfold pairsOfProps in Hin.
  apply in_flat_map in Hin as [[k c] [Hkc Hin]].
  apply in_map_iff in Hin as [[p' x'] [[= <- <-] _]].
  exists k, p'. split; [reflexivity|]. now apply (in_map fst) in Hkc.
Qed.

Lemma pairs_NoDup (t : value) :
  processedNode t = true -> NoDup (map fst (pairs t)).
Proof.
  induction t as [| | n | s | ps IH] using value_ind'; try discriminate.
  intros Hp. destruct (isLeafPair (VObj ps)) eqn:Hleaf.
  - rewrite (pairs_pair _ Hleaf). repeat constructor. intros [].
  - rewrite (pairs_mapping ps Hleaf).
    destruct (processedNode_kids ps Hp Hleaf) as [Hdist Hkids]. clear Hp Hleaf.
    induction ps as [|[k c] ps IHps]; [constructor|].
    inversion IH as [|x l IHc IHrest]; subst.
    inversion Hkids as [|x l [_ Hc] Hrest]; subst. cbn [snd] in *.
    apply distinct_cons in Hdist as [Hnin Hdist].
    change (pairsOfProps ((k, c) :: ps))
      with (map (fun '(p, l) => (k :: p, l)) (pairs c) ++ pairsOfProps ps).
    rewrite map_app, paths_under. apply NoDup_app.
    + apply NoDup_map_cons, IHc, Hc.
    + now apply IHps.
    + intros a Ha Hb. apply in_map_iff in Ha as [q [<- _]].
      apply pairsOfProps_head in Hb as [k' [p' [[= <- _] Hk']]].
      contradiction.
Qed.





(** * Further properties *)

(** ** [statistics]: the two counts *)

Lemma countLeaf_le (t : value) (st : counts) :
  translatedCount st <= overallCount st ->
  translatedCount (countLeaf t st) <= overallCount (countLeaf t st).
Proof.
  intros H. unfold countLeaf. destruct (isEmptyString t); [exact H|].
  cbn [overallCount translatedCount]. destruct (isNull t); lia.
Qed.

Lemma statisticsRecursive_le (data : value) :
  forall st st',
    statisticsRecursive data st = Ok st' ->
    translatedCount st <= overallCount st ->
    translatedCount st' <= overallCount st'.
Proof.
  induction data as [| | n | s | ps IH] using value_ind';
    try (intros st st' [= <-] H; exact H).
  - intros st st'. simpl. destruct (String.eqb s ""); [|discriminate].
    now intros [= <-].
  - induction IH as [|[k c] rest IHc _ IHrest]; intros st st'.
    + now intros [= <-].
    + rewrite statisticsRecursive_cons. cbn [snd] in IHc.
      destruct (hasOwnProperty c "_translated") as [[|]|]; [| |discriminate].
      * destruct (getOwn c "_translated") as [t|]; [|discriminate].
        intros Hrest Hle. apply (IHrest _ _ Hrest). now apply countLeaf_le.
      * destruct (statisticsRecursive c st) as [st1|] eqn:Hc; [|discriminate].
        intros Hrest Hle. apply (IHrest _ _ Hrest). exact (IHc _ _ Hc Hle).
Qed.

(** X1: whenever [statistics] returns, on any value at all, the translated
    count is at most the overall count. *)
Theorem statistics_translated_le_overall (data : value) (st : counts) :
  statistics data = Ok st -> translatedCount st <= overallCount st.
Proof.
  intros H. apply (statisticsRecursive_le data _ _ H). apply Nat.le_refl.
Qed.

Lemma statistics_translated_le_overall_witness : 1 <= 2.
Proof.
  exact (statistics_translated_le_overall
    (VObj [("x", leafPair (VStr "Old") (VStr "Vieux"));
           ("y", VObj [("z", leafPair (VStr "New") VNull);
                       ("e", leafPair (VStr "") (VStr ""))])])
    (mkCounts 2 1) eq_refl).
Defined.

Lemma untranslated_translated_counted (l : list (list string * value)) :
  length (filter untranslatedPair l) + length (filter translatedPair l)
  = length (filter countedPair l).
Proof.
  induction l as [|x l IH]; [reflexivity|]. cbn [filter].
  destruct (untranslatedPair x) eqn:U, (translatedPair x) eqn:T,
           (countedPair x) eqn:C; cbn [length]; try lia; exfalso;
    revert U T C; unfold untranslatedPair, translatedPair, countedPair;
    destruct (field (snd x) "_translated") as [| | n | s | ps];
    cbn [isNull isEmptyString negb andb]; try discriminate;
    destruct (String.eqb s ""); discriminate.
Qed.

(** X2: for every processed tree in which no mapping below the root has a
    key named [hasOwnProperty], the number of items the generator yields
    and [translatedCount] add up to [overallCount]: the pairs still to
    translate are the counted pairs that are not translated. *)
Theorem untranslated_items_complete_the_count (tree : value) :
  processedTree tree = true ->
  noShadowBelow tree = true ->
  exists st,
    statistics tree = Ok st
    /\ length (fst (untranslatedKeysGenerator tree [])) + translatedCount st
       = overallCount st.
Proof.
  intros Ht Hns. destruct (processedTree_inv tree Ht) as [ps [-> [Hp Hleaf]]].
  rewrite (statistics_spec _ Hp Hns Hleaf),
          (untranslatedKeysGenerator_spec _ Hp Hns Hleaf []).
  eexists. split; [reflexivity|]. cbn [fst overallCount translatedCount].
  rewrite length_map. apply untranslated_translated_counted.
Qed.

Lemma untranslated_items_complete_the_count_witness :
  exists st,
    statistics (VObj [("x", leafPair (VStr "Old") (VStr "Vieux"));
                      ("y", VObj [("z", leafPair (VStr "New") VNull);
                                  ("e", leafPair (VStr "") (VStr ""))])])
    = Ok st
    /\ length (fst (untranslatedKeysGenerator
                      (VObj [("x", leafPair (VStr "Old") (VStr "Vieux"));
                             ("y", VObj [("z", leafPair (VStr "New") VNull);
                                         ("e", leafPair (VStr "") (VStr ""))])])
                      []))
       + translatedCount st
       = overallCount st.
Proof.
  exact (untranslated_items_complete_the_count
    (VObj [("x", leafPair (VStr "Old") (VStr "Vieux"));
           ("y", VObj [("z", leafPair (VStr "New") VNull);
                       ("e", leafPair (VStr "") (VStr ""))])])
    eq_refl eq_refl).
Defined.

(** ** [unusedTranslatedKeysCount]: a bound, and a tree against itself *)

Lemma length_filter_and {A : Type} (f g : A -> bool) (l : list A) :
  length (filter (fun x => f x && g x) l) <= length (filter f l).
Proof.
  induction l as [|x l IH]; [apply Nat.le_refl|]. cbn [filter].
  destruct (f x), (g x); cbn [andb length]; lia.
Qed.

(** X3: when the data and the merged tree have no key [hasOwnProperty],
    the number of unused keys is at most the number of translated pairs
    of the data, the [translatedCount] of its statistics. *)
Theorem unused_at_most_translated (existing merged : value) :
  processedTree existing = true ->
  noShadow existing = true ->
  objectTree merged = true ->
  noShadow merged = true ->
  exists unused st,
    unusedTranslatedKeysCount existing merged = Ok unused
    /\ statistics existing = Ok st
    /\ unused <= translatedCount st.
Proof.
  intros Ht Hns Hm Hnm.
  destruct (processedTree_inv existing Ht) as [ps [-> [Hp Hleaf]]].
  unfold unusedTranslatedKeysCount. cbn [truthy].
  rewrite (unusedTranslatedKeysCountRecursive_spec _ Hp Hns merged 0 Hm Hnm).
  rewrite (statistics_spec _ Hp (noShadow_below _ Hns) Hleaf). do 2 eexists.
  split; [reflexivity|]. split; [reflexivity|].
  cbn [Nat.add translatedCount]. apply length_filter_and.
Qed.

Lemma unused_at_most_translated_witness :
  exists unused st,
    unusedTranslatedKeysCount
      (VObj [("x", leafPair (VStr "Old") (VStr "Vieux"));
             ("y", leafPair (VStr "Gone") (VStr "Parti"))])
      (VObj [("x", leafPair (VStr "Old") (VStr "Vieux"))])
    = Ok unused
    /\ statistics (VObj [("x", leafPair (VStr "Old") (VStr "Vieux"));
                         ("y", leafPair (VStr "Gone") (VStr "Parti"))])
       = Ok st
    /\ unused <= translatedCount st.
Proof.
  exact (unused_at_most_translated
    (VObj [("x", leafPair (VStr "Old") (VStr "Vieux"));
           ("y", leafPair (VStr "Gone") (VStr "Parti"))])
    (VObj [("x", leafPair (VStr "Old") (VStr "Vieux"))])
    eq_refl eq_refl eq_refl eq_refl).
Defined.

Lemma unusedLoop_self (all rest : props) :
  distinct (keys all) = true ->
  shadowed (VObj all) = false ->
  lookup all "_translated" = None ->
  (forall kv, In kv rest -> In kv all) ->
  Forall (fun kv => forall c,
            unusedTranslatedKeysCountRecursive (snd kv) (snd kv) c = Ok c)
         rest ->
  forall c, unusedLoop all rest (VObj all) c = Ok c.
Proof.
  intros Hdist Hsh Hnone Hsub HIH. induction HIH as [|[k ch] rest Hch _ IH];
    intros c; [reflexivity|].
  cbn [unusedLoop].
  assert (Hl : lookup all k = Some ch).
  { apply In_lookup; [exact Hdist | apply Hsub; now left]. }
  rewrite !hasOwnProperty_own by (reflexivity || exact Hsh).
  unfold getOwn, field. cbn [nullish own snd] in *. rewrite Hnone, Hl.
  cbn [absent negb]. rewrite Hch.
  apply IH. intros kv Hin. apply Hsub. now right.
Qed.

Lemma unusedTranslatedKeysCountRecursive_self (t : value) :
  pairTree t = true -> noShadow t = true ->
  forall c, unusedTranslatedKeysCountRecursive t t c = Ok c.
Proof.
  induction t as [| | n | s | ps IH] using value_ind'; try discriminate.
  intros Hp Hns c. rewrite unusedTranslatedKeysCountRecursive_loop.
  cbn [pairTree] in Hp. apply andb_true_iff in Hp as [Hdist Hp].
  pose proof (noShadow_shadowed ps Hns) as Hsh.
  destruct (lookup ps "_translated") as [e|] eqn:Hl.
  - apply unusedLoop_pair. rewrite hasOwnProperty_own by (reflexivity || exact Hsh).
    cbn [own]. now rewrite Hl.
  - cbn [absent negb orb] in Hp. rewrite forallb_forall in Hp.
    apply unusedLoop_self; try assumption; [now intros kv|].
    pose proof (noShadow_kids ps Hns) as Hnk.
    rewrite Forall_forall in *. intros [k ch] Hin.
    apply (IH _ Hin); [exact (Hp _ Hin) | exact (Hnk _ Hin)].
Qed.

Lemma processedNode_pairTree (t : value) :
  processedNode t = true -> pairTree t = true.
Proof.
  induction t as [| | n | s | ps IH] using value_ind'; try discriminate.
  intros Hp. destruct (isLeafPair (VObj ps)) eqn:Hleaf.
  - now apply isLeafPair_inv in Hleaf as [o [t [[= ->] _]]].
  - destruct (processedNode_kids ps Hp Hleaf) as [Hdist Hkids].
    rewrite Forall_forall in IH, Hkids. cbn [pairTree]. rewrite Hdist.
    cbn [andb]. apply orb_true_iff. right.
    apply forallb_forall. intros [k c] Hin.
    exact (IH _ Hin (proj2 (Hkids _ Hin))).
Qed.


(** X4: A processed tree no key of which is [hasOwnProperty], compared
    with itself, has no unused key; nor has a tree [buildNewData]
    returned for a fresh tree with no such key. *)
Theorem unused_of_a_tree_against_itself (t : value) :
  pairTree t = true -> noShadow t = true ->
  unusedTranslatedKeysCount t t = Ok 0.
Proof.
  intros Hp Hns. unfold unusedTranslatedKeysCount.
  destruct t as [| | n | s | ps]; try discriminate. cbn [truthy].
  now apply unusedTranslatedKeysCountRecursive_self.
Qed.

Lemma unused_of_a_tree_against_itself_witness :
  unusedTranslatedKeysCount
    (VObj [("x", leafPair (VStr "Old") (VStr "Vieux"));
           ("y", VObj [("z", leafPair (VStr "New") VNull)])])
    (VObj [("x", leafPair (VStr "Old") (VStr "Vieux"));
           ("y", VObj [("z", leafPair (VStr "New") VNull)])])
  = Ok 0.
Proof.
  exact (unused_of_a_tree_against_itself
    (VObj [("x", leafPair (VStr "Old") (VStr "Vieux"));
           ("y", VObj [("z", leafPair (VStr "New") VNull)])])
    eq_refl eq_refl).
Defined.

(** ** [buildNewData]: keys with no value, and numbers *)

Lemma loadedNode_children (ps : props) :
  loadedNode (VObj ps) = true ->
  distinct (keys ps) = true
  /\ Forall (fun kv => loadedNode (snd kv) = true) ps.
Proof.
  simpl. rewrite andb_true_iff, forallb_forall, Forall_forall.
  intros [Hd Hall]. split; [exact Hd|].
  intros [k v] Hin. exact (Hall _ Hin).
Qed.

Lemma buildNewDataRecursive_loaded E (v : value) :
  loadedNode v = true -> typeofObject v = true -> built E v.
Proof.
  induction v as [| | n | s | ps IH] using value_ind'; try discriminate.
  - intros _ _ d c. simpl. now rewrite Nat.add_0_r.
  - intros Hl _ d c. apply loadedNode_children in Hl as [Hdist Hkids].
    rewrite buildNewDataRecursive_loop.
    + destruct (returns E d (VObj ps)); [|reflexivity].
      rewrite assign_distinct; [reflexivity | | intros k _ []].
      now rewrite keys_mergedProps.
    + rewrite Forall_forall in *. intros kv Hin Hobj.
      apply (IH kv Hin); [apply (Hkids kv Hin) | exact Hobj].
Qed.

Lemma buildNewData_loaded E (existing fresh merged : value) (n : nat) :
  loadedTree fresh = true ->
  buildNewData E existing fresh = Ok (merged, n) ->
  exists ps, fresh = VObj ps
             /\ merged = VObj (mergedProps E (Val (orEmpty existing)) (VObj ps)).
Proof.
  intros Hf. destruct fresh as [| | k | s | ps]; try discriminate.
  unfold buildNewData.
  rewrite (buildNewDataRecursive_loaded E (VObj ps) Hf eq_refl).
  destruct (returns _ _ _); [|discriminate]. intros [= <- _]. now exists ps.
Qed.

(** X5: in a merge with a fresh tree as [yaml.safeLoad] gives it, a key with
    no value ([null]) becomes an empty mapping, whatever the data holds
    there, and a number becomes the original of a pair. *)
Theorem null_becomes_empty_mapping (E : engine)
  (existing fresh merged : value) (n : nat) :
  loadedTree fresh = true ->
  buildNewData E existing fresh = Ok (merged, n) ->
  (forall p, atPath fresh p = Some VNull -> atPath merged p = Some (VObj []))
  /\ (forall p k,
        atPath fresh p = Some (VNum k) ->
        exists t, atPath merged p = Some (leafPair (VNum k) t)).
Proof.
  intros Hf Hok.
  destruct (buildNewData_loaded _ _ _ _ _ Hf Hok) as [ps [-> ->]]. split.
  - intros p Hp.
    assert (Hne : p <> []) by (intros ->; discriminate).
    destruct (path_last p Hne) as [q [k ->]].
    apply atPath_last in Hp as [ps' [Hq Hk]].
    rewrite atPath_app, (atPath_merged_branch E q _ ps ps' Hq).
    cbn [atPath]. now rewrite lookup_mergedProps, Hk.
  - intros p k Hp.
    assert (Hne : p <> []) by (intros ->; discriminate).
    destruct (path_last p Hne) as [q [key ->]].
    rewrite (atPath_merged_leaf E q key _ ps (VNum k) Hp eq_refl). now eexists.
Qed.

Lemma null_becomes_empty_mapping_witness :
  atPath (VObj [("a", VObj []); ("b", leafPair (VNum 5) VNull)]) ["a"]
  = Some (VObj []).
Proof.
  exact (proj1 (null_becomes_empty_mapping exampleEngine
    (VObj [("a", leafPair (VStr "Hi") (VStr "Salut"))])
    (VObj [("a", VNull); ("b", VNum 5)])
    (VObj [("a", VObj []); ("b", leafPair (VNum 5) VNull)]) 1
    eq_refl eq_refl) ["a"] eq_refl).
Defined.


(** ** The pairs of a merged tree *)

Lemma isLeafPair_plainKeys (ps : props) :
  forallb (fun k => negb (reserved k)) (keys ps) = true ->
  isLeafPair (VObj ps) = false.
Proof.
  intros H. destruct (isLeafPair (VObj ps)) eqn:Hleaf; [|reflexivity].
  apply isLeafPair_inv in Hleaf as [o [t [[= ->] _]]]. discriminate.
Qed.

Lemma processedNode_mapping (ps : props) :
  distinct (keys ps) = true ->
  forallb (fun k => negb (reserved k)) (keys ps) = true ->
  Forall (fun kv => processedNode (snd kv) = true) ps ->
  processedNode (VObj ps) = true.
Proof.
  intros Hd Hres Hkids. cbn [processedNode]. rewrite Hd, Hres.
  apply orb_true_iff. right. cbn [andb]. apply forallb_forall.
  rewrite Forall_forall in Hkids. intros [k c] Hin. exact (Hkids _ Hin).
Qed.

Lemma pairsOfProps_cons (k : string) (c : value) (ps : props) :
  pairsOfProps ((k, c) :: ps)
  = map (fun '(p, l) => (k :: p, l)) (pairs c) ++ pairsOfProps ps.
Proof. reflexivity. Qed.

Lemma mergedProps_cons E (d : datum (host E)) (k : string) (v : value)
  (ps : props) :
  mergedProps E d (VObj ((k, v) :: ps))
  = (k, if typeofObject v
        then VObj (mergedProps E (step E d k) v)
        else leafPair v (carried E d k v)) :: mergedProps E d (VObj ps).
Proof. reflexivity. Qed.

(** The pair built for a leaf under [k]. *)
Lemma merged_leaf_pair E (d : value) (k s : string) :
  processedNode d = true -> noShadow d = true -> reserved k = false ->
  leafPair (VStr s) (carried E (Val d) k (VStr s)) = snd (mergedPair d ([k], s))
  /\ isLeafPair (leafPair (VStr s) (carried E (Val d) k (VStr s))) = true.
Proof.
  intros Hd Hns Hk. destruct (processedNode_obj d Hd) as [dps Heq]. subst d.
  pose proof (noShadow_shadowed dps Hns) as Hsh.
  unfold mergedPair. cbn [fst snd atPath].
  destruct (String.eqb s "") eqn:Hs.
  - unfold carried. cbn [isEmptyString]. rewrite Hs. now split.
  - assert (Hv : isEmptyString (VStr s) = false) by exact Hs.
    destruct (lookup dps k) as [e|] eqn:Hl.
    + destruct (carried_own E dps k e _ Hsh Hl Hv) as [-> _].
      split; [reflexivity|].
      destruct (processedNode_child dps k e Hd Hl) as [[_ [Hr _]]|[_ [_ He]]];
        [congruence|].
      destruct (processedNode_obj e He) as [es ->].
      change (isTranslation (field (VObj es) "_translated") = true).
      now apply processedNode_field.
    + destruct (carried_missing E dps k _ Hsh Hl Hv) as [-> _]. now split.
Qed.

Lemma isLeafPair_processedNode (v : value) :
  isLeafPair v = true -> processedNode v = true.
Proof.
  intros H. destruct v as [| | n | s | ps]; try discriminate.
  cbn [processedNode]. now rewrite H.
Qed.

Lemma mergesToPairs_props E (ps : props) :
  Forall (fun kv => (reserved (fst kv) = false
                     /\ objectProto E (fst kv) = None)
                    /\ rawNode (snd kv) = true
                    /\ plainKeys (snd kv) = true
                    /\ ordinaryKeys E (snd kv) = true) ps ->
  Forall (fun kv => typeofObject (snd kv) = true -> mergesToPairs E (snd kv))
         ps ->
  forall d,
    processedNode d = true -> noShadow d = true ->
    Forall (fun kv => processedNode (snd kv) = true)
           (mergedProps E (Val d) (VObj ps))
    /\ pairsOfProps (mergedProps E (Val d) (VObj ps))
       = map (mergedPair d) (leaves (VObj ps)).
Proof.
  induction 1 as [|[k v] rest [[Hk Hko] [Hraw [Hplain Hord]]] _ IH];
    intros HIH d Hd Hns.
  - split; [constructor | reflexivity].
  - inversion HIH as [|x l IHv IHrest]; subst. cbn [fst snd] in *.
    destruct (IH IHrest d Hd Hns) as [Hkids Hpairs].
    rewrite mergedProps_cons, pairsOfProps_cons, leaves_cons, map_app, Hpairs.
    destruct v as [| | n | s | vs]; try discriminate; cbn [typeofObject].
    + destruct (merged_leaf_pair E d k s Hd Hns Hk) as [Heq Hleaf].
      split; [constructor; [|exact Hkids] |].
      * cbn [snd]. now apply isLeafPair_processedNode.
      * rewrite (pairs_pair _ Hleaf). cbn [leaves map]. f_equal.
        unfold mergedPair at 1. cbn [fst snd]. f_equal. rewrite Heq.
        reflexivity.
    + destruct (processedNode_step E d k Hd Hk Hko) as [-> Hd'].
      pose proof (noShadow_step d k Hns) as Hns'.
      assert (Hstep : forall p x, In (p, x) (leaves (VObj vs)) ->
                atPath (match atPath d [k] with
                        | Some e => e
                        | None => VObj []
                        end) p = atPath d (k :: p)).
      { intros p x Hin. apply atPath_step.
        exact (leaves_obj_path vs p x Hin). }
      destruct (IHv eq_refl _ Hd' Hns') as [Hproc Hvp].
      split; [constructor; [exact Hproc | exact Hkids] |].
      rewrite Hvp, map_map. rewrite map_map. f_equal.
      apply map_ext_in. intros [p x] Hin. unfold mergedPair. cbn [fst snd].
      now rewrite (Hstep p x Hin).
Qed.

Lemma mergesToPairs_raw E (v : value) :
  rawNode v = true -> plainKeys v = true -> ordinaryKeys E v = true ->
  typeofObject v = true ->
  mergesToPairs E v.
Proof.
  induction v as [| | n | s | ps IH] using value_ind'; try discriminate.
  intros Hraw Hplain Hord _ d Hd Hns.
  pose proof Hraw as Hraw'. apply rawNode_children in Hraw' as [Hdist Hkids].
  pose proof Hplain as Hplain'. cbn [plainKeys] in Hplain'.
  apply andb_true_iff in Hplain' as [Hres Hpl].
  pose proof Hord as Hord'. cbn [ordinaryKeys] in Hord'.
  apply andb_true_iff in Hord' as [Hok Hol].
  rewrite forallb_forall in Hres, Hpl, Hok, Hol.
  rewrite Forall_forall in Hkids, IH.
  assert (Hall : Forall (fun kv => (reserved (fst kv) = false
                                    /\ objectProto E (fst kv) = None)
                                   /\ rawNode (snd kv) = true
                                   /\ plainKeys (snd kv) = true
                                   /\ ordinaryKeys E (snd kv) = true) ps).
  { apply Forall_forall. intros [k c] Hin. repeat split.
    - apply negb_true_iff, Hres. now apply (in_map fst) in Hin.
    - apply absent_None, Hok. now apply (in_map fst) in Hin.
    - exact (Hkids _ Hin).
    - exact (Hpl _ Hin).
    - exact (Hol _ Hin). }
  assert (HIH : Forall (fun kv => typeofObject (snd kv) = true ->
                                  mergesToPairs E (snd kv)) ps).
  { apply Forall_forall. intros [k c] Hin Hobj.
    apply (IH _ Hin);
      [exact (Hkids _ Hin) | exact (Hpl _ Hin) | exact (Hol _ Hin)
       | exact Hobj]. }
  destruct (mergesToPairs_props E ps Hall HIH d Hd Hns) as [Hproc Hpairs].
  assert (Hkeys : forallb (fun k => negb (reserved k))
                          (keys (mergedProps E (Val d) (VObj ps))) = true).
  { rewrite keys_mergedProps. now apply forallb_forall. }
  split.
  - apply processedNode_mapping; try assumption.
    now rewrite keys_mergedProps.
  - rewrite (pairs_mapping _ (isLeafPair_plainKeys _ Hkeys)). exact Hpairs.
Qed.

Lemma buildNewData_pairs E (existing fresh : value) :
  priorData existing = true ->
  noShadow existing = true ->
  rawTree fresh = true ->
  plainKeys fresh = true ->
  ordinaryKeys E fresh = true ->
  exists merged,
    buildNewData E existing fresh
    = Ok (merged, length (filter (isNew existing) (leaves fresh)))
    /\ processedNode merged = true
    /\ isLeafPair merged = false
    /\ pairs merged = map (mergedPair existing) (leaves fresh).
Proof.
  intros He Hns Hf Hplain Hord.
  destruct (rawTree_obj fresh Hf) as [Hraw [ps ->]].
  destruct (priorData_orEmpty existing He) as [Hd Hpath].
  pose proof (noShadow_orEmpty existing Hns) as Hns'.
  assert (Hleafpath : forall p s, In (p, s) (leaves (VObj ps)) ->
            atPath (orEmpty existing) p = atPath existing p).
  { intros p s Hin. apply Hpath. exact (leaves_obj_path ps p s Hin). }
  destruct (mergesToPairs_raw E _ Hraw Hplain Hord eq_refl _ Hd Hns')
    as [Hproc Hpairs].
  exists (VObj (mergedProps E (Val (orEmpty existing)) (VObj ps))).
  rewrite (buildNewData_returns E _ _ He Hns Hf Hplain Hord). repeat split.
  - f_equal. f_equal.
    rewrite (newCount_leaves E _ Hraw Hplain Hord _ Hd Hns'). f_equal.
    apply filter_ext_in. intros [p s] Hin. unfold isNew. cbn [fst snd].
    now rewrite (Hleafpath p s Hin).
  - exact Hproc.
  - apply isLeafPair_plainKeys. rewrite keys_mergedProps.
    cbn [plainKeys] in Hplain. now apply andb_true_iff in Hplain as [Hres _].
  - rewrite Hpairs. apply map_ext_in. intros [p s] Hin.
    unfold mergedPair. cbn [fst snd]. now rewrite (Hleafpath p s Hin).
Qed.

(** X6: when the data has no key [hasOwnProperty] and no key of the fresh
    tree is a field name of a pair or the name of an inherited property,
    [buildNewData] returns a processed tree, whose pairs are those the
    merge makes of the leaves of the fresh tree, in their order. *)
Theorem merge_returns_processed_tree (E : engine) (existing fresh : value) :
  priorData existing = true ->
  noShadow existing = true ->
  rawTree fresh = true ->
  plainKeys fresh = true ->
  ordinaryKeys E fresh = true ->
  exists merged n,
    buildNewData E existing fresh = Ok (merged, n)
    /\ processedTree merged = true
    /\ pairs merged = map (mergedPair existing) (leaves fresh).
Proof.
  intros He Hns Hf Hplain Hord.
  destruct (buildNewData_pairs E _ _ He Hns Hf Hplain Hord)
    as [merged [Hok [Hp [Hl Hpairs]]]].
  exists merged. eexists. split; [exact Hok|]. split; [|exact Hpairs].
  unfold processedTree. now rewrite Hp, Hl.
Qed.

Lemma merge_returns_processed_tree_witness :
  exists merged n,
    buildNewData exampleEngine
                 (VObj [("a", leafPair (VStr "Hi") (VStr "Salut"));
                        ("old", VObj [("x", leafPair (VStr "X") VNull)])])
                 (VObj [("a", VStr "Hello"); ("b", VObj [("c", VStr "")]);
                        ("old", VStr "Old")])
    = Ok (merged, n)
    /\ processedTree merged = true
    /\ pairs merged
       = [(["a"], leafPair (VStr "Hello") (VStr "Salut"));
          (["b"; "c"], leafPair (VStr "") (VStr ""));
          (["old"], leafPair (VStr "Old") VUndefined)].
Proof.
  exact (merge_returns_processed_tree exampleEngine
    (VObj [("a", leafPair (VStr "Hi") (VStr "Salut"));
           ("old", VObj [("x", leafPair (VStr "X") VNull)])])
    (VObj [("a", VStr "Hello"); ("b", VObj [("c", VStr "")]);
           ("old", VStr "Old")])
    eq_refl eq_refl eq_refl eq_refl eq_refl).
Defined.

Lemma filter_map_swap {A B : Type} (f : B -> bool) (g : A -> B) (l : list A) :
  filter f (map g l) = map g (filter (fun x => f (g x)) l).
Proof.
  induction l as [|x l IH]; [reflexivity|]. cbn [map filter].
  destruct (f (g x)); cbn [map]; now rewrite IH.
Qed.

Lemma untranslated_mergedPair (existing : value) (leaf : list string * string) :
  untranslatedPair (mergedPair existing leaf) = claimedNew existing leaf.
Proof.
  unfold untranslatedPair, mergedPair, claimedNew. cbn [fst snd].
  change (field (leafPair ?o ?t) "_translated") with t.
  destruct (String.eqb (snd leaf) ""); [reflexivity|]. cbn [negb andb].
  now destruct (atPath existing (fst leaf)).
Qed.

(** X7: when, moreover, no key of the fresh tree is [hasOwnProperty], the
    generator run on the merged tree yields, in the order of the fresh
    tree, its leaves that are not the empty string and whose path is
    absent from the data or leads to a pair whose translation is [null],
    each as a pair whose translation is [null]. *)
Theorem untranslated_keys_of_merged (E : engine) (existing fresh : value) :
  priorData existing = true ->
  noShadow existing = true ->
  rawTree fresh = true ->
  plainKeys fresh = true ->
  ordinaryKeys E fresh = true ->
  noShadow fresh = true ->
  exists merged n,
    buildNewData E existing fresh = Ok (merged, n)
    /\ untranslatedKeysGenerator merged []
       = (map (fun leaf => mkItem (leafPair (VStr (snd leaf)) VNull) (fst leaf))
              (filter (claimedNew existing) (leaves fresh)),
          None).
Proof.
  intros He Hns Hf Hplain Hord Hnf.
  destruct (buildNewData_pairs E _ _ He Hns Hf Hplain Hord)
    as [merged [Hok [Hp [Hl Hpairs]]]].
  pose proof (buildNewData_noShadow E _ _ _ _ He Hf Hnf Hok) as Hnm.
  exists merged. eexists. split; [exact Hok|].
  rewrite (untranslatedKeysGenerator_spec _ Hp (noShadow_below _ Hnm) Hl []),
    Hpairs.
  rewrite filter_map_swap, map_map. f_equal.
  rewrite (filter_ext _ _ (untranslated_mergedPair existing)).
  apply map_ext_in. intros [p s] Hin. apply filter_In in Hin as [_ Hnew].
  rewrite <- untranslated_mergedPair in Hnew.
  unfold itemAt, untranslatedPair, mergedPair in *. cbn [fst snd app] in *.
  change (field (leafPair ?o ?t) "_translated") with t in Hnew.
  f_equal. f_equal.
  destruct (String.eqb s ""); [discriminate|].
  destruct (atPath existing p) as [e|]; [|reflexivity].
  now destruct (field e "_translated").
Qed.

Lemma untranslated_keys_of_merged_witness :
  exists merged n,
    buildNewData exampleEngine
                 (VObj [("a", leafPair (VStr "Hi") (VStr "Salut"));
                        ("b", leafPair (VStr "Yes") VNull)])
                 (VObj [("a", VStr "Hi"); ("b", VStr "Yes");
                        ("c", VObj [("d", VStr "New"); ("e", VStr "")])])
    = Ok (merged, n)
    /\ untranslatedKeysGenerator merged []
       = (map (fun leaf => mkItem (leafPair (VStr (snd leaf)) VNull) (fst leaf))
              (filter (claimedNew
                         (VObj [("a", leafPair (VStr "Hi") (VStr "Salut"));
                                ("b", leafPair (VStr "Yes") VNull)]))
                 (leaves (VObj [("a", VStr "Hi"); ("b", VStr "Yes");
                                ("c", VObj [("d", VStr "New");
                                            ("e", VStr "")])]))),
          None).
Proof.
  exact (untranslated_keys_of_merged exampleEngine
    (VObj [("a", leafPair (VStr "Hi") (VStr "Salut"));
           ("b", leafPair (VStr "Yes") VNull)])
    (VObj [("a", VStr "Hi"); ("b", VStr "Yes");
           ("c", VObj [("d", VStr "New"); ("e", VStr "")])])
    eq_refl eq_refl eq_refl eq_refl eq_refl eq_refl).
Defined.

(** ** A first synchronisation *)

Lemma atPath_empty (p : list string) : p <> [] -> atPath (VObj []) p = None.
Proof. now destruct p. Qed.

Lemma length_filter_none {A : Type} (f : A -> bool) (l : list A) :
  (forall x, In x l -> f x = false) -> length (filter f l) = 0.
Proof.
  induction l as [|x l IH]; intros H; [reflexivity|]. cbn [filter].
  rewrite (H x) by now left. apply IH. intros y Hy. apply H. now right.
Qed.

(** X8: with no data ([undefined], [null] or an empty object), and no field
    name, no name of an inherited property and no [hasOwnProperty] among
    the keys of the fresh tree, the merged tree has nothing translated:
    [newUntranslatedKeysCount] and the [overallCount] of its statistics
    are both the number of leaves that are not the empty string, and its
    [translatedCount] is 0. *)
Theorem first_merge_counts (E : engine) (data fresh : value) :
  orEmpty data = VObj [] ->
  rawTree fresh = true ->
  plainKeys fresh = true ->
  ordinaryKeys E fresh = true ->
  noShadow fresh = true ->
  exists merged,
    buildNewData E data fresh
    = Ok (merged, length (filter notEmpty (leaves fresh)))
    /\ statistics merged
       = Ok (mkCounts (length (filter notEmpty (leaves fresh))) 0).
Proof.
  intros Hdata Hf Hplain Hord Hnf.
  assert (Hsame : buildNewData E data fresh = buildNewData E (VObj []) fresh).
  { rewrite !buildNewData_spec by exact Hf. now rewrite Hdata. }
  destruct (rawTree_obj fresh Hf) as [_ [ps ->]].
  destruct (buildNewData_pairs E (VObj []) (VObj ps) eq_refl eq_refl Hf Hplain
              Hord) as [merged [Hok [Hp [Hl Hpairs]]]].
  pose proof (buildNewData_noShadow E (VObj []) _ _ _ eq_refl Hf Hnf Hok)
    as Hnm.
  exists merged.
  rewrite Hsame, Hok, (statistics_spec _ Hp (noShadow_below _ Hnm) Hl), Hpairs.
  assert (Hnew : forall x, In x (leaves (VObj ps)) ->
            isNew (VObj []) x = notEmpty x).
  { intros [p s] Hin. unfold isNew, notEmpty. cbn [fst snd].
    rewrite (atPath_empty p (leaves_obj_path ps p s Hin)).
    apply andb_true_r. }
  assert (Hpair : forall x, In x (leaves (VObj ps)) ->
            countedPair (mergedPair (VObj []) x) = notEmpty x
            /\ translatedPair (mergedPair (VObj []) x) = false).
  { intros [p s] Hin. unfold translatedPair, countedPair, mergedPair, notEmpty.
    cbn [fst snd]. change (field (leafPair ?o ?t) "_translated") with t.
    rewrite (atPath_empty p (leaves_obj_path ps p s Hin)).
    now destruct (String.eqb s "") eqn:Hs; cbn [isEmptyString]; rewrite ?Hs. }
  split.
  - f_equal. f_equal. f_equal. now apply filter_ext_in.
  - rewrite !length_filter_map. f_equal. f_equal.
    + f_equal. apply filter_ext_in. intros x Hx. apply (Hpair x Hx).
    + apply length_filter_none. intros x Hx. apply (Hpair x Hx).
Qed.

Lemma first_merge_counts_witness :
  exists merged,
    buildNewData exampleEngine VUndefined
      (VObj [("a", VStr "Hi"); ("b", VObj [("c", VStr ""); ("d", VStr "Yes")])])
    = Ok (merged, 2)
    /\ statistics merged = Ok (mkCounts 2 0).
Proof.
  exact (first_merge_counts exampleEngine VUndefined
    (VObj [("a", VStr "Hi"); ("b", VObj [("c", VStr ""); ("d", VStr "Yes")])])
    eq_refl eq_refl eq_refl eq_refl eq_refl).
Defined.

(** ** Exporting a complete translation *)

Lemma rawProps_cons (k : string) (c : value) (ps : props) :
  rawProps (VObj ((k, c) :: ps))
  = (k, if isLeafPair c then field c "_translated" else VObj (rawProps c))
    :: rawProps (VObj ps).
Proof. reflexivity. Qed.

Lemma translated_pair_exports (c : value) :
  translatedToString ([], c) = true ->
  exists x, field c "_translated" = VStr x
            /\ translationOf ([], c) = ([], x).
Proof.
  unfold translatedToString, translationOf. cbn [fst snd].
  destruct (field c "_translated") as [| | n | x | ps]; try discriminate.
  intros _. now exists x.
Qed.

Lemma exportsToRaw_props (ps : props) :
  Forall (fun kv => reserved (fst kv) = false
                    /\ processedNode (snd kv) = true) ps ->
  Forall (fun kv => noShadow (snd kv) = true) ps ->
  Forall (fun kv => exportsToRaw (snd kv)) ps ->
  forallb translatedToString (pairsOfProps ps) = true ->
  Forall (fun kv => rawNode (snd kv) = true /\ plainKeys (snd kv) = true)
         (rawProps (VObj ps))
  /\ leaves (VObj (rawProps (VObj ps))) = map translationOf (pairsOfProps ps).
Proof.
  induction 1 as [|[k c] rest [Hk Hc] _ IH]; intros Hns HIH Hall.
  - split; [constructor | reflexivity].
  - inversion HIH as [|x l IHc IHrest]; subst.
    inversion Hns as [|x l Hnc Hnrest]; subst. cbn [fst snd] in *.
    rewrite pairsOfProps_cons, forallb_app in Hall.
    apply andb_true_iff in Hall as [Hhead Hall].
    destruct (IH Hnrest IHrest Hall) as [Hkids Hleaves].
    rewrite rawProps_cons, leaves_cons, Hleaves, pairsOfProps_cons, map_app.
    destruct (isLeafPair c) eqn:Hleaf.
    + rewrite (pairs_pair c Hleaf) in *. cbn [map forallb] in Hhead.
      rewrite andb_true_r in Hhead.
      change (translatedToString ([k], c))
        with (translatedToString ([], c)) in Hhead.
      destruct (translated_pair_exports c Hhead) as [x [-> Hx]].
      split; [constructor; [now split | exact Hkids] |].
      cbn [leaves map]. do 2 f_equal.
      unfold translationOf in *. cbn [fst snd] in *. now injection Hx as ->.
    + assert (Hc' : forallb translatedToString (pairs c) = true).
      { rewrite forallb_forall in *. intros [p x] Hin.
        apply (Hhead (k :: p, x)). apply in_map_iff. now exists (p, x). }
      destruct (IHc Hc (noShadow_below c Hnc) Hleaf Hc')
        as [Hraw [Hplain Hlc]].
      split; [constructor; [now split | exact Hkids] |].
      f_equal. rewrite Hlc, !map_map. apply map_ext. now intros [p x].
Qed.

Lemma exportsToRaw_all (c : value) : exportsToRaw c.
Proof.
  induction c as [| | n | s | ps IH] using value_ind'; try discriminate.
  intros Hp Hns Hleaf Hall. rewrite (pairs_mapping ps Hleaf) in *.
  destruct (processedNode_kids ps Hp Hleaf) as [Hdist Hkids].
  destruct (exportsToRaw_props ps Hkids (noShadowBelow_kids ps Hns) IH Hall)
    as [Hraw Hleaves].
  rewrite Forall_forall in Hraw, Hkids. repeat split.
  - cbn [rawNode]. rewrite keys_rawProps, Hdist. cbn [andb].
    apply forallb_forall. intros [k r] Hin. apply (Hraw _ Hin).
  - cbn [plainKeys]. rewrite keys_rawProps. apply andb_true_iff. split.
    + apply forallb_forall. intros k Hin. apply in_map_iff in Hin as [kv [<- Hin]].
      apply negb_true_iff. apply (Hkids _ Hin).
    + apply forallb_forall. intros [k r] Hin. apply (Hraw _ Hin).
  - exact Hleaves.
Qed.

(** X9: for a processed tree in which no mapping below the root has a key
    named [hasOwnProperty], and every pair of which has a string for
    translation, [processedDataToRaw] returns a raw tree, with no field
    name among its keys, whose leaves are the translations of the pairs,
    at the same paths and in the same order. *)
Theorem complete_translation_exports_raw_tree (tree : value) :
  processedTree tree = true ->
  noShadowBelow tree = true ->
  forallb translatedToString (pairs tree) = true ->
  exists raw,
    processedDataToRaw tree = Ok raw
    /\ rawTree raw = true
    /\ plainKeys raw = true
    /\ leaves raw = map translationOf (pairs tree).
Proof.
  intros Ht Hns Hall.
  destruct (processedTree_inv tree Ht) as [ps [-> [Hp Hleaf]]].
  destruct (exportsToRaw_all (VObj ps) Hp Hns Hleaf Hall)
    as [Hraw [Hplain Hl]].
  exists (VObj (rawProps (VObj ps))).
  split; [now apply processedDataToRaw_spec|]. now repeat split.
Qed.

Lemma complete_translation_exports_raw_tree_witness :
  exists raw,
    processedDataToRaw
      (VObj [("en", VObj [("hi", leafPair (VStr "Hi") (VStr "Salut"));
                          ("e", leafPair (VStr "") (VStr ""))])])
    = Ok raw
    /\ rawTree raw = true
    /\ plainKeys raw = true
    /\ leaves raw = [(["en"; "hi"], "Salut"); (["en"; "e"], "")].
Proof.
  exact (complete_translation_exports_raw_tree
    (VObj [("en", VObj [("hi", leafPair (VStr "Hi") (VStr "Salut"));
                        ("e", leafPair (VStr "") (VStr ""))])])
    eq_refl eq_refl eq_refl).
Defined.

(** ** [pullRemoteData] *)

Lemma unusedTranslatedKeysCount_spec (existing merged : value) :
  priorData existing = true ->
  noShadow existing = true ->
  objectTree merged = true ->
  noShadow merged = true ->
  unusedTranslatedKeysCount existing merged
  = Ok (length (filter (unusedPair merged) (pairs existing))).
Proof.
  intros He Hns Hm Hnm. unfold priorData in He.
  apply orb_true_iff in He as [Ht|Hn].
  - destruct (processedTree_inv existing Ht) as [ps [-> [Hp _]]].
    unfold unusedTranslatedKeysCount. cbn [truthy].
    now rewrite (unusedTranslatedKeysCountRecursive_spec _ Hp Hns merged 0
                   Hm Hnm).
  - now destruct existing.
Qed.

Lemma pairs_plain_path (t : value) :
  processedNode t = true ->
  forall p l, In (p, l) (pairs t) -> Forall (fun k => reserved k = false) p.
Proof.
  induction t as [| | n | s | ps IH] using value_ind'; try discriminate.
  intros Hp p l. destruct (isLeafPair (VObj ps)) eqn:Hleaf.
  - rewrite (pairs_pair _ Hleaf). intros [[= <- _]|[]]. constructor.
  - rewrite (pairs_mapping ps Hleaf).
    destruct (processedNode_kids ps Hp Hleaf) as [_ Hkids].
    rewrite Forall_forall in IH, Hkids. unfold pairsOfProps.
    rewrite in_flat_map. intros [[k c] [Hin Hm]].
    apply in_map_iff in Hm as [[p' l'] [[= <- <-] Hl]].
    destruct (Hkids _ Hin) as [Hk Hc]. constructor; [exact Hk|].
    exact (IH _ Hin Hc p' l' Hl).
Qed.

(** Along keys that are no field names, a path leads somewhere in the
    merged tree exactly when it does in the fresh tree. *)
Lemma absent_merged E (p : list string) :
  forall (d : datum (host E)) ps,
    rawNode (VObj ps) = true ->
    Forall (fun k => reserved k = false) p ->
    absent (atPath (VObj (mergedProps E d (VObj ps))) p)
    = absent (atPath (VObj ps) p).
Proof.
  induction p as [|k p IH]; intros d ps Hraw Hkeys; [reflexivity|].
  inversion Hkeys as [|x l _ Hrest]; subst.
  cbn [atPath]. rewrite lookup_mergedProps.
  destruct (lookup ps k) as [v|] eqn:Hl; [|reflexivity].
  apply rawNode_children in Hraw as [_ Hkids]. rewrite Forall_forall in Hkids.
  pose proof (Hkids _ (lookup_In _ _ _ Hl)) as Hv. cbn [snd] in Hv.
  destruct v as [| | n | s | vs]; try discriminate; cbn [typeofObject].
  - destruct p as [|k' p]; [reflexivity|].
    inversion Hrest as [|x l Hk' _]; subst.
    unfold reserved in Hk'. apply orb_false_iff in Hk' as [Ho Ht].
    unfold leafPair. cbn [atPath lookup].
    now rewrite (String.eqb_sym "_original" k'), Ho,
                (String.eqb_sym "_translated" k'), Ht.
  - now apply IH.
Qed.

Lemma defaulted_data (data : value) :
  priorData data = true ->
  let data' := match data with VUndefined => VObj [] | _ => data end in
  priorData data' = true
  /\ orEmpty data' = orEmpty data
  /\ pairs data' = pairs data
  /\ (noShadow data = true -> noShadow data' = true).
Proof. intros H. now destruct data. Qed.

(** X10: when the request and the decoding succeed and give a raw tree no
    key of which is a field name of a pair, the name of an inherited
    property or [hasOwnProperty], [pullRemoteData] resolves, for
    processed data with no key [hasOwnProperty], to the merged tree, the
    number of leaves that are new, and the number of translated pairs of
    the data whose path is absent from the fetched tree: a pair whose
    key the fetched tree still has, with any value, is not counted as
    unused. *)
Theorem pull_counts_pairs_absent_upstream
  {httpError yamlError : Type}
  (httpGet : string -> httpError + string)
  (safeLoad : string -> yamlError + value)
  (E : engine) (u body : string) (data fresh : value) :
  u <> "" ->
  httpGet u = inr body ->
  safeLoad body = inr fresh ->
  priorData data = true ->
  noShadow data = true ->
  rawTree fresh = true ->
  plainKeys fresh = true ->
  ordinaryKeys E fresh = true ->
  noShadow fresh = true ->
  exists merged n,
    buildNewData E data fresh = Ok (merged, n)
    /\ pullRemoteData httpGet safeLoad E (Some u) data
       = Resolved (mkPulled merged
                     (length (filter (isNew data) (leaves fresh)))
                     (length (filter (unusedPair fresh) (pairs data)))).
Proof.
  intros Hu Hget Hload Hdata Hns Hf Hplain Hord Hnf.
  destruct (defaulted_data data Hdata) as [Hdata' [Hor [Hpairs Hns']]].
  unfold pullRemoteData.
  set (data' := match data with VUndefined => VObj [] | _ => data end) in *.
  apply String.eqb_neq in Hu. rewrite Hu, Hget, Hload.
  assert (Hsame : buildNewData E data' fresh = buildNewData E data fresh).
  { rewrite !buildNewData_spec by exact Hf. now rewrite Hor. }
  pose proof (buildNewData_returns E _ _ Hdata Hns Hf Hplain Hord) as Hok.
  rewrite Hsame, Hok.
  pose proof (buildNewData_noShadow E _ _ _ _ Hdata Hf Hnf Hok) as Hnm.
  destruct (rawTree_obj fresh Hf) as [Hraw [ps ->]].
  rewrite (unusedTranslatedKeysCount_spec _ _ Hdata' (Hns' Hns)
             (mergedProps_objectTree E _ Hraw _) Hnm).
  do 2 eexists. split; [reflexivity|]. f_equal. f_equal.
  - destruct (priorData_orEmpty data Hdata) as [Hd Hpath].
    rewrite (newCount_leaves E _ Hraw Hplain Hord _ Hd
               (noShadow_orEmpty _ Hns)). f_equal.
    apply filter_ext_in. intros [p s] Hin. unfold isNew. cbn [fst snd].
    rewrite Hpath; [reflexivity|]. exact (leaves_obj_path ps p s Hin).
  - rewrite Hpairs. f_equal. apply filter_ext_in. intros [p l] Hin.
    unfold unusedPair. cbn [fst]. f_equal.
    apply absent_merged; [exact Hraw|].
    destruct (priorData_orEmpty data Hdata) as [Hd _].
    assert (Hin' : In (p, l) (pairs (orEmpty data))).
    { unfold priorData, processedTree in Hdata.
      destruct data; try discriminate; try contradiction. exact Hin. }
    exact (pairs_plain_path _ Hd p l Hin').
Qed.

Lemma pull_counts_pairs_absent_upstream_witness :
  exists merged n,
    buildNewData exampleEngine
      (VObj [("x", leafPair (VStr "Old") (VStr "Vieux"));
             ("y", leafPair (VStr "Gone") (VStr "Parti"));
             ("z", leafPair (VStr "Kept") (VStr "Garde"))])
      (VObj [("x", VStr "Old"); ("z", VObj [("w", VStr "New")])])
    = Ok (merged, n)
    /\ pullRemoteData (fun _ : string => @inr unit string "x: Old")
         (fun _ : string =>
            @inr unit value
              (VObj [("x", VStr "Old"); ("z", VObj [("w", VStr "New")])]))
         exampleEngine
         (Some "http://locales/en.yml")
         (VObj [("x", leafPair (VStr "Old") (VStr "Vieux"));
                ("y", leafPair (VStr "Gone") (VStr "Parti"));
                ("z", leafPair (VStr "Kept") (VStr "Garde"))])
       = Resolved (mkPulled merged 1 1).
Proof.
  exact (pull_counts_pairs_absent_upstream
    (fun _ : string => @inr unit string "x: Old")
    (fun _ : string =>
       @inr unit value
         (VObj [("x", VStr "Old"); ("z", VObj [("w", VStr "New")])]))
    exampleEngine
    "http://locales/en.yml" "x: Old"
    (VObj [("x", leafPair (VStr "Old") (VStr "Vieux"));
           ("y", leafPair (VStr "Gone") (VStr "Parti"));
           ("z", leafPair (VStr "Kept") (VStr "Garde"))])
    (VObj [("x", VStr "Old"); ("z", VObj [("w", VStr "New")])])
    ltac:(discriminate) eq_refl eq_refl eq_refl eq_refl eq_refl eq_refl
    eq_refl eq_refl).
Defined.




(** ** The password of a user *)

Lemma differs_false (a b : option string) :
  User.differs a b = false <-> a = b.
Proof.
  destruct a as [x|], b as [y|]; simpl; split; try discriminate; try reflexivity.
  - intros H. apply negb_false_iff, String.eqb_eq in H. now subst.
  - intros [= ->]. now rewrite String.eqb_refl.
Qed.

(** X15: The validator reports nothing exactly when the confirmation is the
    password and either the password has at least 6 characters, or the
    user is not new and the password is not given or empty. *)
Theorem password_accepted_iff (u : User.user) :
  User.validatePasswordDigest u = []
  <-> User._passwordConfirmation u = User._password u
      /\ ((exists p, User._password u = Some p /\ 6 <= String.length p)
          \/ (User.isNew u = false
              /\ (User._password u = None \/ User._password u = Some ""))).
Proof.
  unfold User.validatePasswordDigest.
  destruct u as [pw conf digest new]. cbn [User._password
    User._passwordConfirmation User.isNew].
  rewrite <- differs_false. split.
  - intros H. apply app_eq_nil in H as [Hpw Hconf].
    destruct (User.differs conf pw); [discriminate|]. split; [reflexivity|].
    destruct pw as [p|].
    + destruct (String.eqb_spec p "") as [->|Hne]; cbn [negb] in Hpw.
      * right. destruct new; [discriminate|]. split; [reflexivity | now right].
      * left. exists p. split; [reflexivity|].
        destruct (Nat.ltb_spec (String.length p) 6); [discriminate | assumption].
    + right. destruct new; [discriminate|]. split; [reflexivity | now left].
  - intros [-> [[p [-> Hlen]] | [-> [-> | ->]]]]; cbn [app];
      try reflexivity.
    destruct (String.eqb_spec p "") as [->|_]; [simpl in Hlen; lia|].
    cbn [negb]. now destruct (Nat.ltb_spec (String.length p) 6); [lia|].
Qed.

(** X16: A user who is not new can be given the empty password: the setter
    stores the digest of the empty string, and the validator, which tests
    the length of a password only when it is not empty, reports nothing
    when the confirmation is empty too. *)
Theorem empty_password_of_existing_user
  (hashSync : string -> string) (u : User.user) :
  User.isNew u = false ->
  let u' := User.setPasswordConfirmation (User.setPassword hashSync u "") "" in
  User.validatePasswordDigest u' = []
  /\ User.passwordDigest u' = hashSync "".
Proof. intros Hnew. unfold User.validatePasswordDigest. cbn. now rewrite Hnew. Qed.

Lemma empty_password_of_existing_user_witness :
  User.validatePasswordDigest
    (User.setPasswordConfirmation
       (User.setPassword (String.append "$2a$")
          (User.mkUser None None "$2a$secret" false) "") "") = []
  /\ User.passwordDigest
       (User.setPasswordConfirmation
          (User.setPassword (String.append "$2a$")
             (User.mkUser None None "$2a$secret" false) "") "")
     = "$2a$".
Proof.
  exact (empty_password_of_existing_user (String.append "$2a$")
           (User.mkUser None None "$2a$secret" false) eq_refl).
Defined.


(** ** No translation is invented *)

Lemma length_filter_split {A : Type} (f g : A -> bool) (l : list A) :
  length (filter (fun x => f x && g x) l)
  + length (filter (fun x => f x && negb (g x)) l)
  = length (filter f l).
Proof.
  induction l as [|x l IH]; [reflexivity|]. cbn [filter].
  destruct (f x), (g x); cbn [andb negb length]; lia.
Qed.

Lemma statistics_prior (existing : value) :
  priorData existing = true ->
  noShadow existing = true ->
  statistics existing
  = Ok (mkCounts (length (filter countedPair (pairs existing)))
                 (length (filter translatedPair (pairs existing)))).
Proof.
  intros He Hns. unfold priorData in He. apply orb_true_iff in He as [Ht|Hn].
  - destruct (processedTree_inv existing Ht) as [ps [-> [Hp Hl]]].
    apply statistics_spec; [exact Hp | now apply noShadow_below | exact Hl].
  - now destruct existing.
Qed.

(** A translated pair of the merged tree stands at the path of a
    translated pair of the data. *)
Lemma translated_merged_pair_kept E (existing fresh merged : value)
  (p : list string) (mp : value) :
  priorData existing = true ->
  rawTree fresh = true ->
  plainKeys fresh = true ->
  ordinaryKeys E fresh = true ->
  leavesFit existing fresh = true ->
  processedNode merged = true ->
  pairs merged = map (mergedPair existing) (leaves fresh) ->
  In (p, mp) (pairs merged) ->
  translatedPair (p, mp) = true ->
  exists e, In (p, e) (pairs existing)
            /\ translatedPair (p, e) = true
            /\ absent (atPath merged p) = false.
Proof.
  intros He Hf Hplain Hord Hfit Hpm Hpairs Hin Htr.
  assert (Hat : absent (atPath merged p) = false).
  { apply (pairs_atPath merged Hpm) in Hin as [-> _]. reflexivity. }
  rewrite Hpairs in Hin. apply in_map_iff in Hin as [[q s] [[= <- <-] Hleaf]].
  destruct (rawTree_obj fresh Hf) as [Hraw [ps ->]].
  pose proof (leaves_obj_path ps q s Hleaf) as Hq.
  unfold leavesFit in Hfit. rewrite forallb_forall in Hfit.
  specialize (Hfit _ Hleaf). unfold noMappingAt in Hfit. cbn [fst] in *.
  unfold translatedPair, countedPair in Htr. cbn [snd] in Htr.
  change (field (leafPair ?o ?t) "_translated") with t in Htr.
  destruct (String.eqb s ""); [discriminate|].
  destruct (atPath existing q) as [e|] eqn:Hex; [|discriminate].
  exists e. unfold priorData in He. apply orb_true_iff in He as [Ht|Hn].
  - destruct (processedTree_inv existing Ht) as [es [-> [Hp _]]].
    apply (leaves_atPath _ Hraw) in Hleaf.
    destruct (plainKeys_path _ _ _ Hplain Hleaf) as [Hkeys _].
    destruct (ordinaryKeys_path E _ _ _ Hord Hleaf) as [Hokeys _].
    destruct (dataAt_plain E q _ Hp Hkeys Hokeys) as [_ Hproc].
    rewrite Hex in Hproc.
    destruct (processedNode_obj e Hproc) as [xs ->].
    cbn [isMapping] in Hfit. apply negb_true_iff, negb_false_iff in Hfit.
    split; [|now split].
    apply (pairs_atPath _ Hp). now split.
  - destruct existing; try discriminate; now destruct q.
Qed.

(** X12: when the data and the fresh tree have no key [hasOwnProperty], no
    key of the fresh tree is a field name of a pair or the name of an
    inherited property, and the data has no mapping where the fresh tree
    has a leaf, the translated pairs of the merged tree and the unused
    keys together are at most the translated pairs of the data: a merge
    keeps a translation, reports it as unused, or drops it, and adds
    none. *)
Theorem merge_invents_no_translation (E : engine) (existing fresh : value) :
  priorData existing = true ->
  noShadow existing = true ->
  rawTree fresh = true ->
  plainKeys fresh = true ->
  ordinaryKeys E fresh = true ->
  noShadow fresh = true ->
  leavesFit existing fresh = true ->
  exists merged n after before unused,
    buildNewData E existing fresh = Ok (merged, n)
    /\ statistics merged = Ok after
    /\ statistics existing = Ok before
    /\ unusedTranslatedKeysCount existing merged = Ok unused
    /\ translatedCount after + unused <= translatedCount before.
Proof.
  intros He Hns Hf Hplain Hord Hnf Hfit.
  destruct (buildNewData_pairs E _ _ He Hns Hf Hplain Hord)
    as [merged [Hok [Hp [Hl Hpairs]]]].
  pose proof (buildNewData_noShadow E _ _ _ _ He Hf Hnf Hok) as Hnm.
  exists merged. do 4 eexists. split; [exact Hok|].
  split; [exact (statistics_spec _ Hp (noShadow_below _ Hnm) Hl)|].
  split; [exact (statistics_prior _ He Hns)|].
  split; [exact (unusedTranslatedKeysCount_spec _ _ He Hns
                   (processedNode_objectTree _ Hp) Hnm)|].
  cbn [translatedCount].
  rewrite <- (length_filter_split translatedPair
                (fun x => absent (atPath merged (fst x))) (pairs existing)).
  fold (unusedPair merged). rewrite Nat.add_comm. apply Nat.add_le_mono_l.
  rewrite <- (length_map fst (filter translatedPair (pairs merged))).
  rewrite <- (length_map fst (filter _ (pairs existing))).
  apply NoDup_incl_length.
  - apply NoDup_map_filter, pairs_NoDup, Hp.
  - intros p Hin. apply in_map_iff in Hin as [[q mp] [<- Hin]].
    apply filter_In in Hin as [Hin Htr]. cbn [fst].
    destruct (translated_merged_pair_kept E _ _ _ q mp He Hf Hplain Hord Hfit
                Hp Hpairs Hin Htr) as [e [Hine [Hte Hat]]].
    apply in_map_iff. exists (q, e). split; [reflexivity|].
    apply filter_In. split; [exact Hine|]. cbn [fst]. now rewrite Hte, Hat.
Qed.

Lemma merge_invents_no_translation_witness :
  exists merged n after before unused,
    buildNewData exampleEngine
      (VObj [("x", leafPair (VStr "Old") (VStr "Vieux"));
             ("y", leafPair (VStr "Gone") (VStr "Parti"));
             ("z", leafPair (VStr "Kept") (VStr "Garde"))])
      (VObj [("x", VStr "Old"); ("z", VObj [("w", VStr "New")])])
    = Ok (merged, n)
    /\ statistics merged = Ok after
    /\ statistics
         (VObj [("x", leafPair (VStr "Old") (VStr "Vieux"));
                ("y", leafPair (VStr "Gone") (VStr "Parti"));
                ("z", leafPair (VStr "Kept") (VStr "Garde"))])
       = Ok before
    /\ unusedTranslatedKeysCount
         (VObj [("x", leafPair (VStr "Old") (VStr "Vieux"));
                ("y", leafPair (VStr "Gone") (VStr "Parti"));
                ("z", leafPair (VStr "Kept") (VStr "Garde"))])
         merged
       = Ok unused
    /\ translatedCount after + unused <= translatedCount before.
Proof.
  exact (merge_invents_no_translation exampleEngine
    (VObj [("x", leafPair (VStr "Old") (VStr "Vieux"));
           ("y", leafPair (VStr "Gone") (VStr "Parti"));
           ("z", leafPair (VStr "Kept") (VStr "Garde"))])
    (VObj [("x", VStr "Old"); ("z", VObj [("w", VStr "New")])])
    eq_refl eq_refl eq_refl eq_refl eq_refl eq_refl eq_refl).
Defined.

(** ** A property that is [null] *)

Lemma hasOwnProperty_nullish (v : value) (k : string) :
  nullish v = true -> hasOwnProperty v k = Throw TypeError.
Proof. intros H. unfold hasOwnProperty. now rewrite H. Qed.

(** The test of the service on a processed node: it throws a [TypeError]
    when the node hides the method, and tells a pair from a mapping
    otherwise. *)
Lemma hasOwnProperty_processed_or (c : value) :
  processedNode c = true ->
  hasOwnProperty c "_translated" = Throw TypeError
  \/ (hasOwnProperty c "_translated" = Ok (isLeafPair c)
      /\ getOwn c "_translated" = Ok (field c "_translated")).
Proof.
  intros Hc. destruct (shadowed c) eqn:Hs.
  - left. unfold hasOwnProperty. rewrite Hs. now destruct (nullish c).
  - right. now apply hasOwnProperty_processed.
Qed.

(** On a processed mapping, whatever its keys, [statistics] returns or
    throws a [TypeError]. *)
Lemma statisticsRecursive_processed (c : value) :
  processedNode c = true -> isLeafPair c = false ->
  forall st,
    (exists st', statisticsRecursive c st = Ok st')
    \/ statisticsRecursive c st = Throw TypeError.
Proof.
  induction c as [| | n | s | ps IH] using value_ind'; try discriminate.
  intros Hp Hleaf. destruct (processedNode_kids ps Hp Hleaf) as [_ Hkids].
  clear Hp Hleaf.
  induction ps as [|[k c] ps IHps]; intros st; [left; now exists st|].
  inversion IH as [|x l IHc IHrest]; subst.
  inversion Hkids as [|x l [_ Hc] Hrest]; subst. cbn [snd] in *.
  rewrite statisticsRecursive_cons.
  destruct (hasOwnProperty_processed_or c Hc) as [->|[-> ->]]; [now right|].
  destruct (isLeafPair c) eqn:Hl; [now apply IHps|].
  destruct (IHc Hc eq_refl st) as [[st' ->]| ->]; [now apply IHps | now right].
Qed.

Lemma processedDataToRaw_processed (c : value) :
  processedNode c = true -> isLeafPair c = false ->
  (exists r, processedDataToRaw c = Ok r)
  \/ processedDataToRaw c = Throw TypeError.
Proof.
  induction c as [| | n | s | ps IH] using value_ind'; try discriminate.
  intros Hp Hleaf. destruct (processedNode_kids ps Hp Hleaf) as [_ Hkids].
  clear Hp Hleaf. rewrite processedDataToRaw_loop.
  generalize (@nil (string * value)) as acc.
  induction ps as [|[k c] ps IHps]; intros acc; [left; now eexists|].
  inversion IH as [|x l IHc IHrest]; subst.
  inversion Hkids as [|x l [_ Hc] Hrest]; subst. cbn [snd] in *.
  cbn [toRawLoop].
  destruct (hasOwnProperty_processed_or c Hc) as [->|[-> ->]]; [now right|].
  destruct (isLeafPair c) eqn:Hl; [now apply IHps|].
  destruct (IHc Hc eq_refl) as [[r ->]| ->]; [now apply IHps | now right].
Qed.

Lemma untranslatedKeysGenerator_processed (c : value) :
  processedNode c = true -> isLeafPair c = false ->
  forall chain,
    snd (untranslatedKeysGenerator c chain) = None
    \/ snd (untranslatedKeysGenerator c chain) = Some TypeError.
Proof.
  induction c as [| | n | s | ps IH] using value_ind'; try discriminate.
  intros Hp Hleaf. destruct (processedNode_kids ps Hp Hleaf) as [_ Hkids].
  clear Hp Hleaf.
  induction ps as [|[k c] ps IHps]; intros chain; [now left|].
  inversion IH as [|x l IHc IHrest]; subst.
  inversion Hkids as [|x l [_ Hc] Hrest]; subst. cbn [snd] in *.
  rewrite untranslatedKeysGenerator_cons.
  destruct (hasOwnProperty_processed_or c Hc) as [->|[-> ->]]; [now right|].
  specialize (IHps IHrest Hrest chain).
  destruct (untranslatedKeysGenerator (VObj ps) chain) as [later e].
  destruct (isLeafPair c) eqn:Hl; [exact IHps|].
  specialize (IHc Hc eq_refl (chain ++ [k])).
  destruct (untranslatedKeysGenerator c (chain ++ [k])) as [inner [e'|]];
    cbn [snd] in *; [|exact IHps].
  destruct IHc as [H|H]; [discriminate | now right].
Qed.

Lemma statisticsRecursive_null (before after : props) (k : string) (v : value) :
  Forall (fun kv => processedNode (snd kv) = true) before ->
  nullish v = true ->
  forall st,
    statisticsRecursive (VObj (before ++ (k, v) :: after)) st = Throw TypeError.
Proof.
  intros Hb Hv. induction Hb as [|[k0 c0] b Hc _ IH]; intros st; cbn [app];
    rewrite statisticsRecursive_cons.
  - now rewrite hasOwnProperty_nullish.
  - cbn [snd] in Hc.
    destruct (hasOwnProperty_processed_or c0 Hc) as [->|[-> ->]];
      [reflexivity|].
    destruct (isLeafPair c0) eqn:Hl; [apply IH|].
    destruct (statisticsRecursive_processed c0 Hc Hl st) as [[st' ->]| ->];
      [apply IH | reflexivity].
Qed.

Lemma toRawLoop_null (before after : props) (k : string) (v : value) :
  Forall (fun kv => processedNode (snd kv) = true) before ->
  nullish v = true ->
  forall acc, toRawLoop (before ++ (k, v) :: after) acc = Throw TypeError.
Proof.
  intros Hb Hv. induction Hb as [|[k0 c0] b Hc _ IH]; intros acc;
    cbn [app toRawLoop].
  - now rewrite hasOwnProperty_nullish.
  - cbn [snd] in Hc.
    destruct (hasOwnProperty_processed_or c0 Hc) as [->|[-> ->]];
      [reflexivity|].
    destruct (isLeafPair c0) eqn:Hl; [apply IH|].
    destruct (processedDataToRaw_processed c0 Hc Hl) as [[r ->]| ->];
      [apply IH | reflexivity].
Qed.

Lemma untranslatedKeysGenerator_null (before after : props) (k : string)
  (v : value) :
  Forall (fun kv => processedNode (snd kv) = true) before ->
  nullish v = true ->
  forall c,
    snd (untranslatedKeysGenerator (VObj (before ++ (k, v) :: after)) c)
    = Some TypeError.
Proof.
  intros Hb Hv. induction Hb as [|[k0 c0] b Hc _ IH]; intros c; cbn [app];
    rewrite untranslatedKeysGenerator_cons.
  - now rewrite hasOwnProperty_nullish.
  - cbn [snd] in Hc.
    destruct (hasOwnProperty_processed_or c0 Hc) as [->|[-> ->]];
      [reflexivity|].
    specialize (IH c).
    destruct (untranslatedKeysGenerator (VObj (b ++ (k, v) :: after)) c)
      as [later e].
    destruct (isLeafPair c0) eqn:Hl; [exact IH|].
    pose proof (untranslatedKeysGenerator_processed c0 Hc Hl (c ++ [k0])) as H0.
    destruct (untranslatedKeysGenerator c0 (c ++ [k0])) as [inner [e'|]];
      cbn [snd] in *; [|exact IH].
    destruct H0 as [H0|H0]; [discriminate | exact H0].
Qed.

(** X13: A property of the root that is [null] or [undefined], after
    properties that are well-formed, makes [statistics] and
    [processedDataToRaw] throw a [TypeError], and ends the run of the
    generator with one: each calls [hasOwnProperty] on the child. *)
Theorem null_property_throws (before after : props) (k : string) (v : value) :
  Forall (fun kv => processedNode (snd kv) = true) before ->
  nullish v = true ->
  statistics (VObj (before ++ (k, v) :: after)) = Throw TypeError
  /\ processedDataToRaw (VObj (before ++ (k, v) :: after)) = Throw TypeError
  /\ snd (untranslatedKeysGenerator (VObj (before ++ (k, v) :: after)) [])
     = Some TypeError.
Proof.
  intros Hb Hv. repeat split.
  - now apply statisticsRecursive_null.
  - rewrite processedDataToRaw_loop. now apply toRawLoop_null.
  - now apply untranslatedKeysGenerator_null.
Qed.

Lemma null_property_throws_witness :
  statistics (VObj [("a", leafPair (VStr "Hi") VNull); ("b", VNull)])
  = Throw TypeError.
Proof.
  exact (proj1 (null_property_throws
    [("a", leafPair (VStr "Hi") VNull)] [] "b" VNull
    ltac:(repeat constructor) eq_refl)).
Defined.

(** ** With no data the merge returns *)

Lemma returns_empty E (fresh : value) :
  ordinaryKeys E fresh = true -> returns E (Val (VObj [])) fresh = true.
Proof.
  induction fresh as [| | n | s | ps IH] using value_ind'; try reflexivity.
  intros Hord. cbn [ordinaryKeys] in Hord.
  apply andb_true_iff in Hord as [Hok Hol]. rewrite forallb_forall in Hok, Hol.
  cbn [returns]. apply forallb_forall. rewrite Forall_forall in IH.
  intros [k v] Hin.
  assert (Hko : objectProto E k = None).
  { apply absent_None, Hok. now apply (in_map fst) in Hin. }
  destruct (typeofObject v).
  - rewrite (step_missing E [] k eq_refl Hko),
      (get_missing E [] k eq_refl Hko).
    exact (IH _ Hin (Hol _ Hin)).
  - unfold leafReturns. cbn. apply orb_true_r.
Qed.

(** X14: with no data ([undefined], [null] or an empty object),
    [buildNewData] returns for every tree [yaml.safeLoad] can give none
    of whose keys is the name of an inherited property, the field names
    of a pair and [hasOwnProperty] being allowed among them. *)
Theorem merge_without_data_returns (E : engine) (data fresh : value) :
  orEmpty data = VObj [] ->
  loadedTree fresh = true ->
  ordinaryKeys E fresh = true ->
  exists merged n, buildNewData E data fresh = Ok (merged, n).
Proof.
  intros Hd Hf Hord. destruct fresh as [| | k | s | ps]; try discriminate.
  unfold buildNewData.
  rewrite (buildNewDataRecursive_loaded E (VObj ps) Hf eq_refl).
  rewrite Hd, returns_empty by exact Hord. now do 2 eexists.
Qed.

Lemma merge_without_data_returns_witness :
  exists merged n,
    buildNewData exampleEngine VNull
      (VObj [("a", VObj [("_translated", VStr "y"); ("n", VNull)])])
    = Ok (merged, n).
Proof.
  exact (merge_without_data_returns exampleEngine VNull
    (VObj [("a", VObj [("_translated", VStr "y"); ("n", VNull)])])
    eq_refl eq_refl eq_refl).
Defined.
